(** * VROOM: scaling constants and JSON input ingestion

    A shallow embedding of [src/structures/typedefs.h] and
    [src/utils/input_parser.cpp], followed by the properties the
    specification states about them.

    Conventions of the embedding.
    - Fixed-width integers are [Z] values; every conversion or operation
      that can leave the range of its C++ type is written with an explicit
      wrap ([static_cast_unsigned], [static_cast_signed]).
    - C++ exceptions, [assert] and [RAPIDJSON_ASSERT] are outcomes of the
      [result] monad.
    - A [double] is kept as the JSON number it was read from; binary64
      rounding is not modelled.
    - The arguments of a constructor call are evaluated in the order they
      are written.  C++ leaves that order unspecified; it only matters for
      which of several pending exceptions is the one thrown, and no theorem
      below depends on that choice.
    - [std::sort] is rendered by a stable merge sort ([std_sort]); C++
      leaves the relative order of equivalent elements unspecified.
    - A JSON string or member name may hold the character U+0000.
      [GetString()] returns a C string, and wherever the parser turns it
      into a [std::string] the characters from the first U+0000
      on are lost; that conversion is written out ([std_string]). *)

From Stdlib Require Import ZArith Lia DecimalString.
From stdpp Require Import base decidable option list sorting strings gmap.

Local Open Scope Z_scope.

(* ===================================================================== *)
(** * Outcomes *)

Inductive exception : Type :=
| InputException (message : string)
| runtime_error (message : string)
| assertion_failure.

Inductive result (A : Type) : Type :=
| Ok (a : A)
| Throw (e : exception).

Arguments Ok {A} a.
Arguments Throw {A} e.

#[global] Instance result_ret : MRet result := @Ok.

#[global] Instance result_bind : MBind result := fun A B f m =>
  match m with
  | Ok a => f a
  | Throw e => Throw e
  end.

Definition throw {A} (e : exception) : result A := Throw e.

(** [assert(b)] and [RAPIDJSON_ASSERT(b)]. *)
Definition assert (b : bool) : result unit :=
  if b then Ok tt else Throw assertion_failure.

(** A loop whose body updates a state and may throw. *)
Fixpoint for_each {S A} (body : S -> A -> result S) (s : S) (l : list A)
  : result S :=
  match l with
  | [] => Ok s
  | x :: rest => s' ← body s x; for_each body s' rest
  end.

(** [std::sort] and [std::ranges::sort] with the comparator [lt]: the
    elements rearranged so that none is less than one before it. *)
Definition std_sort {A} (lt : relation A) `{!RelDecision lt} (l : list A)
  : list A :=
  merge_sort (fun a b => ~ lt b a) l.

(** [std::to_string] on an unsigned value. *)
Definition to_string (z : Z) : string :=
  NilEmpty.string_of_uint (N.to_uint (Z.to_N z)).

(* ===================================================================== *)
(** * typedefs.h *)

Definition static_cast_unsigned (bits : Z) (z : Z) : Z := z mod 2 ^ bits.

Definition static_cast_signed (bits : Z) (z : Z) : Z :=
  (z + 2 ^ (bits - 1)) mod 2 ^ bits - 2 ^ (bits - 1).

Abbreviation Id := Z (only parsing).  (* uint64_t *)
Abbreviation Index := Z (only parsing).  (* uint16_t *)
Abbreviation UserCost := Z (only parsing).  (* uint32_t *)
Abbreviation Cost := Z (only parsing).  (* int64_t *)
Abbreviation UserDuration := Z (only parsing).  (* uint32_t *)
Abbreviation Duration := Z (only parsing).  (* int64_t *)
Abbreviation UserDistance := Z (only parsing).  (* uint32_t *)
Abbreviation Distance := Z (only parsing).  (* int64_t *)
Abbreviation Capacity := Z (only parsing).  (* int64_t *)
Abbreviation Skill := Z (only parsing).  (* uint32_t *)
Abbreviation Priority := Z (only parsing).  (* uint32_t *)
Abbreviation MaxTasks := Z (only parsing).  (* size_t *)

Definition uint16_t : Z -> Z := static_cast_unsigned 16.
Definition uint32_t : Z -> Z := static_cast_unsigned 32.
Definition uint64_t : Z -> Z := static_cast_unsigned 64.
Definition int64_t : Z -> Z := static_cast_signed 64.

Definition UINT32_MAX : Z := 2 ^ 32 - 1.
Definition UINT64_MAX : Z := 2 ^ 64 - 1.
Definition INT64_MAX : Z := 2 ^ 63 - 1.

Definition in_uint32 (z : Z) : Prop := 0 <= z <= UINT32_MAX.

(** [3 * (std::numeric_limits<UserCost>::max() / 4)], computed in
    [uint32_t]. *)
Definition INFINITE_USER_COST : UserCost :=
  uint32_t (3 * uint32_t (UINT32_MAX / 4)).

Definition DEFAULT_PROFILE : string := "car".

Definition DURATION_FACTOR : Duration := 100.
Definition DISTANCE_FACTOR : Distance := 360.
Definition COST_FACTOR : Cost := 3600.
Definition DEFAULT_COST_PER_HOUR : UserCost := 3600.
Definition DEFAULT_COST_PER_KM : UserCost := 0.
Definition MAX_PRIORITY : Priority := 100.

Inductive JOB_TYPE : Type := SINGLE | PICKUP | DELIVERY.
Inductive STEP_TYPE : Type := START | JOB | BREAK | END.

(** Arithmetic of [int64_t] operands. *)
Definition mul64 (a b : Z) : Z := int64_t (a * b).
Definition add64 (a b : Z) : Z := int64_t (a + b).
Definition div64 (a b : Z) : Z := int64_t (Z.quot a b).

Definition scale_from_user_duration (d : UserDuration) : Duration :=
  mul64 DURATION_FACTOR (int64_t d).

Definition scale_to_user_duration (d : Duration) : result UserDuration :=
  assert (d <=? scale_from_user_duration UINT32_MAX);;
  Ok (uint32_t (div64 d DURATION_FACTOR)).

Definition scale_from_user_cost (c : UserCost) : Cost :=
  mul64 (mul64 DURATION_FACTOR COST_FACTOR) (int64_t c).

Definition scale_to_user_cost (c : Cost) : result UserCost :=
  assert (c <=? scale_from_user_cost UINT32_MAX);;
  Ok (uint32_t (div64 c (mul64 DURATION_FACTOR COST_FACTOR))).

(** Left-to-right accumulation of [Cost] values with [+]. *)
Definition sum_costs (costs : list Cost) : Cost :=
  foldl add64 0 costs.

(* ===================================================================== *)
(** * The rapidjson document model

    The accessors the parser uses.  [HasMember], [operator[]] and the
    [Get*] accessors carry a [RAPIDJSON_ASSERT] on the kind of the value.
    They are total here (absent members and foreign kinds read as [kNull],
    [0] or the empty string); at the call sites of the parser that are not
    dominated by the corresponding [Is*] test the assertion is written out
    with [assert]. *)

Inductive Number : Type :=
| NumInt (z : Z)                      (* an integer literal *)
| NumDouble (mantissa exponent : Z).  (* any other number *)

#[warnings="-register-all"]
Inductive Value : Type :=
| kNull
| kBool (b : bool)
| kNumber (n : Number)
| kString (s : string)
| kArray (elements : list Value)
| kObject (members : list (string * Value)).

Abbreviation double := Number (only parsing).

Definition IsArray (v : Value) : bool :=
  match v with kArray _ => true | _ => false end.

Definition IsObject (v : Value) : bool :=
  match v with kObject _ => true | _ => false end.

Definition IsString (v : Value) : bool :=
  match v with kString _ => true | _ => false end.

Definition IsNumber (v : Value) : bool :=
  match v with kNumber _ => true | _ => false end.

Definition IsUint (v : Value) : bool :=
  match v with
  | kNumber (NumInt z) => (0 <=? z) && (z <=? UINT32_MAX)
  | _ => false
  end.

Definition IsUint64 (v : Value) : bool :=
  match v with
  | kNumber (NumInt z) => (0 <=? z) && (z <=? UINT64_MAX)
  | _ => false
  end.

Definition GetUint (v : Value) : Z :=
  match v with kNumber (NumInt z) => z | _ => 0 end.

Definition GetUint64 (v : Value) : Z :=
  match v with kNumber (NumInt z) => z | _ => 0 end.

Definition GetDouble (v : Value) : double :=
  match v with kNumber n => n | _ => NumInt 0 end.

Definition GetString (v : Value) : string :=
  match v with kString s => s | _ => "" end.

(** The [std::string] built from a C string, which [GetString()] and the
    [GetString()] of a member name go through wherever the parser stores
    them: the characters before the first U+0000. *)
Fixpoint std_string (s : string) : string :=
  match s with
  | EmptyString => EmptyString
  | String c rest =>
      if Ascii.eqb c Ascii.zero then EmptyString
      else String c (std_string rest)
  end.

Definition GetArray (v : Value) : list Value :=
  match v with kArray l => l | _ => [] end.

Definition GetObject (v : Value) : list (string * Value) :=
  match v with kObject ms => ms | _ => [] end.

Definition Size (v : Value) : nat := length (GetArray v).

Definition Empty (v : Value) : bool :=
  match GetArray v with [] => true | _ => false end.

(** [FindMember]: the first member carrying the name. *)
Fixpoint FindMember (ms : list (string * Value)) (key : string)
  : option Value :=
  match ms with
  | [] => None
  | (name, v) :: rest =>
      if String.eqb name key then Some v else FindMember rest key
  end.

Definition HasMember (v : Value) (key : string) : bool :=
  match FindMember (GetObject v) key with Some _ => true | None => false end.

Definition member (v : Value) (key : string) : Value :=
  default kNull (FindMember (GetObject v) key).

Definition element (v : Value) (i : nat) : Value :=
  default kNull (GetArray v !! i).

Notation "v .[ k ]" := (member v k)
  (at level 1, left associativity, format "v .[ k ]").

(** The outcome of [Document::Parse] on the input text. *)
Inductive ParseResult : Type :=
| HasParseError (GetParseError_En : string) (GetErrorOffset : Z)
| Document (root : Value).

(* ===================================================================== *)
(** * Structures the parser builds

    Apart from [Coordinates], the classes below are declared in headers
    that are missing from the sources.  Except where a doc comment says
    otherwise, a value of such a class is identified with the arguments
    its constructor received from the parser; validation performed inside
    those constructors is not modelled. *)

Record Coordinates : Type := { lon : double; lat : double }.

(** Modelled from the spec: class [Location] is missing from the sources.
    A location is a raw coordinate pair, a matrix index, or both (spec,
    section 3); one constructor for each of the three [Location]
    constructors the parser calls. *)
Inductive Location : Type :=
| Location_index (index : Index)
| Location_coords (coords : Coordinates)
| Location_index_coords (index : Index) (coords : Coordinates).

(** Modelled from the spec: classes [Amount] and [Matrix] are missing from
    the sources.  An amount is a small fixed-length integer vector (spec,
    section 9), a matrix a square array of unsigned integers (spec,
    section 6), kept as its rows. *)
Abbreviation Amount := (list Capacity) (only parsing).
Abbreviation Matrix := (list (list Z)) (only parsing).

Abbreviation Skills := (gset Skill) (only parsing).
Abbreviation UserDurationMap := (gmap string UserDuration) (only parsing).

(** [Amount amount(amount_size)]: the zero vector. *)
Definition Amount_zero (amount_size : nat) : Amount := replicate amount_size 0.

(** Modelled from the spec: class [TimeWindow] (structures/vroom/time_window.h)
    is missing from the sources.  A window keeps its two bounds as internal
    durations (spec, section 3), and constructing a window whose start
    exceeds its end is an input error raised during ingestion (spec,
    section 7: "malformed time window (start > end)").  The spec is silent
    on the default window; it is taken as the unbounded one. *)
Record TimeWindow : Type := { tw_start : Duration; tw_end : Duration }.

Definition TimeWindow_default : TimeWindow :=
  {| tw_start := 0; tw_end := INT64_MAX |}.

Definition TimeWindow_make (start end_ : UserDuration) : result TimeWindow :=
  if end_ <? start then
    throw (InputException ("Invalid time window: [" +:+ to_string start +:+
                           ", " +:+ to_string end_ +:+ "]"))
  else
    Ok {| tw_start := scale_from_user_duration start;
          tw_end := scale_from_user_duration end_ |}.

(** Modelled from the spec: [TimeWindow::operator<] is missing from the
    sources; time windows are kept sorted (spec, section 3), by start and
    then by end, which is the order the comparator of [get_vehicle_breaks]
    spells out. *)
Definition TimeWindow_lt (a b : TimeWindow) : Prop :=
  tw_start a < tw_start b \/ (tw_start a = tw_start b /\ tw_end a < tw_end b).

#[global] Instance TimeWindow_lt_dec : RelDecision TimeWindow_lt.
Proof. intros a b. unfold TimeWindow_lt. apply _. Defined.

(** Modelled from the spec: [utils::check_tws] (utils/helpers.h) is missing
    from the sources.  A list of time windows is nonempty and sorted (spec,
    sections 3 and 6); the check raises an input error naming the object
    otherwise (spec, section 6). *)
Fixpoint tws_sorted (tws : list TimeWindow) : bool :=
  match tws with
  | a :: (b :: _) as rest =>
      bool_decide (~ TimeWindow_lt b a) && tws_sorted rest
  | _ => true
  end.

Definition check_tws (tws : list TimeWindow) (id : Id) (type : string)
  : result unit :=
  match tws with
  | [] =>
      throw (InputException ("Empty time-windows for " +:+ type +:+ " " +:+
                             to_string id +:+ "."))
  | _ =>
      if tws_sorted tws then Ok tt
      else throw (InputException
                    ("Unsorted time-windows for " +:+ type +:+ " " +:+
                     to_string id +:+ "."))
  end.

(** Modelled from the spec: class [Break] is missing from the sources.  A
    break carries an id, its time windows, a service duration and an
    optional max_load (spec, section 3), and the description the parser
    passes along. *)
Record Break : Type := {
  break_id : Id;
  break_tws : list TimeWindow;
  break_service : UserDuration;
  break_description : string;
  break_max_load : option Amount
}.

(** Modelled from the spec: class [VehicleCosts] is missing from the
    sources: the cost triple (fixed, per-hour, per-km) of spec section 3. *)
Record VehicleCosts : Type := {
  costs_fixed : UserCost;
  costs_per_hour : UserCost;
  costs_per_km : UserCost
}.

(** Modelled from the spec: classes [ForcedService] and [VehicleStep] are
    missing from the sources.  A forced step has a type, an id unless it is
    a start or an end, and optional [service_at], [service_after] and
    [service_before] (spec, section 6); [VehicleStep] has one constructor
    for each of the three [VehicleStep] constructors the parser calls. *)
Record ForcedService : Type := {
  service_at : option UserDuration;
  service_after : option UserDuration;
  service_before : option UserDuration
}.

Inductive VehicleStep : Type :=
| VehicleStep_type (type : STEP_TYPE) (forced_service : ForcedService)
| VehicleStep_job (job_type : JOB_TYPE) (id : Id)
                  (forced_service : ForcedService)
| VehicleStep_id (type : STEP_TYPE) (id : Id)
                 (forced_service : ForcedService).

(** Modelled from the spec: class [Vehicle] is missing from the sources.  A
    vehicle carries the data of spec section 3, which are the arguments
    [get_vehicle] hands to the constructor, in that order. *)
Record Vehicle : Type := {
  vehicle_id : Id;
  vehicle_start : option Location;
  vehicle_end : option Location;
  vehicle_profile : string;
  vehicle_capacity : Amount;
  vehicle_skills : Skills;
  vehicle_tw : TimeWindow;
  vehicle_breaks : list Break;
  vehicle_description : string;
  vehicle_costs : VehicleCosts;
  vehicle_speed_factor : double;
  vehicle_service_type : option string;
  vehicle_max_tasks : option MaxTasks;
  vehicle_max_travel_time : option UserDuration;
  vehicle_max_distance : option UserDistance;
  vehicle_steps : list VehicleStep
}.

(** Modelled from the spec: class [Job] is missing from the sources.  A
    task carries the data of spec section 3, which are the arguments the
    parser hands to the two [Job] constructors it calls: the one of single
    jobs takes a delivery and a pickup amount and no kind, the other takes
    a [JOB_TYPE] and the one amount of the shipment (spec, section 6).  How
    that amount is stored is not visible, so [JobAmounts] keeps what the
    constructor received. *)
Inductive JobAmounts : Type :=
| DeliveryPickup (delivery pickup : Amount)
| ShipmentAmount (amount : Amount).

Record Job : Type := {
  job_id : Id;
  job_type : JOB_TYPE;
  job_location : Location;
  job_setup : UserDuration;
  job_service : UserDuration;
  job_service_per_vehicle_type : UserDurationMap;
  job_amounts : JobAmounts;
  job_skills : Skills;
  job_priority : Priority;
  job_tws : list TimeWindow;
  job_description : string
}.

(** Modelled from the spec: class [Input] (structures/vroom/input/input.h)
    is missing from the sources.  It is the store ingestion fills: the
    amount dimensionality fixed for the run, the vehicles and tasks in the
    order they were added, and the matrices of each profile (spec,
    sections 3, 4.1 and 6).  Each method records its argument; checks made
    inside [Input] are not modelled. *)
Record Input : Type := {
  amount_size : nat;
  geometry : bool;
  vehicles : list Vehicle;
  jobs : list Job;
  shipments : list (Job * Job);
  durations_matrices : gmap string Matrix;
  distances_matrices : gmap string Matrix;
  costs_matrices : gmap string Matrix
}.

Definition set_amount_size (n : nat) (input : Input) : Input :=
  {| amount_size := n; geometry := geometry input;
     vehicles := vehicles input; jobs := jobs input;
     shipments := shipments input;
     durations_matrices := durations_matrices input;
     distances_matrices := distances_matrices input;
     costs_matrices := costs_matrices input |}.

Definition set_geometry (g : bool) (input : Input) : Input :=
  {| amount_size := amount_size input; geometry := g;
     vehicles := vehicles input; jobs := jobs input;
     shipments := shipments input;
     durations_matrices := durations_matrices input;
     distances_matrices := distances_matrices input;
     costs_matrices := costs_matrices input |}.

Definition add_vehicle (v : Vehicle) (input : Input) : Input :=
  {| amount_size := amount_size input; geometry := geometry input;
     vehicles := vehicles input ++ [v]; jobs := jobs input;
     shipments := shipments input;
     durations_matrices := durations_matrices input;
     distances_matrices := distances_matrices input;
     costs_matrices := costs_matrices input |}.

Definition add_job (j : Job) (input : Input) : Input :=
  {| amount_size := amount_size input; geometry := geometry input;
     vehicles := vehicles input; jobs := jobs input ++ [j];
     shipments := shipments input;
     durations_matrices := durations_matrices input;
     distances_matrices := distances_matrices input;
     costs_matrices := costs_matrices input |}.

Definition add_shipment (pickup delivery : Job) (input : Input) : Input :=
  {| amount_size := amount_size input; geometry := geometry input;
     vehicles := vehicles input; jobs := jobs input;
     shipments := shipments input ++ [(pickup, delivery)];
     durations_matrices := durations_matrices input;
     distances_matrices := distances_matrices input;
     costs_matrices := costs_matrices input |}.

Definition set_durations_matrix (profile : string) (m : Matrix)
    (input : Input) : Input :=
  {| amount_size := amount_size input; geometry := geometry input;
     vehicles := vehicles input; jobs := jobs input;
     shipments := shipments input;
     durations_matrices := <[profile := m]> (durations_matrices input);
     distances_matrices := distances_matrices input;
     costs_matrices := costs_matrices input |}.

Definition set_distances_matrix (profile : string) (m : Matrix)
    (input : Input) : Input :=
  {| amount_size := amount_size input; geometry := geometry input;
     vehicles := vehicles input; jobs := jobs input;
     shipments := shipments input;
     durations_matrices := durations_matrices input;
     distances_matrices := <[profile := m]> (distances_matrices input);
     costs_matrices := costs_matrices input |}.

Definition set_costs_matrix (profile : string) (m : Matrix)
    (input : Input) : Input :=
  {| amount_size := amount_size input; geometry := geometry input;
     vehicles := vehicles input; jobs := jobs input;
     shipments := shipments input;
     durations_matrices := durations_matrices input;
     distances_matrices := distances_matrices input;
     costs_matrices := <[profile := m]> (costs_matrices input) |}.

(* ===================================================================== *)
(** * input_parser.cpp: helpers *)

Definition parse_coordinates (object : Value) (key : string)
  : result Coordinates :=
  if negb (IsArray object.[key]) || (Size object.[key] <? 2)%nat ||
     negb (IsNumber (element object.[key] 0)) ||
     negb (IsNumber (element object.[key] 1))
  then throw (InputException ("Invalid " +:+ key +:+ " array."))
  else Ok {| lon := GetDouble (element object.[key] 0);
             lat := GetDouble (element object.[key] 1) |}.

Definition get_string (object : Value) (key : string) : result string :=
  if HasMember object key then
    if negb (IsString object.[key])
    then throw (InputException ("Invalid " +:+ key +:+ " value."))
    else Ok (std_string (GetString object.[key]))
  else Ok "".

Definition get_optional_string (object : Value) (key : string)
  : result (option string) :=
  if HasMember object key then
    if negb (IsString object.[key])
    then throw (InputException ("Invalid " +:+ key +:+ " value."))
    else Ok (Some (std_string (GetString object.[key])))
  else Ok None.

Definition get_double (object : Value) (key : string) : result double :=
  if HasMember object key then
    if negb (IsNumber object.[key])
    then throw (InputException ("Invalid " +:+ key +:+ " value."))
    else Ok (GetDouble object.[key])
  else Ok (NumInt 1).

(** The [for] loop of [get_amount]: [amount[i] = object[key][i].GetUint()]
    for the elements from index [i] on. *)
Fixpoint get_amount_loop (key : string) (elements : list Value) (i : nat)
    (amount : Amount) : result Amount :=
  match elements with
  | [] => Ok amount
  | e :: rest =>
      if negb (IsUint e)
      then throw (InputException ("Invalid " +:+ key +:+ " value."))
      else get_amount_loop key rest (S i) (<[i := GetUint e]> amount)
  end.

Definition get_amount (object : Value) (key : string) (amount_size : nat)
  : result Amount :=
  (* Default to zero amount with provided size. *)
  let amount := Amount_zero amount_size in
  if HasMember object key then
    if negb (IsArray object.[key])
    then throw (InputException ("Invalid " +:+ key +:+ " array."))
    else if negb (Size object.[key] =? amount_size)%nat
    then throw (InputException
                  ("Inconsistent " +:+ key +:+ " length: " +:+
                   to_string (Z.of_nat (Size object.[key])) +:+ " and " +:+
                   to_string (Z.of_nat amount_size) +:+ "."))
    else get_amount_loop key (GetArray object.[key]) 0 amount
  else Ok amount.

Definition get_skills (object : Value) : result Skills :=
  if HasMember object "skills" then
    if negb (IsArray object.["skills"])
    then throw (InputException "Invalid skills object.")
    else for_each
           (fun (skills : Skills) e =>
              if negb (IsUint e)
              then throw (InputException "Invalid skill value.")
              else Ok ({[GetUint e]} ∪ skills))
           ∅ (GetArray object.["skills"])
  else Ok ∅.

Definition get_duration (object : Value) (key : string)
  : result UserDuration :=
  if HasMember object key then
    if negb (IsUint object.[key])
    then throw (InputException ("Invalid " +:+ key +:+ " duration."))
    else Ok (GetUint object.[key])
  else Ok 0.

Definition get_duration_map (object : Value) (key : string)
  : result UserDurationMap :=
  if negb (HasMember object key) then Ok ∅
  else if negb (IsObject object.[key])
  then throw (runtime_error ("Invalid " +:+ key +:+ " duration."))
  else for_each
         (fun (durations : UserDurationMap) (m : string * Value) =>
            if negb (IsUint m.2)
            then throw (runtime_error ("Invalid " +:+ key +:+ " duration."))
            else Ok (<[std_string m.1 := GetUint m.2]> durations))
         ∅ (GetObject object.[key]).

Definition get_priority (object : Value) : result Priority :=
  if HasMember object "priority" then
    if negb (IsUint object.["priority"])
    then throw (InputException "Invalid priority value.")
    else Ok (GetUint object.["priority"])
  else Ok 0.

Definition get_value_for (object : Value) (key : string)
  : result (option Z) :=
  if HasMember object key then
    if negb (IsUint object.[key])
    then throw (InputException ("Invalid " +:+ key +:+ " value."))
    else Ok (Some (GetUint object.[key]))
  else Ok None.

Definition check_id (v : Value) (type : string) : result unit :=
  if negb (IsObject v)
  then throw (InputException ("Invalid " +:+ type +:+ "."))
  else if negb (HasMember v "id") || negb (IsUint64 v.["id"])
  then throw (InputException ("Invalid or missing id for " +:+ type +:+ "."))
  else Ok tt.

Definition check_shipment (v : Value) : result unit :=
  if negb (IsObject v)
  then throw (InputException "Invalid shipment.")
  else if negb (HasMember v "pickup") || negb (IsObject v.["pickup"])
  then throw (InputException "Missing pickup for shipment.")
  else if negb (HasMember v "delivery") || negb (IsObject v.["delivery"])
  then throw (InputException "Missing delivery for shipment.")
  else Ok tt.

Definition check_location (v : Value) (type : string) : result unit :=
  if negb (HasMember v "location") || negb (IsArray v.["location"])
  then throw (InputException ("Invalid location for " +:+ type +:+ " " +:+
                              to_string (GetUint64 v.["id"]) +:+ "."))
  else Ok tt.

Definition get_time_window (tw : Value) : result TimeWindow :=
  if negb (IsArray tw) || (Size tw <? 2)%nat ||
     negb (IsUint (element tw 0)) || negb (IsUint (element tw 1))
  then throw (InputException "Invalid time-window.")
  else TimeWindow_make (GetUint (element tw 0)) (GetUint (element tw 1)).

Definition get_vehicle_time_window (v : Value) : result TimeWindow :=
  if HasMember v "time_window"
  then get_time_window v.["time_window"]
  else Ok TimeWindow_default.

(** [o["id"].GetUint64()] in the error message is reached from [parse]
    before the id of a vehicle has been checked, hence the assertion. *)
Definition get_time_windows (o : Value) : result (list TimeWindow) :=
  if HasMember o "time_windows" then
    if negb (IsArray o.["time_windows"]) || Empty o.["time_windows"]
    then
      assert (IsUint64 o.["id"]);;
      throw (InputException ("Invalid time_windows array for object " +:+
                             to_string (GetUint64 o.["id"]) +:+ "."))
    else
      tws ← mapM get_time_window (GetArray o.["time_windows"]);
      Ok (std_sort TimeWindow_lt tws)
  else Ok [TimeWindow_default].

Definition get_break (b : Value) (amount_size : nat) : result Break :=
  check_id b "break";;
  max_load ← (if HasMember b "max_load"
              then a ← get_amount b "max_load" amount_size; Ok (Some a)
              else Ok None);
  tws ← get_time_windows b;
  service ← get_duration b "service";
  description ← get_string b "description";
  Ok {| break_id := GetUint64 b.["id"];
        break_tws := tws;
        break_service := service;
        break_description := description;
        break_max_load := max_load |}.

(** [b.tws[0]]; [get_time_windows] never returns an empty vector. *)
Definition break_tws0 (b : Break) : TimeWindow :=
  default TimeWindow_default (head (break_tws b)).

(** The comparator of [get_vehicle_breaks]. *)
Definition break_before (a b : Break) : Prop :=
  tw_start (break_tws0 a) < tw_start (break_tws0 b) \/
  (tw_start (break_tws0 a) = tw_start (break_tws0 b) /\
   tw_end (break_tws0 a) < tw_end (break_tws0 b)).

#[global] Instance break_before_dec : RelDecision break_before.
Proof. intros a b. unfold break_before. apply _. Defined.

Definition get_vehicle_breaks (v : Value) (amount_size : nat)
  : result (list Break) :=
  breaks ← (if HasMember v "breaks" then
              if negb (IsArray v.["breaks"])
              then throw (InputException ("Invalid breaks for vehicle " +:+
                                          to_string (GetUint64 v.["id"]) +:+
                                          "."))
              else mapM (fun b => get_break b amount_size)
                        (GetArray v.["breaks"])
            else Ok []);
  Ok (std_sort break_before breaks).

Definition get_vehicle_costs (v : Value) : result VehicleCosts :=
  if HasMember v "costs" then
    if negb (IsObject v.["costs"])
    then throw (InputException ("Invalid costs for vehicle " +:+
                                to_string (GetUint64 v.["id"]) +:+ "."))
    else
      fixed ← (if HasMember v.["costs"] "fixed" then
                 if negb (IsUint v.["costs"].["fixed"])
                 then throw (InputException
                               ("Invalid fixed cost for vehicle " +:+
                                to_string (GetUint64 v.["id"]) +:+ "."))
                 else Ok (GetUint v.["costs"].["fixed"])
               else Ok 0);
      per_hour ← (if HasMember v.["costs"] "per_hour" then
                    if negb (IsUint v.["costs"].["per_hour"])
                    then throw (InputException
                                  ("Invalid per_hour cost for vehicle " +:+
                                   to_string (GetUint64 v.["id"]) +:+ "."))
                    else Ok (GetUint v.["costs"].["per_hour"])
                  else Ok DEFAULT_COST_PER_HOUR);
      per_km ← (if HasMember v.["costs"] "per_km" then
                  if negb (IsUint v.["costs"].["per_km"])
                  then throw (InputException
                                ("Invalid per_km cost for vehicle " +:+
                                 to_string (GetUint64 v.["id"]) +:+ "."))
                  else Ok (GetUint v.["costs"].["per_km"])
                else Ok DEFAULT_COST_PER_KM);
      Ok {| costs_fixed := fixed; costs_per_hour := per_hour;
            costs_per_km := per_km |}
  else Ok {| costs_fixed := 0; costs_per_hour := DEFAULT_COST_PER_HOUR;
             costs_per_km := DEFAULT_COST_PER_KM |}.

(** The body of the loop of [get_vehicle_steps]: the step pushed for
    [json_step].  [json_step] is not checked to be an object before
    [HasMember] is called on it, hence the assertion. *)
Definition get_vehicle_step (v json_step : Value) : result VehicleStep :=
  assert (IsObject json_step);;
  at_ ← (if HasMember json_step "service_at" then
           if negb (IsUint json_step.["service_at"])
           then throw (InputException "Invalid service_at value.")
           else Ok (Some (GetUint json_step.["service_at"]))
         else Ok None);
  after ← (if HasMember json_step "service_after" then
             if negb (IsUint json_step.["service_after"])
             then throw (InputException "Invalid service_after value.")
             else Ok (Some (GetUint json_step.["service_after"]))
           else Ok None);
  before ← (if HasMember json_step "service_before" then
              if negb (IsUint json_step.["service_before"])
              then throw (InputException "Invalid service_before value.")
              else Ok (Some (GetUint json_step.["service_before"]))
            else Ok None);
  let forced_service :=
    {| service_at := at_; service_after := after;
       service_before := before |} in
  type_str ← get_string json_step "type";
  if String.eqb type_str "start"
  then Ok (VehicleStep_type START forced_service)
  else if String.eqb type_str "end"
  then Ok (VehicleStep_type END forced_service)
  else if negb (HasMember json_step "id") || negb (IsUint64 json_step.["id"])
  then throw (InputException ("Invalid id in steps for vehicle " +:+
                              to_string (GetUint64 v.["id"]) +:+ "."))
  else if String.eqb type_str "job"
  then Ok (VehicleStep_job SINGLE (GetUint64 json_step.["id"]) forced_service)
  else if String.eqb type_str "pickup"
  then Ok (VehicleStep_job PICKUP (GetUint64 json_step.["id"]) forced_service)
  else if String.eqb type_str "delivery"
  then Ok (VehicleStep_job DELIVERY (GetUint64 json_step.["id"])
                           forced_service)
  else if String.eqb type_str "break"
  then Ok (VehicleStep_id BREAK (GetUint64 json_step.["id"]) forced_service)
  else throw (InputException ("Invalid type in steps for vehicle " +:+
                              to_string (GetUint64 v.["id"]) +:+ ".")).

Definition get_vehicle_steps (v : Value) : result (list VehicleStep) :=
  if HasMember v "steps" then
    if negb (IsArray v.["steps"])
    then throw (InputException ("Invalid steps for vehicle " +:+
                                to_string (GetUint64 v.["id"]) +:+ "."))
    else mapM (get_vehicle_step v) (GetArray v.["steps"])
  else Ok [].

Definition get_vehicle (json_vehicle : Value) (amount_size : nat)
    (tw : TimeWindow) : result Vehicle :=
  check_id json_vehicle "vehicle";;
  let v_id := GetUint64 json_vehicle.["id"] in
  (* Check what info are available for vehicle start, then build
     optional start location. *)
  let has_start_coords := HasMember json_vehicle "start" in
  let has_start_index := HasMember json_vehicle "start_index" in
  if has_start_index && negb (IsUint json_vehicle.["start_index"])
  then throw (InputException ("Invalid start_index for vehicle " +:+
                              to_string v_id +:+ "."))
  else
  start ← (if has_start_index then
             let start_index := uint16_t (GetUint json_vehicle.["start_index"]) in
             if has_start_coords then
               c ← parse_coordinates json_vehicle "start";
               Ok (Some (Location_index_coords start_index c))
             else Ok (Some (Location_index start_index))
           else if has_start_coords then
             c ← parse_coordinates json_vehicle "start";
             Ok (Some (Location_coords c))
           else Ok None);
  (* Check what info are available for vehicle end, then build
     optional end location. *)
  let has_end_coords := HasMember json_vehicle "end" in
  let has_end_index := HasMember json_vehicle "end_index" in
  if has_end_index && negb (IsUint json_vehicle.["end_index"])
  then throw (InputException ("Invalid end_index for vehicle" +:+
                              to_string v_id +:+ "."))
  else
  end_ ← (if has_end_index then
            let end_index := uint16_t (GetUint json_vehicle.["end_index"]) in
            if has_end_coords then
              c ← parse_coordinates json_vehicle "end";
              Ok (Some (Location_index_coords end_index c))
            else Ok (Some (Location_index end_index))
          else if has_end_coords then
            c ← parse_coordinates json_vehicle "end";
            Ok (Some (Location_coords c))
          else Ok None);
  profile ← get_string json_vehicle "profile";
  let profile := if String.eqb profile "" then DEFAULT_PROFILE else profile in
  capacity ← get_amount json_vehicle "capacity" amount_size;
  skills ← get_skills json_vehicle;
  breaks ← get_vehicle_breaks json_vehicle amount_size;
  description ← get_string json_vehicle "description";
  costs ← get_vehicle_costs json_vehicle;
  speed_factor ← get_double json_vehicle "speed_factor";
  service_type ← get_optional_string json_vehicle "service_type";
  max_tasks ← get_value_for json_vehicle "max_tasks";
  max_travel_time ← get_value_for json_vehicle "max_travel_time";
  max_distance ← get_value_for json_vehicle "max_distance";
  steps ← get_vehicle_steps json_vehicle;
  Ok {| vehicle_id := v_id;
        vehicle_start := start;
        vehicle_end := end_;
        vehicle_profile := profile;
        vehicle_capacity := capacity;
        vehicle_skills := skills;
        vehicle_tw := tw;
        vehicle_breaks := breaks;
        vehicle_description := description;
        vehicle_costs := costs;
        vehicle_speed_factor := speed_factor;
        vehicle_service_type := service_type;
        vehicle_max_tasks := max_tasks;
        vehicle_max_travel_time := max_travel_time;
        vehicle_max_distance := max_distance;
        vehicle_steps := steps |}.

Definition get_task_location (v : Value) (type : string) : result Location :=
  (* Check what info are available to build task location. *)
  let has_location_coords := HasMember v "location" in
  let has_location_index := HasMember v "location_index" in
  if has_location_index && negb (IsUint v.["location_index"])
  then throw (InputException ("Invalid location_index for " +:+ type +:+
                              " " +:+ to_string (GetUint64 v.["id"]) +:+ "."))
  else if has_location_index then
    (* Custom provided matrices and index. *)
    let location_index := uint16_t (GetUint v.["location_index"]) in
    if has_location_coords then
      c ← parse_coordinates v "location";
      Ok (Location_index_coords location_index c)
    else Ok (Location_index location_index)
  else
    check_location v type;;
    c ← parse_coordinates v "location";
    Ok (Location_coords c).

(** Only for retro-compatibility: when no pickup and delivery keys are
    defined and (deprecated) amount key is present, it should be
    interpreted as a delivery. *)
Definition need_amount_compat (json_job : Value) : bool :=
  HasMember json_job "amount" && negb (HasMember json_job "delivery") &&
  negb (HasMember json_job "pickup").

Definition get_job (json_job : Value) (amount_size : nat) : result Job :=
  check_id json_job "job";;
  let need_amount_compat := need_amount_compat json_job in
  location ← get_task_location json_job "job";
  setup ← get_duration json_job "setup";
  service ← get_duration json_job "service";
  service_per_vehicle_type ←
    get_duration_map json_job "service_per_vehicle_type";
  delivery ← (if need_amount_compat
              then get_amount json_job "amount" amount_size
              else get_amount json_job "delivery" amount_size);
  pickup ← get_amount json_job "pickup" amount_size;
  skills ← get_skills json_job;
  priority ← get_priority json_job;
  tws ← get_time_windows json_job;
  description ← get_string json_job "description";
  Ok {| job_id := GetUint64 json_job.["id"];
        job_type := SINGLE;
        job_location := location;
        job_setup := setup;
        job_service := service;
        job_service_per_vehicle_type := service_per_vehicle_type;
        job_amounts := DeliveryPickup delivery pickup;
        job_skills := skills;
        job_priority := priority;
        job_tws := tws;
        job_description := description |}.

Definition get_matrix (m : Value) : result Matrix :=
  if negb (IsArray m) then throw (InputException "Invalid matrix.")
  else
    (* Load custom matrix while checking if it is square. *)
    let matrix_size := Size m in
    mapM (fun mi =>
            if negb (IsArray mi) || negb (Size mi =? matrix_size)%nat
            then throw (InputException "Unexpected matrix line length.")
            else mapM (fun e =>
                         if negb (IsUint e)
                         then throw (InputException "Invalid matrix entry.")
                         else Ok (GetUint e))
                      (GetArray mi))
         (GetArray m).

(* ===================================================================== *)
(** * input_parser.cpp: parse *)

Definition has_jobs (json_input : Value) : bool :=
  HasMember json_input "jobs" && IsArray json_input.["jobs"] &&
  negb (Empty json_input.["jobs"]).

Definition has_shipments (json_input : Value) : bool :=
  HasMember json_input "shipments" && IsArray json_input.["shipments"] &&
  negb (Empty json_input.["shipments"]).

Definition first_vehicle_has_capacity (first_vehicle : Value) : bool :=
  HasMember first_vehicle "capacity" && IsArray first_vehicle.["capacity"] &&
  (0 <? Size first_vehicle.["capacity"])%nat.

Definition first_vehicle_amount_size (first_vehicle : Value) : nat :=
  if first_vehicle_has_capacity first_vehicle
  then Size first_vehicle.["capacity"]
  else 0%nat.

(** The body of the loop "Add all vehicles".  [json_vehicle] is not
    checked to be an object before [HasMember] is called on it, hence the
    assertion. *)
Definition parse_vehicle (amount_size : nat) (input : Input)
    (json_vehicle : Value) : result Input :=
  assert (IsObject json_vehicle);;
  if negb (HasMember json_vehicle "time_windows") then
    tw ← get_vehicle_time_window json_vehicle;
    vehicle ← get_vehicle json_vehicle amount_size tw;
    Ok (add_vehicle vehicle input)
  else
    timeWindows ← get_time_windows json_vehicle;
    check_id json_vehicle "vehicle";;
    let v_id := GetUint64 json_vehicle.["id"] in
    check_tws timeWindows v_id "vehicle";;
    for_each (fun input tw =>
                vehicle ← get_vehicle json_vehicle amount_size tw;
                Ok (add_vehicle vehicle input))
             input timeWindows.

(** The body of the loop "Add the jobs". *)
Definition parse_job (amount_size : nat) (input : Input) (json_job : Value)
  : result Input :=
  job ← get_job json_job amount_size;
  Ok (add_job job input).

(** The body of the loop "Add the shipments". *)
Definition parse_shipment (amount_size : nat) (input : Input)
    (json_shipment : Value) : result Input :=
  check_shipment json_shipment;;
  (* Retrieve common stuff for both pickup and delivery. *)
  amount ← get_amount json_shipment "amount" amount_size;
  skills ← get_skills json_shipment;
  priority ← get_priority json_shipment;
  (* Defining pickup job. *)
  let json_pickup := json_shipment.["pickup"] in
  check_id json_pickup "pickup";;
  p_location ← get_task_location json_pickup "pickup";
  p_setup ← get_duration json_pickup "setup";
  p_service ← get_duration json_pickup "service";
  p_service_per_vehicle_type ←
    get_duration_map json_pickup "service_per_vehicle_type";
  p_tws ← get_time_windows json_pickup;
  p_description ← get_string json_pickup "description";
  let pickup :=
    {| job_id := GetUint64 json_pickup.["id"];
       job_type := PICKUP;
       job_location := p_location;
       job_setup := p_setup;
       job_service := p_service;
       job_service_per_vehicle_type := p_service_per_vehicle_type;
       job_amounts := ShipmentAmount amount;
       job_skills := skills;
       job_priority := priority;
       job_tws := p_tws;
       job_description := p_description |} in
  (* Defining delivery job. *)
  let json_delivery := json_shipment.["delivery"] in
  check_id json_delivery "delivery";;
  d_location ← get_task_location json_delivery "delivery";
  d_setup ← get_duration json_delivery "setup";
  d_service ← get_duration json_delivery "service";
  d_service_per_vehicle_type ←
    get_duration_map json_delivery "service_per_vehicle_type";
  d_tws ← get_time_windows json_delivery;
  d_description ← get_string json_delivery "description";
  let delivery :=
    {| job_id := GetUint64 json_delivery.["id"];
       job_type := DELIVERY;
       job_location := d_location;
       job_setup := d_setup;
       job_service := d_service;
       job_service_per_vehicle_type := d_service_per_vehicle_type;
       job_amounts := ShipmentAmount amount;
       job_skills := skills;
       job_priority := priority;
       job_tws := d_tws;
       job_description := d_description |} in
  Ok (add_shipment pickup delivery input).

(** The body of the loop over the members of [matrices]. *)
Definition parse_matrices_entry (input : Input)
    (profile_entry : string * Value) : result Input :=
  let name := std_string profile_entry.1 in
  let value := profile_entry.2 in
  if IsObject value then
    input ← (if HasMember value "durations" then
               m ← get_matrix value.["durations"];
               Ok (set_durations_matrix name m input)
             else Ok input);
    input ← (if HasMember value "distances" then
               m ← get_matrix value.["distances"];
               Ok (set_distances_matrix name m input)
             else Ok input);
    if HasMember value "costs" then
      m ← get_matrix value.["costs"];
      Ok (set_costs_matrix name m input)
    else Ok input
  else Ok input.

(** The statements of [parse] from the main checks to the end of "Add all
    tasks".  The root is not checked to be an object before [HasMember] is
    called on it, hence the assertion. *)
Definition parse_tasks (input : Input) (json_input : Value) (geometry : bool)
  : result Input :=
  assert (IsObject json_input);;
  (* Main checks for valid json input. *)
  if negb (has_jobs json_input) && negb (has_shipments json_input)
  then throw (InputException "Invalid jobs or shipments.")
  else if negb (HasMember json_input "vehicles") ||
          negb (IsArray json_input.["vehicles"]) ||
          Empty json_input.["vehicles"]
  then throw (InputException "Invalid vehicles.")
  else
    let first_vehicle := element json_input.["vehicles"] 0 in
    check_id first_vehicle "vehicle";;
    let amount_size := first_vehicle_amount_size first_vehicle in
    let input := set_amount_size amount_size input in
    let input := set_geometry geometry input in
    (* Add all vehicles. *)
    input ← for_each (parse_vehicle amount_size) input
                     (GetArray json_input.["vehicles"]);
    (* Add all tasks. *)
    input ← (if has_jobs json_input
             then for_each (parse_job amount_size) input
                           (GetArray json_input.["jobs"])
             else Ok input);
    if has_shipments json_input
    then for_each (parse_shipment amount_size) input
                  (GetArray json_input.["shipments"])
    else Ok input.

(** The last statement of [parse]: [matrices], or else the deprecated
    [matrix] key. *)
Definition parse_matrices (input : Input) (json_input : Value)
  : result Input :=
  if HasMember json_input "matrices" then
    if negb (IsObject json_input.["matrices"])
    then throw (InputException "Unexpected matrices value.")
    else for_each parse_matrices_entry input
                  (GetObject json_input.["matrices"])
  else
    (* Deprecated `matrix` key still interpreted as
       `matrices.DEFAULT_PROFILE.duration` for retro-compatibility. *)
    if HasMember json_input "matrix" then
      m ← get_matrix json_input.["matrix"];
      Ok (set_durations_matrix DEFAULT_PROFILE m input)
    else Ok input.

(** [parse] after the text has gone through [Document::Parse], whose
    outcome is the argument [parsed]. *)
Definition parse (input : Input) (parsed : ParseResult) (geometry : bool)
  : result Input :=
  match parsed with
  | HasParseError msg offset =>
      throw (InputException (msg +:+ " (offset: " +:+ to_string offset +:+
                             ")"))
  | Document json_input =>
      input ← parse_tasks input json_input geometry;
      parse_matrices input json_input
  end.

(* ===================================================================== *)
(** * Vocabulary of the statements *)

(** Two JSON values that differ at most in their members named [key]. *)
Definition same_but (key : string) (a b : Value) : Prop :=
  match a, b with
  | kObject ms, kObject ms' =>
      forall k, k <> key -> FindMember ms k = FindMember ms' k
  | _, _ => a = b
  end.

(** The member list with its first member named [key] replaced by [new]. *)
Fixpoint replace_first (key : string) (new : string * Value)
    (ms : list (string * Value)) : list (string * Value) :=
  match ms with
  | [] => []
  | (name, v) :: rest =>
      if String.eqb name key then new :: rest
      else (name, v) :: replace_first key new rest
  end.

(** The member list without its members named [key]. *)
Definition remove_members (key : string) (ms : list (string * Value))
  : list (string * Value) :=
  filter (fun m => m.1 <> key) ms.

(** The member ["matrices": {"car": {"durations": M}}]. *)
Definition matrices_car_durations (M : Value) : string * Value :=
  ("matrices", kObject [("car", kObject [("durations", M)])]).

(** The vehicle [v] with its time window set to [tw]. *)
Definition with_tw (tw : TimeWindow) (v : Vehicle) : Vehicle :=
  {| vehicle_id := vehicle_id v;
     vehicle_start := vehicle_start v;
     vehicle_end := vehicle_end v;
     vehicle_profile := vehicle_profile v;
     vehicle_capacity := vehicle_capacity v;
     vehicle_skills := vehicle_skills v;
     vehicle_tw := tw;
     vehicle_breaks := vehicle_breaks v;
     vehicle_description := vehicle_description v;
     vehicle_costs := vehicle_costs v;
     vehicle_speed_factor := vehicle_speed_factor v;
     vehicle_service_type := vehicle_service_type v;
     vehicle_max_tasks := vehicle_max_tasks v;
     vehicle_max_travel_time := vehicle_max_travel_time v;
     vehicle_max_distance := vehicle_max_distance v;
     vehicle_steps := vehicle_steps v |}.

(** Successive calls of [add_vehicle]. *)
Definition add_vehicles (vs : list Vehicle) (input : Input) : Input :=
  foldl (fun input v => add_vehicle v input) input vs.

(** The vehicles [parse] adds for the vehicle object [json_vehicle]. *)
Definition vehicle_added (amount_size : nat) (json_vehicle : Value)
    (vs : list Vehicle) : Prop :=
  if HasMember json_vehicle "time_windows" then
    exists tws,
      get_time_windows json_vehicle = Ok tws /\
      Forall2 (fun tw v => get_vehicle json_vehicle amount_size tw = Ok v)
              tws vs
  else
    exists tw v,
      get_vehicle_time_window json_vehicle = Ok tw /\
      get_vehicle json_vehicle amount_size tw = Ok v /\
      vs = [v].

(** What C2 says of the vehicles [vs] added for one vehicle object: they
    all carry its id; with a [time_windows] key of [n] windows there are
    [n] of them, one per window (in sorted order), equal in every other
    field; without that key there is one, carrying the [time_window] of
    the object or the default window. *)
Definition vehicle_expansion (json_vehicle : Value) (vs : list Vehicle)
  : Prop :=
  Forall (fun v => vehicle_id v = GetUint64 json_vehicle.["id"]) vs /\
  if HasMember json_vehicle "time_windows" then
    exists tws v0,
      mapM get_time_window (GetArray json_vehicle.["time_windows"]) = Ok tws /\
      length vs = Size json_vehicle.["time_windows"] /\
      vs = (fun tw => with_tw tw v0) <$> std_sort TimeWindow_lt tws
  else
    exists v,
      vs = [v] /\
      if HasMember json_vehicle "time_window"
      then get_time_window json_vehicle.["time_window"] = Ok (vehicle_tw v)
      else vehicle_tw v = TimeWindow_default.

(** The fields of a pickup or delivery job that are read from the task
    object itself. *)
Definition task_fields (type : string) (json_task : Value) (job : Job)
  : Prop :=
  job_id job = GetUint64 json_task.["id"] /\
  get_task_location json_task type = Ok (job_location job) /\
  get_duration json_task "setup" = Ok (job_setup job) /\
  get_duration json_task "service" = Ok (job_service job) /\
  get_duration_map json_task "service_per_vehicle_type"
    = Ok (job_service_per_vehicle_type job) /\
  get_time_windows json_task = Ok (job_tws job) /\
  get_string json_task "description" = Ok (job_description job).

(** The fields of a pickup or delivery job that are read from the
    shipment object. *)
Definition shipment_fields (amount_size : nat) (json_shipment : Value)
    (job : Job) : Prop :=
  (exists amount,
     get_amount json_shipment "amount" amount_size = Ok amount /\
     job_amounts job = ShipmentAmount amount) /\
  get_skills json_shipment = Ok (job_skills job) /\
  get_priority json_shipment = Ok (job_priority job).

(** The pair of jobs [parse] adds for the shipment object. *)
Definition shipment_added (amount_size : nat) (json_shipment : Value)
    (pd : Job * Job) : Prop :=
  check_shipment json_shipment = Ok tt /\
  check_id json_shipment.["pickup"] "pickup" = Ok tt /\
  check_id json_shipment.["delivery"] "delivery" = Ok tt /\
  job_type pd.1 = PICKUP /\ job_type pd.2 = DELIVERY /\
  shipment_fields amount_size json_shipment pd.1 /\
  shipment_fields amount_size json_shipment pd.2 /\
  task_fields "pickup" json_shipment.["pickup"] pd.1 /\
  task_fields "delivery" json_shipment.["delivery"] pd.2.

(** Two vehicle objects that are the same, or have a [time_windows] key
    and differ in their [time_window] members only. *)
Definition unread_time_window (v v' : Value) : Prop :=
  v = v' \/
  (HasMember v "time_windows" = true /\ same_but "time_window" v v').

(** A JSON time window [[s, e, ...]] whose start exceeds its end. *)
Definition start_exceeds_end (tw : Value) : Prop :=
  exists s e rest,
    tw = kArray (kNumber (NumInt s) :: kNumber (NumInt e) :: rest) /\ e < s.

(** The member [key] of [o], if there is one, is an array of
    [amount_size] elements. *)
Definition amount_of_size (amount_size : nat) (o : Value) (key : string)
  : Prop :=
  HasMember o key = true ->
  exists l, o.[key] = kArray l /\ length l = amount_size.

(** The object [o] has a [time_windows] array holding a window whose
    start exceeds its end. *)
Definition has_malformed_time_windows (o : Value) : Prop :=
  exists tw, tw ∈ GetArray o.["time_windows"] /\ start_exceeds_end tw.

(** The places where [parse] reads a time window, holding one whose start
    exceeds its end: the [time_windows] of a vehicle, the [time_window] of
    a vehicle without [time_windows], the [time_windows] of a break, of a
    job, of the pickup or of the delivery of a shipment. *)
Inductive reads_malformed_time_window (doc : Value) : Prop :=
| malformed_vehicle_time_windows v :
    v ∈ GetArray doc.["vehicles"] ->
    has_malformed_time_windows v ->
    reads_malformed_time_window doc
| malformed_vehicle_time_window v :
    v ∈ GetArray doc.["vehicles"] ->
    HasMember v "time_windows" = false ->
    start_exceeds_end v.["time_window"] ->
    reads_malformed_time_window doc
| malformed_break_time_windows v b :
    v ∈ GetArray doc.["vehicles"] ->
    b ∈ GetArray v.["breaks"] ->
    has_malformed_time_windows b ->
    reads_malformed_time_window doc
| malformed_job_time_windows j :
    j ∈ GetArray doc.["jobs"] ->
    has_malformed_time_windows j ->
    reads_malformed_time_window doc
| malformed_pickup_time_windows s :
    s ∈ GetArray doc.["shipments"] ->
    has_malformed_time_windows s.["pickup"] ->
    reads_malformed_time_window doc
| malformed_delivery_time_windows s :
    s ∈ GetArray doc.["shipments"] ->
    has_malformed_time_windows s.["delivery"] ->
    reads_malformed_time_window doc.

(** The member list has a member [key] whose first occurrence holds a
    nonempty array. *)
Definition nonempty_array_member (ms : list (string * Value)) (key : string)
  : Prop :=
  exists x l, FindMember ms key = Some (kArray (x :: l)).

(** The exceptions of the two main checks of [parse]. *)
Definition main_check_error (e : exception) : Prop :=
  e = InputException "Invalid jobs or shipments." \/
  e = InputException "Invalid vehicles.".

(** No message that starts with [prefix] is one of the main checks. *)
Definition safe_prefix (prefix : string) : Prop :=
  forall rest, ~ main_check_error (InputException (prefix +:+ rest)).

(* ===================================================================== *)
(** * Sample inputs *)

Definition num (z : Z) : Value := kNumber (NumInt z).
Definition uints (l : list Z) : Value := kArray (num <$> l).

Definition Input_empty : Input :=
  {| amount_size := 0; geometry := false;
     vehicles := []; jobs := []; shipments := [];
     durations_matrices := ∅; distances_matrices := ∅;
     costs_matrices := ∅ |}.

(** [{"id": 7, "location_index": 1, "amount": [1,2,3], "delivery": [5]}] *)
Definition sample_job_amount_and_delivery : Value :=
  kObject [("id", num 7); ("location_index", num 1);
           ("amount", uints [1; 2; 3]); ("delivery", uints [5])].

Definition sample_job_amount_and_delivery_parsed : Job :=
  {| job_id := 7;
     job_type := SINGLE;
     job_location := Location_index 1;
     job_setup := 0;
     job_service := 0;
     job_service_per_vehicle_type := ∅;
     job_amounts := DeliveryPickup [5] [0];
     job_skills := ∅;
     job_priority := 0;
     job_tws := [TimeWindow_default];
     job_description := "" |}.

(** [{"jobs": [{"id": 1, "location_index": 0}], "vehicles": [{"id": 1}],
      "matrix": [[0]], "matrices": {}}] *)
Definition sample_matrix_and_matrices : list (string * Value) :=
  [("jobs", kArray [kObject [("id", num 1); ("location_index", num 0)]]);
   ("vehicles", kArray [kObject [("id", num 1)]]);
   ("matrix", kArray [uints [0]]);
   ("matrices", kObject [])].

(** [{"jobs": [{"id": 1, "location_index": 0}], "vehicles": [{"id": 1}],
      "matrix": [[0, 3], [2, 0]]}] *)
Definition sample_matrix_only : list (string * Value) :=
  [("jobs", kArray [kObject [("id", num 1); ("location_index", num 0)]]);
   ("vehicles", kArray [kObject [("id", num 1)]]);
   ("matrix", kArray [uints [0; 3]; uints [2; 0]])].

(** [{"jobs": [{"id": 1, "location_index": 0}],
      "vehicles": [{"id": 4, "time_windows": [[50, 60], [0, 10]]},
                   {"id": 5, "time_window": [7, 9]},
                   {"id": 6}]}] *)
Definition sample_vehicles : Value :=
  kObject
    [("jobs", kArray [kObject [("id", num 1); ("location_index", num 0)]]);
     ("vehicles",
      kArray [kObject [("id", num 4);
                       ("time_windows", kArray [uints [50; 60];
                                                uints [0; 10]])];
              kObject [("id", num 5); ("time_window", uints [7; 9])];
              kObject [("id", num 6)]])].

Definition sample_vehicles_parsed : Input :=
  Eval vm_compute in
    match parse Input_empty (Document sample_vehicles) false with
    | Ok input => input
    | Throw _ => Input_empty
    end.

(** [{"vehicles": [{"id": 1, "capacity": [9]}],
      "shipments": [{"amount": [2], "skills": [3], "priority": 10,
                     "pickup": {"id": 11, "location_index": 0,
                                "service": 30},
                     "delivery": {"id": 12, "location_index": 1,
                                  "priority": 99}}]}] *)
Definition sample_shipment : Value :=
  kObject
    [("vehicles", kArray [kObject [("id", num 1); ("capacity", uints [9])]]);
     ("shipments",
      kArray [kObject [("amount", uints [2]); ("skills", uints [3]);
                       ("priority", num 10);
                       ("pickup", kObject [("id", num 11);
                                           ("location_index", num 0);
                                           ("service", num 30)]);
                       ("delivery", kObject [("id", num 12);
                                             ("location_index", num 1);
                                             ("priority", num 99)])]])].

Definition sample_shipment_parsed : Input :=
  Eval vm_compute in
    match parse Input_empty (Document sample_shipment) false with
    | Ok input => input
    | Throw _ => Input_empty
    end.

(** [{"vehicles": [{"id": 1, "capacity": [9],
                    "breaks": [{"id": 2, "max_load": [4]}, {"id": 3}]}],
      "jobs": [{"id": 7, "location_index": 1, "amount": [1,2,3],
                "delivery": [5]}],
      "shipments": [{"amount": [2],
                     "pickup": {"id": 11, "location_index": 0},
                     "delivery": {"id": 12, "location_index": 1}}]}] *)
Definition sample_amounts : Value :=
  kObject
    [("vehicles",
      kArray [kObject [("id", num 1); ("capacity", uints [9]);
                       ("breaks",
                        kArray [kObject [("id", num 2);
                                         ("max_load", uints [4])];
                                kObject [("id", num 3)]])]]);
     ("jobs", kArray [sample_job_amount_and_delivery]);
     ("shipments",
      kArray [kObject [("amount", uints [2]);
                       ("pickup", kObject [("id", num 11);
                                           ("location_index", num 0)]);
                       ("delivery", kObject [("id", num 12);
                                             ("location_index", num 1)])]])].

Definition sample_amounts_parsed : Input :=
  Eval vm_compute in
    match parse Input_empty (Document sample_amounts) false with
    | Ok input => input
    | Throw _ => Input_empty
    end.

(** [{"id": 1, "time_window": [5, 1], "time_windows": [[0, 10]]}] *)
Definition sample_vehicle_both_windows : Value :=
  kObject [("id", num 1); ("time_window", uints [5; 1]);
           ("time_windows", kArray [uints [0; 10]])].

(** [{"jobs": [{"id": 1, "location_index": 0}],
      "vehicles": [{"id": 1, "time_window": [5, 1],
                    "time_windows": [[0, 10]]}]}] *)
Definition sample_ignored_time_window : Value :=
  kObject
    [("jobs", kArray [kObject [("id", num 1); ("location_index", num 0)]]);
     ("vehicles", kArray [sample_vehicle_both_windows])].

(** [{"id": 7, "time_windows": [[0, 10], [30, 20]], "location_index": 0}] *)
Definition sample_job_malformed_window : Value :=
  kObject [("id", num 7);
           ("time_windows", kArray [uints [0; 10]; uints [30; 20]]);
           ("location_index", num 0)].

(** [{"jobs": [{"id": 7, "time_windows": [[0, 10], [30, 20]],
                "location_index": 0}],
      "vehicles": [{"id": 1}]}] *)
Definition sample_malformed_window : Value :=
  kObject
    [("jobs", kArray [sample_job_malformed_window]);
     ("vehicles", kArray [kObject [("id", num 1)]])].

(** [{"id": 7, "service": 30}] *)
Definition sample_job_without_location : Value :=
  kObject [("id", num 7); ("service", num 30)].

(** [{"jobs": [{"id": 7, "service": 30}], "vehicles": [{"id": 1}]}] *)
Definition sample_missing_location : Value :=
  kObject [("jobs", kArray [sample_job_without_location]);
           ("vehicles", kArray [kObject [("id", num 1)]])].

(** [{"jobs": [], "vehicles": [{"id": 1}]}] *)
Definition sample_no_tasks : list (string * Value) :=
  [("jobs", kArray []); ("vehicles", kArray [kObject [("id", num 1)]])].

(** [{"jobs": [{"id": 7, "service": 30}], "vehicles": {"id": 1}}] *)
Definition sample_vehicles_not_array : list (string * Value) :=
  [("jobs", kArray [sample_job_without_location]);
   ("vehicles", kObject [("id", num 1)])].

(** [{"id": 9, "location_index": 65537, "location": [2, 3]}] *)
Definition sample_job_index_and_location : Value :=
  kObject [("id", num 9); ("location_index", num 65537);
           ("location", kArray [num 2; num 3])].

(** [{"jobs": [{"id": 1, "location_index": 0,
                "service_per_vehicle_type": 5},
               {"id": 7, "service": 30}],
      "vehicles": [{"id": 1}]}] *)
Definition sample_location_error_preceded : Value :=
  kObject
    [("jobs", kArray [kObject [("id", num 1); ("location_index", num 0);
                               ("service_per_vehicle_type", num 5)];
                      sample_job_without_location]);
     ("vehicles", kArray [kObject [("id", num 1)]])].

(** [{"jobs": [{"id": 7, "service": 30}, {"id": 8}],
      "vehicles": [{"id": 1}]}] *)
Definition sample_two_missing_locations : Value :=
  kObject
    [("jobs", kArray [sample_job_without_location; kObject [("id", num 8)]]);
     ("vehicles", kArray [kObject [("id", num 1)]])].

(* ===================================================================== *)
(** * typedefs.h: the remaining scaling helper *)

(** The loop [scaled[key] = DURATION_FACTOR * duration] over the entries
    of the map. *)
Definition scale_from_user_duration_map (d : UserDurationMap)
  : gmap string Duration :=
  map_fold (fun key duration (scaled : gmap string Duration) =>
              <[key := mul64 DURATION_FACTOR (int64_t duration)]> scaled)
           ∅ d.

(** [a + b] on [UserCost] operands. *)
Definition add32 (a b : UserCost) : UserCost := uint32_t (a + b).

(* ===================================================================== *)
(** * Vocabulary of the further properties *)

(** The matrix index a location carries, if any. *)
Definition Location_index_of (loc : Location) : option Index :=
  match loc with
  | Location_index i => Some i
  | Location_coords _ => None
  | Location_index_coords i _ => Some i
  end.

(** The coordinates a location carries, if any. *)
Definition Location_coords_of (loc : Location) : option Coordinates :=
  match loc with
  | Location_index _ => None
  | Location_coords c => Some c
  | Location_index_coords _ c => Some c
  end.

(** Every row is as long as the matrix has rows. *)
Definition square (M : list (list Z)) : Prop :=
  Forall (fun row => length row = length M) M.

(** The amounts a job carries all have [n] components. *)
Definition job_amounts_of_size (n : nat) (job : Job) : Prop :=
  match job_amounts job with
  | DeliveryPickup delivery pickup => length delivery = n /\ length pickup = n
  | ShipmentAmount amount => length amount = n
  end.

(** The capacity of a vehicle and the [max_load] of its breaks all have
    [n] components. *)
Definition vehicle_amounts_of_size (n : nat) (v : Vehicle) : Prop :=
  length (vehicle_capacity v) = n /\
  Forall (fun b => forall a, break_max_load b = Some a -> length a = n)
         (vehicle_breaks v).

(** The only [std::runtime_error] is the one of [get_duration_map] on the
    key [service_per_vehicle_type]. *)
Definition runtime_error_of_duration_map (e : exception) : Prop :=
  forall message,
    e = runtime_error message ->
    message = "Invalid service_per_vehicle_type duration.".

(** The step built for the type string [type_str] and the id [id]. *)
Definition step_of_type (type_str : string) (id : Id) (step : VehicleStep)
  : Prop :=
  match step with
  | VehicleStep_type t _ =>
      (type_str = "start" /\ t = START) \/ (type_str = "end" /\ t = END)
  | VehicleStep_job t id' _ =>
      id' = id /\
      ((type_str = "job" /\ t = SINGLE) \/
       (type_str = "pickup" /\ t = PICKUP) \/
       (type_str = "delivery" /\ t = DELIVERY))
  | VehicleStep_id t id' _ => id' = id /\ type_str = "break" /\ t = BREAK
  end.

(** The string value of the member [key] of [o], if any, as the parser
    stores it: cut at the first U+0000. *)
Definition string_member (o : Value) (key : string) : option string :=
  (fun x => std_string (GetString x)) <$> FindMember (GetObject o) key.

(** The forced service times a step carries. *)
Definition forced_service_of (step : VehicleStep) : ForcedService :=
  match step with
  | VehicleStep_type _ fs => fs
  | VehicleStep_job _ _ fs => fs
  | VehicleStep_id _ _ fs => fs
  end.

(** The step [get_vehicle_steps] builds for the object [json_step]: its
    kind follows the [type] string, which is the [type] member cut at its
    first U+0000, or the empty string without that member; an id is
    required and kept for every type but [start] and [end], and each
    forced service time is the member of that name, if any. *)
Definition step_of (json_step : Value) (step : VehicleStep) : Prop :=
  exists type_str,
    type_str = default "" (string_member json_step "type") /\
    step_of_type type_str (GetUint64 json_step.["id"]) step /\
    (type_str <> "start" -> type_str <> "end" ->
     HasMember json_step "id" = true /\
     IsUint64 json_step.["id"] = true) /\
    forced_service_of step
    = {| service_at :=
           GetUint <$> FindMember (GetObject json_step) "service_at";
         service_after :=
           GetUint <$> FindMember (GetObject json_step) "service_after";
         service_before :=
           GetUint <$> FindMember (GetObject json_step) "service_before" |}.

(** The unsigned value of the member [key] of [o], or [d] without one. *)
Definition uint_member_or (d : Z) (o : Value) (key : string) : Z :=
  default d (GetUint <$> FindMember (GetObject o) key).

(** The member [key] of [o], if any, is an unsigned 32-bit number. *)
Definition uint_if_present (o : Value) (key : string) : Prop :=
  forall x, FindMember (GetObject o) key = Some x -> IsUint x = true.

(** The unsigned value of the member [key] of [o], if any. *)
Definition uint_member (o : Value) (key : string) : option Z :=
  GetUint <$> FindMember (GetObject o) key.

(** The number of vehicles [parse] adds for a vehicle object. *)
Definition vehicle_count (json_vehicle : Value) : nat :=
  if HasMember json_vehicle "time_windows"
  then Size json_vehicle.["time_windows"]
  else 1%nat.

(** Every matrix of the map is square with entries in the range of
    [uint32_t]. *)
Definition square_matrices (ms : gmap string (list (list Z))) : Prop :=
  map_Forall (fun _ M => square M /\ Forall (Forall in_uint32) M) ms.

Definition matrices_square (input : Input) : Prop :=
  square_matrices (durations_matrices input) /\
  square_matrices (distances_matrices input) /\
  square_matrices (costs_matrices input).

(** The members of an object with the names as the parser stores them,
    cut at the first U+0000. *)
Definition stored_members (ms : list (string * Value))
  : list (string * Value) :=
  (fun m => (std_string m.1, m.2)) <$> ms.

(* ===================================================================== *)
(** * Sample inputs of the further properties *)

(** [{"id": 1, "service_per_vehicle_type": {"van": 60, "bike": 30,
                                            "van": 90,
                                            "bus\u0000x": 45}}] *)
Definition sample_duplicate_durations : Value :=
  kObject [("id", num 1);
           ("service_per_vehicle_type",
            kObject [("van", num 60); ("bike", num 30); ("van", num 90);
                     ("bus" +:+ String Ascii.zero "x", num 45)])].

(** [{"id": 9, "location_index": 65537, "service": 10}] and
    [{"id": 9, "location_index": 1, "service": 10}] *)
Definition sample_job_index_65537 : Value :=
  kObject [("id", num 9); ("location_index", num 65537);
           ("service", num 10)].

Definition sample_job_index_1 : Value :=
  kObject [("id", num 9); ("location_index", num 1); ("service", num 10)].

(** [{"id": 3, "start_index": 2, "end": [1, 2], "profile": "",
      "breaks": [{"id": 1, "time_windows": [[50, 60]]},
                 {"id": 2, "time_windows": [[10, 20], [0, 5]]}],
      "steps": [{"type": "start"}, {"type": "job", "id": 7},
                {"type": "break", "id": 2}, {"type": "end\u0000x"}]}] *)
Definition sample_vehicle_full : Value :=
  kObject [("id", num 3); ("start_index", num 2);
           ("end", kArray [num 1; num 2]); ("profile", kString "");
           ("breaks",
            kArray [kObject [("id", num 1);
                             ("time_windows", kArray [uints [50; 60]])];
                    kObject [("id", num 2);
                             ("time_windows", kArray [uints [10; 20];
                                                      uints [0; 5]])]]);
           ("steps",
            kArray [kObject [("type", kString "start")];
                    kObject [("type", kString "job"); ("id", num 7)];
                    kObject [("type", kString "break"); ("id", num 2)];
                    kObject [("type",
                              kString ("end" +:+ String Ascii.zero "x"))]])].

Definition sample_vehicle_full_parsed : Vehicle :=
  Eval vm_compute in
    match get_vehicle sample_vehicle_full 0 TimeWindow_default with
    | Ok v => v
    | Throw _ =>
        {| vehicle_id := 0; vehicle_start := None; vehicle_end := None;
           vehicle_profile := ""; vehicle_capacity := [];
           vehicle_skills := ∅; vehicle_tw := TimeWindow_default;
           vehicle_breaks := []; vehicle_description := "";
           vehicle_costs := {| costs_fixed := 0; costs_per_hour := 0;
                               costs_per_km := 0 |};
           vehicle_speed_factor := NumInt 0; vehicle_service_type := None;
           vehicle_max_tasks := None; vehicle_max_travel_time := None;
           vehicle_max_distance := None; vehicle_steps := [] |}
    end.

(** [sample_vehicles] with two more top-level members, [options] and a
    second, shadowed [jobs]. *)
Definition sample_vehicles_more_keys : list (string * Value) :=
  ("options", kObject [("g", kBool true)])
  :: GetObject sample_vehicles ++ [("jobs", kString "ignored")].

(** [sample_vehicle_both_windows] without its [time_window] member. *)
Definition sample_vehicle_time_windows_only : Value :=
  kObject [("id", num 1); ("time_windows", kArray [uints [0; 10]])].

(** [{"jobs": [{"id": 1, "location_index": 0}], "vehicles": [{"id": 1}],
      "matrices": {"car": {"durations": [[0, 3], [2, 0]],
                           "costs": [[0, 1], [1, 0]]},
                   "bike": {"distances": [[0]]}}}] *)
Definition sample_matrices : Value :=
  kObject
    [("jobs", kArray [kObject [("id", num 1); ("location_index", num 0)]]);
     ("vehicles", kArray [kObject [("id", num 1)]]);
     ("matrices",
      kObject [("car",
                kObject [("durations", kArray [uints [0; 3]; uints [2; 0]]);
                         ("costs", kArray [uints [0; 1]; uints [1; 0]])]);
               ("bike", kObject [("distances", kArray [uints [0]])])])].

(** [{"jobs": [{"id": 1, "location_index": 0,
                "service_per_vehicle_type": 5}],
      "vehicles": [{"id": 1}]}] *)
Definition sample_invalid_duration_map : Value :=
  kObject
    [("jobs", kArray [kObject [("id", num 1); ("location_index", num 0);
                               ("service_per_vehicle_type", num 5)]]);
     ("vehicles", kArray [kObject [("id", num 1)]])].

(** [{"id": 1, "profile": "\u0000van", "description": "a\u0000b",
      "service_type": "x\u0000"}] *)
Definition sample_vehicle_nul_strings : Value :=
  kObject [("id", num 1);
           ("profile", kString (String Ascii.zero "van"));
           ("description", kString ("a" +:+ String Ascii.zero "b"));
           ("service_type", kString ("x" +:+ String Ascii.zero ""))].

(** [{"id": 9, "location_index": 1, "description": "a\u0000b"}] *)
Definition sample_job_nul_description : Value :=
  kObject [("id", num 9); ("location_index", num 1);
           ("description", kString ("a" +:+ String Ascii.zero "b"))].

(* ===================================================================== *)
(** * Theorems on typedefs.h *)

Lemma int64_t_id (z : Z) : - 2 ^ 63 <= z < 2 ^ 63 -> int64_t z = z.
Proof.
  intros Hz. unfold int64_t, static_cast_signed.
  change (2 ^ (64 - 1)) with (2 ^ 63).
  rewrite Z.mod_small; lia.
Qed.

Lemma uint32_t_id (z : Z) : in_uint32 z -> uint32_t z = z.
Proof.
  unfold in_uint32, UINT32_MAX, uint32_t, static_cast_unsigned.
  intros Hz. apply Z.mod_small. lia.
Qed.

Lemma scale_from_user_duration_exact (d : UserDuration) :
  in_uint32 d -> scale_from_user_duration d = 100 * d.
Proof.
  unfold in_uint32, UINT32_MAX. intros Hd.
  unfold scale_from_user_duration, mul64, DURATION_FACTOR.
  rewrite (int64_t_id d) by lia. apply int64_t_id. lia.
Qed.

Lemma scale_from_user_cost_exact (c : UserCost) :
  in_uint32 c -> scale_from_user_cost c = 100 * 3600 * c.
Proof.
  unfold in_uint32, UINT32_MAX. intros Hc.
  unfold scale_from_user_cost, mul64, DURATION_FACTOR, COST_FACTOR.
  rewrite (int64_t_id c) by lia.
  rewrite (int64_t_id (100 * 3600)) by lia. apply int64_t_id. lia.
Qed.

(** C8: internal durations are user durations times 100 and internal costs
    are user costs times 100 * 3600, in integer arithmetic that does not
    leave [int64_t]; scaling a [UserDuration] or a [UserCost] to the
    internal unit and back passes the assertion and returns the value. *)
Theorem scale_user_roundtrip (d : UserDuration) (c : UserCost) :
  in_uint32 d -> in_uint32 c ->
  scale_from_user_duration d = 100 * d /\
  scale_from_user_cost c = 100 * 3600 * c /\
  scale_to_user_duration (scale_from_user_duration d) = Ok d /\
  scale_to_user_cost (scale_from_user_cost c) = Ok c.
Proof.
  intros Hd Hc.
  assert (Hmax : in_uint32 UINT32_MAX) by (unfold in_uint32, UINT32_MAX; lia).
  split; [now apply scale_from_user_duration_exact|].
  split; [now apply scale_from_user_cost_exact|].
  unfold scale_to_user_duration, scale_to_user_cost.
  rewrite !scale_from_user_duration_exact, !scale_from_user_cost_exact
    by assumption.
  unfold in_uint32, UINT32_MAX in Hd, Hc.
  split.
  - replace (100 * d <=? 100 * UINT32_MAX) with true
      by (symmetry; apply Z.leb_le; unfold UINT32_MAX; lia).
    simpl. f_equal. unfold div64, DURATION_FACTOR.
    rewrite (Z.mul_comm 100 d), Z.quot_mul by lia.
    rewrite int64_t_id by lia. apply uint32_t_id.
    unfold in_uint32, UINT32_MAX; lia.
  - replace (100 * 3600 * c <=? 100 * 3600 * UINT32_MAX) with true
      by (symmetry; apply Z.leb_le; unfold UINT32_MAX; lia).
    simpl. f_equal. unfold div64, mul64, DURATION_FACTOR, COST_FACTOR.
    rewrite (int64_t_id (100 * 3600)) by lia.
    rewrite (Z.mul_comm (100 * 3600) c), Z.quot_mul by lia.
    rewrite int64_t_id by lia. apply uint32_t_id.
    unfold in_uint32, UINT32_MAX; lia.
Qed.

Lemma scale_user_roundtrip_witness :
  scale_from_user_duration 3600 = 100 * 3600 /\
  scale_from_user_cost 7 = 100 * 3600 * 7 /\
  scale_to_user_duration (scale_from_user_duration 3600) = Ok 3600 /\
  scale_to_user_cost (scale_from_user_cost 7) = Ok 7.
Proof.
  apply (scale_user_roundtrip 3600 7);
    unfold in_uint32, UINT32_MAX; lia.
Defined.

Lemma sum_costs_replicate (k : nat) (c : Cost) :
  0 <= c -> Z.of_nat k * c <= INT64_MAX ->
  sum_costs (replicate k c) = Z.of_nat k * c.
Proof.
  intros Hc Hk. unfold sum_costs.
  enough (H : forall acc, 0 <= acc -> acc + Z.of_nat k * c <= INT64_MAX ->
                          foldl add64 acc (replicate k c)
                          = acc + Z.of_nat k * c)
    by (rewrite H; lia).
  clear Hk. induction k as [|k IH]; intros acc Hacc Hk; simpl.
  - lia.
  - unfold INT64_MAX in *. unfold add64 at 2.
    rewrite int64_t_id by nia. rewrite IH by nia. lia.
Qed.

(** The headroom in full: 7953 internal infinite costs can be summed in
    [Cost], 7954 cannot. *)
Lemma INFINITE_COST_sum_bound (k : nat) :
  Z.of_nat k <= 7953 ->
  sum_costs (replicate k (scale_from_user_cost INFINITE_USER_COST))
    = Z.of_nat k * scale_from_user_cost INFINITE_USER_COST /\
  Z.of_nat k * scale_from_user_cost INFINITE_USER_COST < INT64_MAX /\
  INT64_MAX < 7954 * scale_from_user_cost INFINITE_USER_COST.
Proof.
  intros Hk.
  assert (Hc : scale_from_user_cost INFINITE_USER_COST = 1159641168840000)
    by (vm_compute; reflexivity).
  rewrite Hc. unfold INT64_MAX.
  split; [|lia]. apply sum_costs_replicate; unfold INT64_MAX; lia.
Qed.

(** C9: [INFINITE_USER_COST] is 3 * (max UserCost / 4), with no wrap in
    [uint32_t]; the sum of up to four of them, whether cast to [Cost] or
    scaled to an internal cost, is computed in [int64_t] without wrap and
    is strictly below the maximum [Cost]. *)
Theorem INFINITE_USER_COST_headroom (k : nat) :
  (k <= 4)%nat ->
  INFINITE_USER_COST = 3 * (UINT32_MAX / 4) /\
  sum_costs (replicate k (int64_t INFINITE_USER_COST))
    = Z.of_nat k * INFINITE_USER_COST /\
  sum_costs (replicate k (int64_t INFINITE_USER_COST)) < INT64_MAX /\
  sum_costs (replicate k (scale_from_user_cost INFINITE_USER_COST))
    = Z.of_nat k * (100 * 3600 * INFINITE_USER_COST) /\
  sum_costs (replicate k (scale_from_user_cost INFINITE_USER_COST))
    < INT64_MAX.
Proof.
  intros Hk.
  destruct k as [|[|[|[|[|k]]]]]; try lia; vm_compute; repeat split.
Qed.

Lemma INFINITE_USER_COST_headroom_witness :
  INFINITE_USER_COST = 3 * (UINT32_MAX / 4) /\
  sum_costs (replicate 4 (int64_t INFINITE_USER_COST))
    = Z.of_nat 4 * INFINITE_USER_COST /\
  sum_costs (replicate 4 (int64_t INFINITE_USER_COST)) < INT64_MAX /\
  sum_costs (replicate 4 (scale_from_user_cost INFINITE_USER_COST))
    = Z.of_nat 4 * (100 * 3600 * INFINITE_USER_COST) /\
  sum_costs (replicate 4 (scale_from_user_cost INFINITE_USER_COST))
    < INT64_MAX.
Proof.
  apply (INFINITE_USER_COST_headroom 4). lia.
Defined.

(* ===================================================================== *)
(** * The result monad and the loops *)

Lemma bind_Ok {A B} (m : result A) (f : A -> result B) (b : B) :
  m ≫= f = Ok b -> exists a, m = Ok a /\ f a = Ok b.
Proof. destruct m as [a|e]; simpl; [eauto | discriminate]. Qed.

(** Inversion of a successful sequence of binds, one step at a time. *)
Ltac bind_inv H :=
  let E := fresh "E" in
  apply bind_Ok in H as (? & E & H).

Ltac binds_inv H :=
  repeat (apply bind_Ok in H as (? & ? & H)).

(* ===================================================================== *)
(** * Member lookup *)

Lemma HasMember_false (v : Value) (k : string) :
  HasMember v k = false <-> FindMember (GetObject v) k = None.
Proof.
  unfold HasMember. destruct (FindMember _ _); split; eauto; discriminate.
Qed.

Lemma same_but_IsObject key a b : same_but key a b -> IsObject a = IsObject b.
Proof. destruct a, b; simpl; try congruence; reflexivity. Qed.

Lemma same_but_FindMember key a b k :
  same_but key a b -> k <> key ->
  FindMember (GetObject a) k = FindMember (GetObject b) k.
Proof. destruct a, b; simpl; try congruence; auto. Qed.

Lemma same_but_HasMember key a b k :
  same_but key a b -> k <> key -> HasMember a k = HasMember b k.
Proof.
  intros H Hk. unfold HasMember. now rewrite (same_but_FindMember key a b k).
Qed.

Lemma same_but_member key a b k :
  same_but key a b -> k <> key -> a.[k] = b.[k].
Proof.
  intros H Hk. unfold member. now rewrite (same_but_FindMember key a b k).
Qed.

(* ===================================================================== *)
(** * get_amount *)

Lemma get_amount_loop_length key elements : forall i amount r,
  get_amount_loop key elements i amount = Ok r -> length r = length amount.
Proof.
  induction elements as [|e rest IH]; simpl; intros i amount r H.
  - congruence.
  - destruct (IsUint e); simpl in H; [|discriminate].
    apply IH in H. now rewrite length_insert in H.
Qed.

Lemma get_amount_absent object key amount_size :
  HasMember object key = false ->
  get_amount object key amount_size = Ok (Amount_zero amount_size).
Proof. unfold get_amount. now intros ->. Qed.

Lemma get_amount_length object key amount_size r :
  get_amount object key amount_size = Ok r -> length r = amount_size.
Proof.
  unfold get_amount, Amount_zero. intros H.
  destruct (HasMember object key).
  - destruct (IsArray object.[key]); simpl in H; [|discriminate].
    destruct (Size object.[key] =? amount_size)%nat; simpl in H;
      [|discriminate].
    apply get_amount_loop_length in H. now rewrite length_replicate in H.
  - injection H as <-. apply length_replicate.
Qed.

(* ===================================================================== *)
(** * get_job *)

Lemma get_job_same_but_amount a b amount_size :
  same_but "amount" a b ->
  need_amount_compat a = false -> need_amount_compat b = false ->
  get_job a amount_size = get_job b amount_size.
Proof.
  intros H Ha Hb. unfold get_job. rewrite Ha, Hb.
  unfold check_id, get_task_location, check_location, parse_coordinates,
    get_duration, get_duration_map, get_amount, get_skills, get_priority,
    get_time_windows, get_string.
  rewrite (same_but_IsObject _ _ _ H).
  rewrite !(same_but_HasMember _ _ _ _ H) by done.
  rewrite !(same_but_member _ _ _ _ H) by done.
  reflexivity.
Qed.

(** C1: in the job [get_job] builds, the delivery amount is read from the
    deprecated [amount] key exactly when the object has an [amount] key and
    neither a [delivery] nor a [pickup] key; otherwise it is read from the
    [delivery] key, is the zero vector when that key is absent, and, the
    object having a [delivery] or a [pickup] key, the outcome of [get_job]
    does not depend on the [amount] members at all. *)
Theorem get_job_amount_compat (json_job : Value) (amount_size : nat)
    (job : Job) :
  get_job json_job amount_size = Ok job ->
  exists delivery pickup,
    job_amounts job = DeliveryPickup delivery pickup /\
    get_amount json_job "pickup" amount_size = Ok pickup /\
    (if HasMember json_job "amount" && negb (HasMember json_job "delivery")
          && negb (HasMember json_job "pickup")
     then get_amount json_job "amount" amount_size = Ok delivery
     else get_amount json_job "delivery" amount_size = Ok delivery /\
          (HasMember json_job "delivery" = false ->
           delivery = Amount_zero amount_size) /\
          (HasMember json_job "delivery" || HasMember json_job "pickup"
             = true ->
           forall json_job',
             same_but "amount" json_job json_job' ->
             get_job json_job' amount_size = Ok job)).
Proof.
  intros Hjob. pose proof Hjob as H. unfold get_job in H.
  bind_inv H. bind_inv H. bind_inv H. bind_inv H. bind_inv H.
  apply bind_Ok in H as (delivery & Hdelivery & H).
  apply bind_Ok in H as (pickup & Hpickup & H).
  binds_inv H. injection H as <-. simpl.
  exists delivery, pickup. split; [reflexivity|]. split; [assumption|].
  unfold need_amount_compat in Hdelivery.
  destruct (HasMember json_job "amount" && negb (HasMember json_job "delivery")
            && negb (HasMember json_job "pickup")) eqn:Hcompat;
    [assumption|].
  split; [assumption|]. split.
  - intros Habsent.
    rewrite (get_amount_absent _ _ _ Habsent) in Hdelivery. congruence.
  - intros Hpresent json_job' Hsame. rewrite <- Hjob. symmetry.
    apply get_job_same_but_amount; [assumption|exact Hcompat|].
    unfold need_amount_compat.
    rewrite <- (same_but_HasMember _ _ _ "delivery" Hsame) by done.
    rewrite <- (same_but_HasMember _ _ _ "pickup" Hsame) by done.
    destruct (HasMember json_job "delivery"), (HasMember json_job "pickup");
      simpl in *; try discriminate; now rewrite ?andb_false_r.
Qed.

Lemma get_job_amount_compat_witness :
  get_job sample_job_amount_and_delivery 1
    = Ok sample_job_amount_and_delivery_parsed /\
  exists delivery pickup,
    job_amounts sample_job_amount_and_delivery_parsed
      = DeliveryPickup delivery pickup /\
    get_amount sample_job_amount_and_delivery "pickup" 1 = Ok pickup /\
    get_amount sample_job_amount_and_delivery "delivery" 1 = Ok delivery /\
    (HasMember sample_job_amount_and_delivery "delivery" = false ->
     delivery = Amount_zero 1) /\
    (HasMember sample_job_amount_and_delivery "delivery"
       || HasMember sample_job_amount_and_delivery "pickup" = true ->
     forall json_job',
       same_but "amount" sample_job_amount_and_delivery json_job' ->
       get_job json_job' 1 = Ok sample_job_amount_and_delivery_parsed).
Proof.
  split; [vm_compute; reflexivity|].
  apply (get_job_amount_compat sample_job_amount_and_delivery 1
           sample_job_amount_and_delivery_parsed).
  vm_compute; reflexivity.
Defined.

(* ===================================================================== *)
(** * The deprecated [matrix] key *)

Lemma FindMember_replace_first_other key new ms k :
  k <> key -> k <> new.1 ->
  FindMember (replace_first key new ms) k = FindMember ms k.
Proof.
  intros Hk Hnew. induction ms as [|[name v] rest IH]; simpl; [reflexivity|].
  destruct (String.eqb name key) eqn:Hname.
  - apply String.eqb_eq in Hname as ->. destruct new as [name' v']. simpl in *.
    destruct (String.eqb name' k) eqn:E1;
      [apply String.eqb_eq in E1; congruence|].
    destruct (String.eqb key k) eqn:E2;
      [apply String.eqb_eq in E2; congruence|].
    reflexivity.
  - simpl. now rewrite IH.
Qed.

Lemma FindMember_replace_first_new key new ms v :
  FindMember ms key = Some v -> FindMember ms new.1 = None ->
  FindMember (replace_first key new ms) new.1 = Some new.2.
Proof.
  destruct new as [name' v']. simpl.
  induction ms as [|[name w] rest IH]; simpl; [discriminate|].
  intros Hkey Hnew.
  destruct (String.eqb name name') eqn:E1; [discriminate|].
  destruct (String.eqb name key) eqn:E2; simpl.
  - now rewrite String.eqb_refl.
  - rewrite E1. auto.
Qed.

Lemma FindMember_remove_members_other key ms k :
  k <> key -> FindMember (remove_members key ms) k = FindMember ms k.
Proof.
  intros Hk. unfold remove_members.
  induction ms as [|[name v] rest IH]; [reflexivity|].
  rewrite filter_cons. simpl. destruct (decide (name <> key)) as [Hn|Hn].
  - simpl. now rewrite IH.
  - apply dec_stable in Hn. subst name. rewrite IH.
    destruct (String.eqb key k) eqn:E; [|reflexivity].
    apply String.eqb_eq in E. congruence.
Qed.

Lemma FindMember_remove_members_same key ms :
  FindMember (remove_members key ms) key = None.
Proof.
  unfold remove_members.
  induction ms as [|[name v] rest IH]; [reflexivity|].
  rewrite filter_cons. simpl. destruct (decide (name <> key)) as [Hn|Hn].
  - simpl. destruct (String.eqb name key) eqn:E; [|assumption].
    apply String.eqb_eq in E. contradiction.
  - assumption.
Qed.

(** [parse_tasks] reads the members [jobs], [shipments] and [vehicles] of
    the root and nothing else. *)
Lemma parse_tasks_members input ms ms' geometry :
  FindMember ms "jobs" = FindMember ms' "jobs" ->
  FindMember ms "shipments" = FindMember ms' "shipments" ->
  FindMember ms "vehicles" = FindMember ms' "vehicles" ->
  parse_tasks input (kObject ms) geometry
  = parse_tasks input (kObject ms') geometry.
Proof.
  intros Hj Hs Hv.
  unfold parse_tasks, has_jobs, has_shipments, HasMember, member. simpl.
  now rewrite Hj, Hs, Hv.
Qed.

(** C5, as the code has it: when the document has a top-level [matrix]
    member holding [M] and no top-level [matrices] member, [parse] has the
    same outcome as on the document with that member replaced by
    [matrices: {"car": {"durations": M}}]; and when [M] is a square matrix
    of unsigned integers, read as [mat], the input produced is the one
    produced without the [matrix] members, with the durations matrix of
    profile "car" set to [mat].  When the document has a [matrices]
    member, the [matrix] member is not read: [parse] has the same outcome
    on every document that differs from it in the [matrix] members
    only. *)
Theorem deprecated_matrix_without_matrices (input : Input)
    (ms : list (string * Value)) (geometry : bool) (M : Value) :
  (FindMember ms "matrix" = Some M ->
   FindMember ms "matrices" = None ->
   parse input (Document (kObject ms)) geometry
   = parse input
       (Document (kObject (replace_first "matrix" (matrices_car_durations M)
                                         ms)))
       geometry
   /\
   forall mat input',
     get_matrix M = Ok mat ->
     parse input (Document (kObject (remove_members "matrix" ms))) geometry
       = Ok input' ->
     parse input (Document (kObject ms)) geometry
       = Ok (set_durations_matrix "car" mat input')) /\
  (forall ms',
     FindMember ms "matrices" <> None ->
     (forall k, k <> "matrix" -> FindMember ms k = FindMember ms' k) ->
     parse input (Document (kObject ms)) geometry
     = parse input (Document (kObject ms')) geometry).
Proof.
  split; [intros HM Hnone; split|].
  - unfold parse.
    rewrite (parse_tasks_members input ms
               (replace_first "matrix" (matrices_car_durations M) ms))
      by (symmetry; now apply FindMember_replace_first_other).
    destruct (parse_tasks _ _ _) as [input1|e]; [simpl|reflexivity].
    unfold parse_matrices, HasMember, member. simpl.
    pose proof (FindMember_replace_first_new "matrix"
                  (matrices_car_durations M) ms M HM Hnone) as Hnew.
    simpl in Hnew. rewrite Hnew, HM, Hnone.
    simpl. unfold parse_matrices_entry. simpl.
    change ((kObject [("durations", M)]).["durations"]) with M.
    destruct (get_matrix M); reflexivity.
  - intros mat input' Hmat. unfold parse.
    rewrite (parse_tasks_members input (remove_members "matrix" ms) ms)
      by now apply FindMember_remove_members_other.
    destruct (parse_tasks _ _ _) as [input1|e]; [simpl|discriminate].
    unfold parse_matrices, HasMember, member. simpl.
    rewrite FindMember_remove_members_same, HM, Hnone.
    rewrite FindMember_remove_members_other, Hnone by done.
    simpl. rewrite Hmat. simpl. now intros [= ->].
  - intros ms' Hsome Hsame. unfold parse.
    rewrite (parse_tasks_members input ms ms') by (now apply Hsame).
    destruct (parse_tasks _ _ _) as [input1|e]; [simpl|reflexivity].
    unfold parse_matrices, HasMember, member. simpl.
    rewrite <- (Hsame "matrices") by done.
    destruct (FindMember ms "matrices"); [reflexivity|contradiction].
Qed.

Lemma deprecated_matrix_without_matrices_witness :
  (parse Input_empty (Document (kObject sample_matrix_only)) true
   = parse Input_empty
       (Document (kObject (replace_first "matrix"
                             (matrices_car_durations
                                (kArray [uints [0; 3]; uints [2; 0]]))
                             sample_matrix_only)))
       true
   /\
   forall mat input',
     get_matrix (kArray [uints [0; 3]; uints [2; 0]]) = Ok mat ->
     parse Input_empty
           (Document (kObject (remove_members "matrix" sample_matrix_only)))
           true
       = Ok input' ->
     parse Input_empty (Document (kObject sample_matrix_only)) true
       = Ok (set_durations_matrix "car" mat input')) /\
  FindMember sample_matrix_and_matrices "matrices" <> None /\
  FindMember sample_matrix_and_matrices "matrix" <> None /\
  FindMember (remove_members "matrix" sample_matrix_and_matrices) "matrix"
  = None /\
  parse Input_empty (Document (kObject sample_matrix_and_matrices)) false
  = parse Input_empty
      (Document (kObject (remove_members "matrix"
                            sample_matrix_and_matrices)))
      false.
Proof.
  split.
  - apply (deprecated_matrix_without_matrices Input_empty sample_matrix_only
             true (kArray [uints [0; 3]; uints [2; 0]]));
      reflexivity.
  - split; [discriminate|]. split; [discriminate|]. split; [reflexivity|].
    apply (deprecated_matrix_without_matrices Input_empty
             sample_matrix_and_matrices false kNull);
      [discriminate|].
    intros k Hk. symmetry. now apply FindMember_remove_members_other.
Defined.

(** C5 as stated fails: with a [matrices] member next to the [matrix]
    member, the [matrix] member is not read and no durations matrix is
    set, while the document with [matrix] replaced (in place, or with the
    new member taking the place of both) sets the durations of "car". *)
Lemma deprecated_matrix_ignored_with_matrices :
  FindMember sample_matrix_and_matrices "matrix" = Some (kArray [uints [0]]) /\
  get_matrix (kArray [uints [0]]) = Ok [[0]] /\
  (exists input',
     parse Input_empty (Document (kObject sample_matrix_and_matrices)) false
       = Ok input' /\
     durations_matrices input' = ∅) /\
  parse Input_empty (Document (kObject sample_matrix_and_matrices)) false
  <> parse Input_empty
       (Document (kObject (replace_first "matrix"
                             (matrices_car_durations (kArray [uints [0]]))
                             sample_matrix_and_matrices)))
       false /\
  parse Input_empty (Document (kObject sample_matrix_and_matrices)) false
  <> parse Input_empty
       (Document (kObject (matrices_car_durations (kArray [uints [0]])
                           :: remove_members "matrices"
                                (remove_members "matrix"
                                   sample_matrix_and_matrices))))
       false.
Proof.
  split; [reflexivity|]. split; [reflexivity|]. split; [|split].
  - eexists. split; [vm_compute; reflexivity|reflexivity].
  - vm_compute. intros [=].
  - vm_compute. intros [=].
Qed.

(* ===================================================================== *)
(** * Loops of the parser *)

Lemma mapM_Ok_Forall2 {A B} (f : A -> result B) (l : list A) (l' : list B) :
  mapM f l = Ok l' -> Forall2 (fun x y => f x = Ok y) l l'.
Proof.
  revert l'. induction l as [|x l IH]; simpl; intros l' H.
  - injection H as <-. constructor.
  - apply bind_Ok in H as (y & Hy & H).
    apply bind_Ok in H as (k & Hk & H). injection H as <-.
    constructor; auto.
Qed.

Lemma for_each_Forall2 {S A B} (body : S -> A -> result S)
    (R : A -> B -> Prop) (step : B -> S -> S) :
  (forall s x s', body s x = Ok s' -> exists b, R x b /\ s' = step b s) ->
  forall l s s',
    for_each body s l = Ok s' ->
    exists bs, Forall2 R l bs /\ s' = foldl (fun s b => step b s) s bs.
Proof.
  intros Hbody. induction l as [|x l IH]; simpl; intros s s' H.
  - injection H as <-. exists []. split; [constructor|reflexivity].
  - apply bind_Ok in H as (s1 & H1 & H).
    apply Hbody in H1 as (b & Hb & ->).
    apply IH in H as (bs & Hbs & ->).
    exists (b :: bs). split; [now constructor|reflexivity].
Qed.

Lemma add_vehicles_fields vs input :
  add_vehicles vs input
  = {| amount_size := amount_size input; geometry := geometry input;
       vehicles := vehicles input ++ vs; jobs := jobs input;
       shipments := shipments input;
       durations_matrices := durations_matrices input;
       distances_matrices := distances_matrices input;
       costs_matrices := costs_matrices input |}.
Proof.
  unfold add_vehicles. revert input.
  induction vs as [|v vs IH]; intros input; simpl.
  - rewrite app_nil_r. now destruct input.
  - rewrite IH. simpl. now rewrite <- app_assoc.
Qed.

Lemma foldl_add_vehicles_fields vss input :
  foldl (fun input vs => add_vehicles vs input) input vss
  = add_vehicles (concat vss) input.
Proof.
  revert input. induction vss as [|vs vss IH]; intros input; simpl.
  - reflexivity.
  - rewrite IH, !add_vehicles_fields. simpl. now rewrite <- app_assoc.
Qed.

Lemma foldl_add_job_fields js input :
  foldl (fun input j => add_job j input) input js
  = {| amount_size := amount_size input; geometry := geometry input;
       vehicles := vehicles input; jobs := jobs input ++ js;
       shipments := shipments input;
       durations_matrices := durations_matrices input;
       distances_matrices := distances_matrices input;
       costs_matrices := costs_matrices input |}.
Proof.
  revert input. induction js as [|j js IH]; intros input; simpl.
  - rewrite app_nil_r. now destruct input.
  - rewrite IH. simpl. now rewrite <- app_assoc.
Qed.

Lemma foldl_add_shipment_fields (pds : list (Job * Job)) input :
  foldl (fun input pd => add_shipment pd.1 pd.2 input) input pds
  = {| amount_size := amount_size input; geometry := geometry input;
       vehicles := vehicles input; jobs := jobs input;
       shipments := shipments input ++ pds;
       durations_matrices := durations_matrices input;
       distances_matrices := distances_matrices input;
       costs_matrices := costs_matrices input |}.
Proof.
  revert input. induction pds as [|[p d] pds IH]; intros input; simpl.
  - rewrite app_nil_r. now destruct input.
  - rewrite IH. simpl. now rewrite <- app_assoc.
Qed.

(* ===================================================================== *)
(** * Sorting *)

Lemma std_sort_Permutation {A} (lt : relation A) `{!RelDecision lt}
    (l : list A) :
  std_sort lt l ≡ₚ l.
Proof. apply merge_sort_Permutation. Qed.

Lemma std_sort_Sorted {A} (lt : relation A) `{!RelDecision lt} (l : list A) :
  (forall a b, lt a b -> ~ lt b a) ->
  Sorted (fun a b => ~ lt b a) (std_sort lt l).
Proof.
  intros Hasym. unfold std_sort.
  assert (Htotal : Total (fun a b => ~ lt b a)).
  { intros a b. destruct (decide (lt b a)) as [Hba|Hba]; [right|left]; auto. }
  apply (Sorted_merge_sort (fun a b => ~ lt b a)).
Qed.

Lemma TimeWindow_lt_asym a b : TimeWindow_lt a b -> ~ TimeWindow_lt b a.
Proof. unfold TimeWindow_lt. lia. Qed.

(* ===================================================================== *)
(** * Time windows *)

Lemma TimeWindow_make_Ok s e w :
  TimeWindow_make s e = Ok w -> s <= e.
Proof.
  unfold TimeWindow_make. destruct (e <? s) eqn:E; [discriminate|].
  intros _. apply Z.ltb_ge in E. lia.
Qed.

Lemma get_time_window_Ok tw w :
  get_time_window tw = Ok w -> ~ start_exceeds_end tw.
Proof.
  intros H (s & e & rest & -> & Hlt). unfold get_time_window in H.
  destruct (_ || _); [discriminate|].
  apply TimeWindow_make_Ok in H. simpl in H. lia.
Qed.

Lemma get_time_windows_Ok o tws :
  get_time_windows o = Ok tws ->
  if HasMember o "time_windows" then
    exists tws0,
      mapM get_time_window (GetArray o.["time_windows"]) = Ok tws0 /\
      tws = std_sort TimeWindow_lt tws0 /\
      GetArray o.["time_windows"] <> []
  else tws = [TimeWindow_default].
Proof.
  unfold get_time_windows. intros H.
  destruct (HasMember o "time_windows"); [|congruence].
  destruct (negb (IsArray o.["time_windows"]) || Empty o.["time_windows"])
    eqn:E.
  - destruct (assert _); discriminate.
  - apply bind_Ok in H as (tws0 & H0 & H). injection H as <-.
    exists tws0. repeat split; [assumption|].
    apply orb_false_iff in E as [_ E]. unfold Empty in E.
    destruct (GetArray _); [discriminate|done].
Qed.

Lemma get_time_windows_Ok_windows o tws tw :
  get_time_windows o = Ok tws ->
  HasMember o "time_windows" = true ->
  tw ∈ GetArray o.["time_windows"] ->
  ~ start_exceeds_end tw.
Proof.
  intros H Hhas Htw. apply get_time_windows_Ok in H. rewrite Hhas in H.
  destruct H as (tws0 & H0 & _).
  apply mapM_Ok_Forall2 in H0.
  apply list_elem_of_lookup in Htw as [i Hi].
  destruct (Forall2_lookup_l _ _ _ _ _ H0 Hi) as (w & _ & Hw).
  now apply get_time_window_Ok in Hw.
Qed.

Lemma get_time_windows_Ok_length o tws :
  get_time_windows o = Ok tws ->
  HasMember o "time_windows" = true ->
  length tws = Size o.["time_windows"] /\ tws <> [].
Proof.
  intros H Hhas. apply get_time_windows_Ok in H. rewrite Hhas in H.
  destruct H as (tws0 & H0 & -> & Hne).
  apply mapM_Ok_Forall2, Forall2_length in H0.
  assert (Hlen : length (std_sort TimeWindow_lt tws0)
                 = Size o.["time_windows"]).
  { unfold Size. rewrite H0. apply Permutation_length.
    apply std_sort_Permutation. }
  split; [assumption|]. intros E. rewrite E in Hlen. unfold Size in Hlen.
  destruct (GetArray o.["time_windows"]); [done|discriminate].
Qed.

Lemma get_time_windows_Sorted o tws :
  get_time_windows o = Ok tws ->
  Sorted (fun a b => ~ TimeWindow_lt b a) tws.
Proof.
  intros H. apply get_time_windows_Ok in H.
  destruct (HasMember o "time_windows").
  - destruct H as (tws0 & _ & -> & _).
    apply std_sort_Sorted, TimeWindow_lt_asym.
  - subst tws. repeat constructor.
Qed.

(* ===================================================================== *)
(** * Amounts read by a successful run *)

Lemma get_amount_Ok_size object key amount_size r :
  get_amount object key amount_size = Ok r ->
  amount_of_size amount_size object key.
Proof.
  unfold get_amount, amount_of_size. intros H Hhas. rewrite Hhas in H.
  destruct (object.[key]) as [| | | |l|] eqn:E; simpl in H; try discriminate.
  unfold Size in H. simpl in H.
  destruct (length l =? amount_size)%nat eqn:El; [|discriminate].
  apply Nat.eqb_eq in El. eauto.
Qed.

Lemma get_amount_inconsistent object key amount_size l :
  HasMember object key = true -> object.[key] = kArray l ->
  length l <> amount_size ->
  get_amount object key amount_size
  = Throw (InputException
             ("Inconsistent " +:+ key +:+ " length: " +:+
              to_string (Z.of_nat (length l)) +:+ " and " +:+
              to_string (Z.of_nat amount_size) +:+ ".")).
Proof.
  intros Hhas Harr Hlen. unfold get_amount. rewrite Hhas, Harr. simpl.
  unfold Size. simpl.
  destruct (length l =? amount_size)%nat eqn:E; [|reflexivity].
  apply Nat.eqb_eq in E. contradiction.
Qed.

(* ===================================================================== *)
(** * Vehicles *)

Lemma get_break_Ok b amount_size br :
  get_break b amount_size = Ok br ->
  check_id b "break" = Ok tt /\
  get_time_windows b = Ok (break_tws br) /\
  amount_of_size amount_size b "max_load" /\
  (if HasMember b "max_load"
   then exists a, get_amount b "max_load" amount_size = Ok a /\
                  break_max_load br = Some a
   else break_max_load br = None).
Proof.
  unfold get_break. intros H.
  apply bind_Ok in H as ([] & Hid & H).
  apply bind_Ok in H as (max_load & Hmax & H).
  apply bind_Ok in H as (tws & Htws & H).
  binds_inv H. injection H as <-. simpl.
  split; [assumption|]. split; [assumption|]. split.
  - intros Hhas. rewrite Hhas in Hmax.
    apply bind_Ok in Hmax as (a & Ha & _).
    exact (get_amount_Ok_size _ _ _ _ Ha Hhas).
  - destruct (HasMember b "max_load").
    + apply bind_Ok in Hmax as (a & Ha & [= <-]). eauto.
    + congruence.
Qed.

Lemma get_vehicle_breaks_Ok v amount_size breaks b :
  get_vehicle_breaks v amount_size = Ok breaks ->
  HasMember v "breaks" = true ->
  b ∈ GetArray v.["breaks"] ->
  exists br, get_break b amount_size = Ok br.
Proof.
  unfold get_vehicle_breaks. intros H Hhas Hb.
  apply bind_Ok in H as (breaks0 & H0 & _). rewrite Hhas in H0.
  destruct (negb (IsArray v.["breaks"])); [discriminate|].
  apply mapM_Ok_Forall2 in H0.
  apply list_elem_of_lookup in Hb as [i Hi].
  destruct (Forall2_lookup_l _ _ _ _ _ H0 Hi) as (br & _ & Hbr). eauto.
Qed.

Lemma get_vehicle_Ok json_vehicle amount_size tw v :
  get_vehicle json_vehicle amount_size tw = Ok v ->
  check_id json_vehicle "vehicle" = Ok tt /\
  vehicle_id v = GetUint64 json_vehicle.["id"] /\
  vehicle_tw v = tw /\
  get_amount json_vehicle "capacity" amount_size = Ok (vehicle_capacity v) /\
  get_vehicle_breaks json_vehicle amount_size = Ok (vehicle_breaks v).
Proof.
  unfold get_vehicle. intros H.
  apply bind_Ok in H as ([] & Hid & H).
  destruct (_ && _); [discriminate|].
  apply bind_Ok in H as (start & _ & H).
  destruct (_ && _); [discriminate|].
  apply bind_Ok in H as (end_ & _ & H).
  apply bind_Ok in H as (profile & _ & H).
  apply bind_Ok in H as (capacity & Hcapacity & H).
  apply bind_Ok in H as (skills & _ & H).
  apply bind_Ok in H as (breaks & Hbreaks & H).
  binds_inv H. injection H as <-. simpl. auto.
Qed.

(** [get_vehicle] only stores the time window it is given. *)
Lemma get_vehicle_with_tw json_vehicle amount_size tw tw' v :
  get_vehicle json_vehicle amount_size tw = Ok v ->
  get_vehicle json_vehicle amount_size tw' = Ok (with_tw tw' v).
Proof.
  unfold get_vehicle. intros H.
  repeat match type of H with
         | (if ?c then _ else _) = Ok _ =>
             destruct c; [discriminate H|]
         | mbind _ ?m = Ok _ =>
             destruct m; simpl in H |- *; [|discriminate H]
         end.
  injection H as <-. reflexivity.
Qed.

Lemma parse_vehicle_Ok amount_size input json_vehicle input' :
  parse_vehicle amount_size input json_vehicle = Ok input' ->
  exists vs,
    vehicle_added amount_size json_vehicle vs /\
    input' = add_vehicles vs input.
Proof.
  unfold parse_vehicle, vehicle_added. intros H.
  apply bind_Ok in H as ([] & _ & H).
  destruct (HasMember json_vehicle "time_windows"); simpl in H.
  - apply bind_Ok in H as (tws & Htws & H).
    apply bind_Ok in H as ([] & _ & H).
    apply bind_Ok in H as ([] & _ & H).
    apply (for_each_Forall2 _
             (fun tw v => get_vehicle json_vehicle amount_size tw = Ok v)
             add_vehicle) in H.
    + destruct H as (vs & Hvs & ->). exists vs. eauto.
    + intros s tw s' Hs. apply bind_Ok in Hs as (v & Hv & [= <-]). eauto.
  - apply bind_Ok in H as (tw & Htw & H).
    apply bind_Ok in H as (v & Hv & [= <-]).
    exists [v]. split; [eauto|reflexivity].
Qed.

Lemma vehicle_added_get_vehicle amount_size json_vehicle vs :
  vehicle_added amount_size json_vehicle vs ->
  exists tw v, get_vehicle json_vehicle amount_size tw = Ok v.
Proof.
  unfold vehicle_added.
  destruct (HasMember json_vehicle "time_windows") eqn:Hhas.
  - intros (tws & Htws & Hvs).
    apply get_time_windows_Ok_length in Htws as [_ Hne]; [|assumption].
    destruct Hvs as [|tw v]; [done|eauto].
  - intros (tw & v & _ & Hv & _). eauto.
Qed.

(* ===================================================================== *)
(** * Jobs and shipments *)

Lemma parse_job_Ok amount_size input json_job input' :
  parse_job amount_size input json_job = Ok input' ->
  exists job,
    get_job json_job amount_size = Ok job /\ input' = add_job job input.
Proof.
  unfold parse_job. intros H.
  apply bind_Ok in H as (job & Hjob & [= <-]). eauto.
Qed.

Lemma get_job_Ok json_job amount_size job :
  get_job json_job amount_size = Ok job ->
  check_id json_job "job" = Ok tt /\
  (exists loc, get_task_location json_job "job" = Ok loc) /\
  (exists a, get_amount json_job
               (if need_amount_compat json_job then "amount" else "delivery")
               amount_size = Ok a) /\
  (exists a, get_amount json_job "pickup" amount_size = Ok a) /\
  get_time_windows json_job = Ok (job_tws job).
Proof.
  unfold get_job. intros H.
  apply bind_Ok in H as ([] & Hid & H).
  apply bind_Ok in H as (loc & Hloc & H).
  bind_inv H. bind_inv H. bind_inv H.
  apply bind_Ok in H as (delivery & Hdelivery & H).
  apply bind_Ok in H as (pickup & Hpickup & H).
  bind_inv H. bind_inv H.
  apply bind_Ok in H as (tws & Htws & H).
  bind_inv H. injection H as <-. simpl.
  repeat split; eauto.
  exists delivery. now destruct (need_amount_compat json_job).
Qed.

Lemma parse_shipment_Ok amount_size input json_shipment input' :
  parse_shipment amount_size input json_shipment = Ok input' ->
  exists pd,
    shipment_added amount_size json_shipment pd /\
    input' = add_shipment pd.1 pd.2 input.
Proof.
  unfold parse_shipment. intros H.
  apply bind_Ok in H as ([] & Hcheck & H).
  apply bind_Ok in H as (amount & Hamount & H).
  apply bind_Ok in H as (skills & Hskills & H).
  apply bind_Ok in H as (priority & Hpriority & H).
  apply bind_Ok in H as ([] & Hpid & H).
  apply bind_Ok in H as (p_location & ? & H).
  apply bind_Ok in H as (p_setup & ? & H).
  apply bind_Ok in H as (p_service & ? & H).
  apply bind_Ok in H as (p_spvt & ? & H).
  apply bind_Ok in H as (p_tws & ? & H).
  apply bind_Ok in H as (p_description & ? & H).
  apply bind_Ok in H as ([] & Hdid & H).
  apply bind_Ok in H as (d_location & ? & H).
  apply bind_Ok in H as (d_setup & ? & H).
  apply bind_Ok in H as (d_service & ? & H).
  apply bind_Ok in H as (d_spvt & ? & H).
  apply bind_Ok in H as (d_tws & ? & H).
  apply bind_Ok in H as (d_description & ? & H).
  injection H as <-.
  eexists (_, _). split; [|reflexivity].
  unfold shipment_added, shipment_fields, task_fields. simpl.
  repeat split; eauto.
Qed.

(* ===================================================================== *)
(** * What a successful run of [parse] has done *)

Lemma no_nonempty_array doc key :
  HasMember doc key && IsArray doc.[key] && negb (Empty doc.[key]) = false ->
  GetArray doc.[key] = [].
Proof.
  unfold HasMember, member, Empty.
  destruct (FindMember (GetObject doc) key) as [v|]; simpl; [|reflexivity].
  destruct v as [| | | |[|x l]|]; simpl; try reflexivity. discriminate.
Qed.

Lemma guarded_for_each_Forall2 {S A B} (body : S -> A -> result S)
    (R : A -> B -> Prop) (step : B -> S -> S) (guard : bool) l s s' :
  (forall s x s', body s x = Ok s' -> exists b, R x b /\ s' = step b s) ->
  (guard = false -> l = []) ->
  (if guard then for_each body s l else Ok s) = Ok s' ->
  exists bs, Forall2 R l bs /\ s' = foldl (fun s b => step b s) s bs.
Proof.
  intros Hbody Hguard H. destruct guard.
  - now apply (for_each_Forall2 body R step Hbody).
  - injection H as <-. rewrite Hguard by reflexivity.
    exists []. split; [constructor|reflexivity].
Qed.

Lemma parse_tasks_Ok input doc geometry input' :
  parse_tasks input doc geometry = Ok input' ->
  exists vss js pds,
    let n := first_vehicle_amount_size (element doc.["vehicles"] 0) in
    Forall2 (vehicle_added n) (GetArray doc.["vehicles"]) vss /\
    Forall2 (fun j job => get_job j n = Ok job) (GetArray doc.["jobs"]) js /\
    Forall2 (shipment_added n) (GetArray doc.["shipments"]) pds /\
    input' = {| amount_size := n; geometry := geometry;
                vehicles := vehicles input ++ concat vss;
                jobs := jobs input ++ js;
                shipments := shipments input ++ pds;
                durations_matrices := durations_matrices input;
                distances_matrices := distances_matrices input;
                costs_matrices := costs_matrices input |}.
Proof.
  unfold parse_tasks. intros H.
  apply bind_Ok in H as ([] & _ & H).
  destruct (negb (has_jobs doc) && negb (has_shipments doc));
    [discriminate|].
  destruct (_ || _); [discriminate|].
  apply bind_Ok in H as ([] & _ & H).
  set (n := first_vehicle_amount_size (element doc.["vehicles"] 0)) in *.
  apply bind_Ok in H as (input1 & Hvehicles & H).
  apply bind_Ok in H as (input2 & Hjobs & H).
  apply (for_each_Forall2 _ (vehicle_added n) add_vehicles) in Hvehicles;
    [|apply parse_vehicle_Ok].
  destruct Hvehicles as (vss & Hvss & ->).
  apply (guarded_for_each_Forall2 _ (fun j job => get_job j n = Ok job)
           add_job) in Hjobs;
    [|apply parse_job_Ok|apply no_nonempty_array].
  destruct Hjobs as (js & Hjs & ->).
  apply (guarded_for_each_Forall2 _ (shipment_added n)
           (fun pd => add_shipment pd.1 pd.2)) in H;
    [|apply parse_shipment_Ok|apply no_nonempty_array].
  destruct H as (pds & Hpds & ->).
  exists vss, js, pds. repeat split; try assumption.
  rewrite foldl_add_shipment_fields, foldl_add_job_fields,
    foldl_add_vehicles_fields, add_vehicles_fields.
  reflexivity.
Qed.

Lemma parse_matrices_entry_fields input entry input' :
  parse_matrices_entry input entry = Ok input' ->
  amount_size input' = amount_size input /\
  geometry input' = geometry input /\
  vehicles input' = vehicles input /\
  jobs input' = jobs input /\
  shipments input' = shipments input.
Proof.
  unfold parse_matrices_entry. intros H.
  destruct (IsObject entry.2); [|injection H as <-; auto].
  apply bind_Ok in H as (input1 & H1 & H).
  apply bind_Ok in H as (input2 & H2 & H).
  assert (E1 : amount_size input1 = amount_size input /\
               geometry input1 = geometry input /\
               vehicles input1 = vehicles input /\
               jobs input1 = jobs input /\
               shipments input1 = shipments input).
  { destruct (HasMember entry.2 "durations"); [|injection H1 as <-; auto].
    apply bind_Ok in H1 as (m & _ & [= <-]). simpl. auto. }
  assert (E2 : amount_size input2 = amount_size input1 /\
               geometry input2 = geometry input1 /\
               vehicles input2 = vehicles input1 /\
               jobs input2 = jobs input1 /\
               shipments input2 = shipments input1).
  { destruct (HasMember entry.2 "distances"); [|injection H2 as <-; auto].
    apply bind_Ok in H2 as (m & _ & [= <-]). simpl. auto. }
  assert (E3 : amount_size input' = amount_size input2 /\
               geometry input' = geometry input2 /\
               vehicles input' = vehicles input2 /\
               jobs input' = jobs input2 /\
               shipments input' = shipments input2).
  { destruct (HasMember entry.2 "costs"); [|injection H as <-; auto].
    apply bind_Ok in H as (m & _ & [= <-]). simpl. auto. }
  destruct E1 as (? & ? & ? & ? & ?), E2 as (? & ? & ? & ? & ?),
    E3 as (? & ? & ? & ? & ?).
  repeat split; congruence.
Qed.

Lemma parse_matrices_fields input doc input' :
  parse_matrices input doc = Ok input' ->
  amount_size input' = amount_size input /\
  geometry input' = geometry input /\
  vehicles input' = vehicles input /\
  jobs input' = jobs input /\
  shipments input' = shipments input.
Proof.
  unfold parse_matrices. intros H.
  destruct (HasMember doc "matrices").
  - destruct (negb _); [discriminate|].
    revert input H. generalize (GetObject doc.["matrices"]).
    induction l as [|entry l IH]; simpl; intros input H.
    + injection H as <-. auto.
    + apply bind_Ok in H as (input1 & H1 & H).
      apply parse_matrices_entry_fields in H1 as (? & ? & ? & ? & ?).
      apply IH in H as (? & ? & ? & ? & ?). repeat split; congruence.
  - destruct (HasMember doc "matrix"); [|injection H as <-; auto].
    apply bind_Ok in H as (m & _ & [= <-]). simpl. auto.
Qed.

Lemma parse_Ok input doc geometry input' :
  parse input (Document doc) geometry = Ok input' ->
  exists vss js pds,
    let n := first_vehicle_amount_size (element doc.["vehicles"] 0) in
    Forall2 (vehicle_added n) (GetArray doc.["vehicles"]) vss /\
    Forall2 (fun j job => get_job j n = Ok job) (GetArray doc.["jobs"]) js /\
    Forall2 (shipment_added n) (GetArray doc.["shipments"]) pds /\
    amount_size input' = n /\
    vehicles input' = vehicles input ++ concat vss /\
    jobs input' = jobs input ++ js /\
    shipments input' = shipments input ++ pds.
Proof.
  unfold parse. intros H.
  apply bind_Ok in H as (input1 & Htasks & H).
  apply parse_tasks_Ok in Htasks as (vss & js & pds & Hvss & Hjs & Hpds & ->).
  apply parse_matrices_fields in H as (? & ? & ? & ? & ?). simpl in *.
  exists vss, js, pds. repeat split; assumption.
Qed.

(* ===================================================================== *)
(** * Vehicles with several time windows *)

Lemma vehicle_added_expansion amount_size json_vehicle vs :
  vehicle_added amount_size json_vehicle vs ->
  vehicle_expansion json_vehicle vs.
Proof.
  unfold vehicle_added, vehicle_expansion.
  destruct (HasMember json_vehicle "time_windows") eqn:Hhas.
  - intros (tws & Htws & Hvs).
    destruct (get_time_windows_Ok_length _ _ Htws Hhas) as [Hlen Hne].
    pose proof (get_time_windows_Ok _ _ Htws) as Hsorted.
    rewrite Hhas in Hsorted. destruct Hsorted as (tws0 & Htws0 & Heq & _).
    split.
    + clear -Hvs. induction Hvs as [|tw v tws vs Hv _ IH]; constructor; auto.
      now apply get_vehicle_Ok in Hv as (_ & Hid & _).
    + destruct Hvs as [|tw0 v0 tws vs Hv0 Hvs]; [done|].
      exists tws0, v0. split; [assumption|].
      assert (Hmap : v0 :: vs = (fun tw => with_tw tw v0) <$> (tw0 :: tws)).
      { simpl. f_equal.
        - apply (get_vehicle_with_tw _ _ _ tw0) in Hv0 as Hv0'.
          rewrite Hv0 in Hv0'. congruence.
        - clear -Hv0 Hvs. induction Hvs as [|tw v tws vs Hv _ IH];
            simpl; [reflexivity|].
          f_equal; [|assumption].
          apply (get_vehicle_with_tw _ _ _ tw) in Hv0.
          rewrite Hv in Hv0. congruence. }
      rewrite <- Heq. split; [|assumption].
      rewrite <- Hlen, Hmap. now rewrite length_fmap.
  - intros (tw & v & Htw & Hv & ->).
    apply get_vehicle_Ok in Hv as (_ & Hid & Htwv & _). subst tw.
    split; [now repeat constructor|].
    exists v. split; [reflexivity|].
    unfold get_vehicle_time_window in Htw.
    destruct (HasMember json_vehicle "time_window"); congruence.
Qed.

(** C2: on a successful run the vehicles of the [Input] are extended, in
    the order of the [vehicles] array, by the expansion of each vehicle
    object: one vehicle per window of its [time_windows], all with its id
    and equal apart from the window; or, without a [time_windows] key, a
    single vehicle with its [time_window] or the default window. *)
Theorem parse_expands_time_windows (input : Input) (doc : Value)
    (geometry : bool) (input' : Input) :
  parse input (Document doc) geometry = Ok input' ->
  exists vss,
    vehicles input' = vehicles input ++ concat vss /\
    Forall2 vehicle_expansion (GetArray doc.["vehicles"]) vss.
Proof.
  intros H.
  apply parse_Ok in H as (vss & js & pds & Hvss & _ & _ & _ & Hv & _).
  exists vss. split; [assumption|].
  eapply Forall2_impl; [exact Hvss|].
  intros json_vehicle vs. apply vehicle_added_expansion.
Qed.

Lemma parse_expands_time_windows_witness :
  parse Input_empty (Document sample_vehicles) false
    = Ok sample_vehicles_parsed /\
  length (vehicles sample_vehicles_parsed) = 4%nat /\
  exists vss,
    vehicles sample_vehicles_parsed = vehicles Input_empty ++ concat vss /\
    Forall2 vehicle_expansion (GetArray sample_vehicles.["vehicles"]) vss.
Proof.
  split; [vm_compute; reflexivity|]. split; [reflexivity|].
  apply (parse_expands_time_windows Input_empty sample_vehicles false
           sample_vehicles_parsed).
  vm_compute; reflexivity.
Defined.

(* ===================================================================== *)
(** * Shipments *)

(** C7: on a successful run the shipments of the [Input] are extended, in
    the order of the [shipments] array, by one pickup and delivery pair
    per shipment object; the two jobs carry the same amount, skills and
    priority, read from the shipment object, while id, location, setup,
    service, time windows and description of each are read from its own
    sub-object. *)
Theorem parse_shipment_jobs (input : Input) (doc : Value) (geometry : bool)
    (input' : Input) :
  parse input (Document doc) geometry = Ok input' ->
  exists pds,
    shipments input' = shipments input ++ pds /\
    Forall2
      (fun json_shipment pd =>
         job_amounts pd.1 = job_amounts pd.2 /\
         job_skills pd.1 = job_skills pd.2 /\
         job_priority pd.1 = job_priority pd.2 /\
         shipment_fields (amount_size input') json_shipment pd.1 /\
         shipment_fields (amount_size input') json_shipment pd.2 /\
         task_fields "pickup" json_shipment.["pickup"] pd.1 /\
         task_fields "delivery" json_shipment.["delivery"] pd.2)
      (GetArray doc.["shipments"]) pds.
Proof.
  intros H.
  apply parse_Ok in H as (vss & js & pds & _ & _ & Hpds & Hn & _ & _ & Hs).
  exists pds. split; [assumption|].
  eapply Forall2_impl; [exact Hpds|].
  intros json_shipment [p d]. rewrite Hn. unfold shipment_added. simpl.
  intros (_ & _ & _ & _ & _ & Hp & Hd & Htp & Htd).
  assert (Hamounts : job_amounts p = job_amounts d).
  { destruct Hp as ((a & Ha & ->) & _), Hd as ((a' & Ha' & ->) & _).
    congruence. }
  assert (Hskills : job_skills p = job_skills d).
  { destruct Hp as (_ & Hp & _), Hd as (_ & Hd & _). congruence. }
  assert (Hpriority : job_priority p = job_priority d).
  { destruct Hp as (_ & _ & Hp), Hd as (_ & _ & Hd). congruence. }
  exact (conj Hamounts (conj Hskills (conj Hpriority
           (conj Hp (conj Hd (conj Htp Htd)))))).
Qed.

Lemma parse_shipment_jobs_witness :
  parse Input_empty (Document sample_shipment) false
    = Ok sample_shipment_parsed /\
  exists pds,
    shipments sample_shipment_parsed = shipments Input_empty ++ pds /\
    Forall2
      (fun json_shipment pd =>
         job_amounts pd.1 = job_amounts pd.2 /\
         job_skills pd.1 = job_skills pd.2 /\
         job_priority pd.1 = job_priority pd.2 /\
         shipment_fields (amount_size sample_shipment_parsed)
                         json_shipment pd.1 /\
         shipment_fields (amount_size sample_shipment_parsed)
                         json_shipment pd.2 /\
         task_fields "pickup" json_shipment.["pickup"] pd.1 /\
         task_fields "delivery" json_shipment.["delivery"] pd.2)
      (GetArray sample_shipment.["shipments"]) pds.
Proof.
  split; [vm_compute; reflexivity|].
  apply (parse_shipment_jobs Input_empty sample_shipment false
           sample_shipment_parsed).
  vm_compute; reflexivity.
Defined.

(* ===================================================================== *)
(** * Objects reached by a successful run *)

Lemma elem_of_member_HasMember x o key :
  x ∈ GetArray o.[key] -> HasMember o key = true.
Proof.
  unfold member, HasMember.
  destruct (FindMember (GetObject o) key); [reflexivity|].
  simpl. intros H. now apply elem_of_nil in H.
Qed.

Lemma Forall2_elem_of_l {A B} (R : A -> B -> Prop) l k x :
  Forall2 R l k -> x ∈ l -> exists y, R x y.
Proof.
  intros H Hx. apply list_elem_of_lookup in Hx as [i Hi].
  destruct (Forall2_lookup_l _ _ _ _ _ H Hi) as (y & _ & Hy). eauto.
Qed.

Lemma parse_Ok_vehicle input doc geometry input' v :
  parse input (Document doc) geometry = Ok input' ->
  v ∈ GetArray doc.["vehicles"] ->
  exists vs, vehicle_added (amount_size input') v vs.
Proof.
  intros H Hv.
  apply parse_Ok in H as (vss & js & pds & Hvss & _ & _ & Hn & _).
  rewrite Hn. now apply (Forall2_elem_of_l _ _ _ _ Hvss).
Qed.

Lemma parse_Ok_job input doc geometry input' j :
  parse input (Document doc) geometry = Ok input' ->
  j ∈ GetArray doc.["jobs"] ->
  exists job, get_job j (amount_size input') = Ok job.
Proof.
  intros H Hj.
  apply parse_Ok in H as (vss & js & pds & _ & Hjs & _ & Hn & _).
  rewrite Hn. now apply (Forall2_elem_of_l _ _ _ _ Hjs).
Qed.

Lemma parse_Ok_shipment input doc geometry input' s :
  parse input (Document doc) geometry = Ok input' ->
  s ∈ GetArray doc.["shipments"] ->
  exists pd, shipment_added (amount_size input') s pd.
Proof.
  intros H Hs.
  apply parse_Ok in H as (vss & js & pds & _ & _ & Hpds & Hn & _).
  rewrite Hn. now apply (Forall2_elem_of_l _ _ _ _ Hpds).
Qed.

Lemma parse_Ok_break input doc geometry input' v b :
  parse input (Document doc) geometry = Ok input' ->
  v ∈ GetArray doc.["vehicles"] ->
  b ∈ GetArray v.["breaks"] ->
  exists br, get_break b (amount_size input') = Ok br.
Proof.
  intros H Hv Hb.
  destruct (parse_Ok_vehicle _ _ _ _ _ H Hv) as (vs & Hvs).
  apply vehicle_added_get_vehicle in Hvs as (tw & veh & Hveh).
  apply get_vehicle_Ok in Hveh as (_ & _ & _ & _ & Hbreaks).
  eapply get_vehicle_breaks_Ok; eauto using elem_of_member_HasMember.
Qed.

Lemma first_vehicle_amount_size_length first_vehicle :
  first_vehicle_amount_size first_vehicle
  = length (GetArray first_vehicle.["capacity"]).
Proof.
  unfold first_vehicle_amount_size, first_vehicle_has_capacity, HasMember,
    member, Size.
  destruct (FindMember (GetObject first_vehicle) "capacity") as [c|]; simpl;
    [|reflexivity].
  destruct c as [| | | |[|x l]|]; reflexivity.
Qed.

(* ===================================================================== *)
(** * The dimensionality of amounts *)

(** C3, as the code has it: [get_amount] raises an [InputException] whose
    message names both lengths when the array under its key has another
    length than the dimensionality, and returns the zero vector of that
    dimensionality when the key is absent (a break without [max_load] gets
    no [max_load] at all).  On a successful run the dimensionality is the
    length of the [capacity] array of the first vehicle (0 without a
    nonempty array there), and every array [parse] reads has that length:
    the [capacity] of each vehicle, the [max_load] of each break, the
    [delivery] and [pickup] of each job, the [amount] of a job that has
    neither [delivery] nor [pickup], the [amount] of each shipment. *)
Theorem amount_dimension (input : Input) (doc : Value) (geometry : bool) :
  (forall o key n l,
     HasMember o key = true -> o.[key] = kArray l -> length l <> n ->
     get_amount o key n
     = Throw (InputException
                ("Inconsistent " +:+ key +:+ " length: " +:+
                 to_string (Z.of_nat (length l)) +:+ " and " +:+
                 to_string (Z.of_nat n) +:+ "."))) /\
  (forall o key n,
     HasMember o key = false -> get_amount o key n = Ok (replicate n 0)) /\
  (forall b n br,
     get_break b n = Ok br -> HasMember b "max_load" = false ->
     break_max_load br = None) /\
  forall input',
    parse input (Document doc) geometry = Ok input' ->
    let n := amount_size input' in
    n = length (GetArray (element doc.["vehicles"] 0).["capacity"]) /\
    (forall v, v ∈ GetArray doc.["vehicles"] ->
       amount_of_size n v "capacity") /\
    (forall v b, v ∈ GetArray doc.["vehicles"] -> b ∈ GetArray v.["breaks"] ->
       amount_of_size n b "max_load") /\
    (forall j, j ∈ GetArray doc.["jobs"] ->
       amount_of_size n j "delivery" /\
       amount_of_size n j "pickup" /\
       (HasMember j "delivery" = false -> HasMember j "pickup" = false ->
        amount_of_size n j "amount")) /\
    (forall s, s ∈ GetArray doc.["shipments"] ->
       amount_of_size n s "amount").
Proof.
  split; [intros; now apply get_amount_inconsistent|].
  split; [intros; now apply get_amount_absent|].
  split.
  { intros b n br Hbr Hhas. apply get_break_Ok in Hbr as (_ & _ & _ & H).
    now rewrite Hhas in H. }
  intros input' H n. subst n.
  split.
  { pose proof H as H'.
    apply parse_Ok in H' as (vss & js & pds & _ & _ & _ & Hn & _).
    rewrite Hn. apply first_vehicle_amount_size_length. }
  split.
  { intros v Hv. destruct (parse_Ok_vehicle _ _ _ _ _ H Hv) as (vs & Hvs).
    apply vehicle_added_get_vehicle in Hvs as (tw & veh & Hveh).
    apply get_vehicle_Ok in Hveh as (_ & _ & _ & Hcapacity & _).
    now apply get_amount_Ok_size in Hcapacity. }
  split.
  { intros v b Hv Hb.
    destruct (parse_Ok_break _ _ _ _ _ _ H Hv Hb) as (br & Hbr).
    now apply get_break_Ok in Hbr as (_ & _ & Hmax & _). }
  split.
  { intros j Hj. destruct (parse_Ok_job _ _ _ _ _ H Hj) as (job & Hjob).
    apply get_job_Ok in Hjob
      as (_ & _ & (delivery & Hdelivery) & (pickup & Hpickup) & _).
    apply get_amount_Ok_size in Hdelivery, Hpickup.
    unfold need_amount_compat in Hdelivery.
    split; [|split; [assumption|]].
    - intros Hhas. rewrite Hhas, andb_false_r in Hdelivery. auto.
    - intros Hd Hp Hhas. rewrite Hhas, Hd, Hp in Hdelivery. auto. }
  intros s Hs. destruct (parse_Ok_shipment _ _ _ _ _ H Hs) as (pd & Hpd).
  destruct Hpd as (_ & _ & _ & _ & _ & ((a & Ha & _) & _) & _).
  now apply get_amount_Ok_size in Ha.
Qed.

Lemma amount_dimension_witness :
  parse Input_empty (Document sample_amounts) false
    = Ok sample_amounts_parsed /\
  amount_size sample_amounts_parsed = 1%nat /\
  (forall v, v ∈ GetArray sample_amounts.["vehicles"] ->
     amount_of_size 1 v "capacity") /\
  (forall s, s ∈ GetArray sample_amounts.["shipments"] ->
     amount_of_size 1 s "amount").
Proof.
  split; [vm_compute; reflexivity|].
  destruct (amount_dimension Input_empty sample_amounts false)
    as (_ & _ & _ & H).
  destruct (H sample_amounts_parsed) as (Hn & Hv & _ & _ & Hs);
    [vm_compute; reflexivity|].
  split; [reflexivity|]. split; [exact Hv|exact Hs].
Defined.

(** C3 as stated fails: the [amount] array of a job that also has a
    [delivery] key is not read; here it has three elements, the
    dimensionality is one, and ingestion succeeds. *)
Lemma job_amount_of_other_length_accepted :
  sample_job_amount_and_delivery ∈ GetArray sample_amounts.["jobs"] /\
  sample_job_amount_and_delivery.["amount"] = uints [1; 2; 3] /\
  exists input',
    parse Input_empty (Document sample_amounts) false = Ok input' /\
    amount_size input' = 1%nat /\
    length (GetArray (element sample_amounts.["vehicles"] 0).["capacity"])
      = 1%nat.
Proof.
  split; [apply list_elem_of_here|]. split; [reflexivity|].
  exists sample_amounts_parsed.
  split; [vm_compute; reflexivity|]. split; reflexivity.
Qed.

(* ===================================================================== *)
(** * Malformed time windows *)

Lemma get_time_windows_Ok_well_formed o tws :
  get_time_windows o = Ok tws -> ~ has_malformed_time_windows o.
Proof.
  intros H (tw & Htw & Hbad).
  eapply get_time_windows_Ok_windows; eauto using elem_of_member_HasMember.
Qed.

Lemma get_time_window_malformed tw :
  start_exceeds_end tw ->
  exists message, get_time_window tw = Throw (InputException message).
Proof.
  intros (s & e & rest & -> & Hlt).
  unfold get_time_window, TimeWindow_make.
  destruct (_ || _); [eauto|]. simpl.
  destruct (e <? s) eqn:E; [eauto|]. apply Z.ltb_ge in E. lia.
Qed.

Lemma for_each_Forall2_eq {S A} (body : S -> A -> result S) (l l' : list A) :
  Forall2 (fun x y => forall s, body s x = body s y) l l' ->
  forall s, for_each body s l = for_each body s l'.
Proof.
  induction 1 as [|x y l l' Hxy _ IH]; intros s; simpl; [reflexivity|].
  rewrite Hxy. destruct (body s y); simpl; [apply IH|reflexivity].
Qed.

Lemma for_each_ext {S A} (body body' : S -> A -> result S) (l : list A) :
  (forall s x, body s x = body' s x) ->
  forall s, for_each body s l = for_each body' s l.
Proof.
  intros Hbody. induction l as [|x l IH]; intros s; simpl; [reflexivity|].
  rewrite Hbody. destruct (body' s x); simpl; [apply IH|reflexivity].
Qed.

Lemma get_vehicle_same_but_time_window a b amount_size tw :
  same_but "time_window" a b ->
  get_vehicle a amount_size tw = get_vehicle b amount_size tw.
Proof.
  intros H.
  unfold get_vehicle, check_id, parse_coordinates, get_string,
    get_amount, get_skills, get_vehicle_breaks, get_vehicle_costs,
    get_double, get_optional_string, get_value_for, get_vehicle_steps,
    get_vehicle_step.
  rewrite (same_but_IsObject _ _ _ H).
  rewrite !(same_but_HasMember _ _ _ _ H) by done.
  rewrite !(same_but_member _ _ _ _ H) by done.
  reflexivity.
Qed.

(** The body of the loop "Add all vehicles" does not read the
    [time_window] of a vehicle that has a [time_windows] key. *)
Lemma parse_vehicle_same_but_time_window amount_size input v v' :
  HasMember v "time_windows" = true ->
  same_but "time_window" v v' ->
  parse_vehicle amount_size input v = parse_vehicle amount_size input v'.
Proof.
  intros Hhas H. unfold parse_vehicle.
  rewrite <- (same_but_HasMember _ _ _ "time_windows" H) by done.
  rewrite Hhas. simpl.
  rewrite (same_but_IsObject _ _ _ H).
  assert (Htws : get_time_windows v = get_time_windows v').
  { unfold get_time_windows.
    rewrite !(same_but_HasMember _ _ _ _ H) by done.
    now rewrite !(same_but_member _ _ _ _ H) by done. }
  assert (Hid : check_id v "vehicle" = check_id v' "vehicle").
  { unfold check_id. rewrite (same_but_IsObject _ _ _ H).
    rewrite !(same_but_HasMember _ _ _ _ H) by done.
    now rewrite !(same_but_member _ _ _ _ H) by done. }
  rewrite Htws, Hid, (same_but_member _ _ _ "id" H) by done.
  destruct (assert (IsObject v')); [simpl|reflexivity].
  destruct (get_time_windows v') as [tws|]; [simpl|reflexivity].
  destruct (check_id v' "vehicle"); [simpl|reflexivity].
  destruct (check_tws _ _ _); [simpl|reflexivity].
  apply for_each_ext. intros s tw.
  now rewrite (get_vehicle_same_but_time_window v v').
Qed.

(** Two vehicle objects that [parse] treats alike: the same, or with a
    [time_windows] key and differing in their [time_window] members
    only. *)
Lemma unread_time_window_parse_vehicle amount_size v v' :
  unread_time_window v v' ->
  (forall input,
     parse_vehicle amount_size input v = parse_vehicle amount_size input v') /\
  check_id v "vehicle" = check_id v' "vehicle" /\
  first_vehicle_amount_size v = first_vehicle_amount_size v'.
Proof.
  intros [->|[Hhas H]]; [auto|].
  split; [intros input; now apply parse_vehicle_same_but_time_window|].
  unfold check_id, first_vehicle_amount_size, first_vehicle_has_capacity.
  rewrite (same_but_IsObject _ _ _ H).
  rewrite !(same_but_HasMember _ _ _ _ H) by done.
  now rewrite !(same_but_member _ _ _ _ H) by done.
Qed.

(** C4, as the code has it, the constructor of [TimeWindow] being modelled
    from the spec: [get_time_window] raises an [InputException] on a
    window whose start exceeds its end, and ingestion does not succeed on
    a document in which one of the time windows [parse] reads is such a
    window.  The [time_window] of a vehicle that also has a
    [time_windows] key is not read: [parse] has the same outcome on a
    document that differs only in the [time_window] members of vehicles
    that have a [time_windows] key. *)
Theorem malformed_time_window_rejected (input : Input) (doc : Value)
    (geometry : bool) :
  (forall tw,
     start_exceeds_end tw ->
     exists message, get_time_window tw = Throw (InputException message)) /\
  (reads_malformed_time_window doc ->
   exists e, parse input (Document doc) geometry = Throw e) /\
  (forall ms ms' vs vs',
     doc = kObject ms ->
     FindMember ms "vehicles" = Some (kArray vs) ->
     FindMember ms' "vehicles" = Some (kArray vs') ->
     (forall k, k <> "vehicles" -> FindMember ms k = FindMember ms' k) ->
     Forall2 unread_time_window vs vs' ->
     parse input (Document doc) geometry
     = parse input (Document (kObject ms')) geometry).
Proof.
  split; [apply get_time_window_malformed|]. split.
  { intros Hbad.
    destruct (parse input (Document doc) geometry) as [input'|e] eqn:H;
      [exfalso|eauto].
    destruct Hbad as [v Hv Hbad|v Hv Hnone Hbad|v b Hv Hb Hbad|j Hj Hbad
                     |s Hs Hbad|s Hs Hbad].
    - destruct (parse_Ok_vehicle _ _ _ _ _ H Hv) as (vs & Hvs).
      unfold vehicle_added in Hvs.
      destruct Hbad as (tw & Htw & Hbad).
      rewrite (elem_of_member_HasMember _ _ _ Htw) in Hvs.
      destruct Hvs as (tws & Htws & _).
      apply get_time_windows_Ok_well_formed in Htws. apply Htws.
      now exists tw.
    - destruct (parse_Ok_vehicle _ _ _ _ _ H Hv) as (vs & Hvs).
      unfold vehicle_added in Hvs. rewrite Hnone in Hvs.
      destruct Hvs as (tw & veh & Htw & _).
      unfold get_vehicle_time_window in Htw.
      destruct (HasMember v "time_window") eqn:Hhas.
      + now apply get_time_window_Ok in Htw.
      + destruct Hbad as (s & e & rest & Heq & _).
        apply HasMember_false in Hhas. unfold member in Heq.
        rewrite Hhas in Heq. discriminate.
    - destruct (parse_Ok_break _ _ _ _ _ _ H Hv Hb) as (br & Hbr).
      apply get_break_Ok in Hbr as (_ & Htws & _).
      now apply get_time_windows_Ok_well_formed in Htws.
    - destruct (parse_Ok_job _ _ _ _ _ H Hj) as (job & Hjob).
      apply get_job_Ok in Hjob as (_ & _ & _ & _ & Htws).
      now apply get_time_windows_Ok_well_formed in Htws.
    - destruct (parse_Ok_shipment _ _ _ _ _ H Hs) as (pd & Hpd).
      destruct Hpd as (_ & _ & _ & _ & _ & _ & _ & Htp & _).
      destruct Htp as (_ & _ & _ & _ & _ & Htws & _).
      now apply get_time_windows_Ok_well_formed in Htws.
    - destruct (parse_Ok_shipment _ _ _ _ _ H Hs) as (pd & Hpd).
      destruct Hpd as (_ & _ & _ & _ & _ & _ & _ & _ & Htd).
      destruct Htd as (_ & _ & _ & _ & _ & Htws & _).
      now apply get_time_windows_Ok_well_formed in Htws. }
  intros ms ms' vs vs' -> Hv Hv' Hsame Hvs. unfold parse.
  assert (Htasks : parse_tasks input (kObject ms) geometry
                   = parse_tasks input (kObject ms') geometry).
  { unfold parse_tasks, has_jobs, has_shipments, HasMember, member. simpl.
    rewrite <- (Hsame "jobs"), <- (Hsame "shipments") by done.
    rewrite Hv, Hv'. simpl.
    destruct (negb _ && negb _); [reflexivity|].
    destruct Hvs as [|v v' vs vs' Hvv' Hvs]; [reflexivity|].
    unfold Empty, element. simpl.
    destruct (unread_time_window_parse_vehicle 0 v v' Hvv')
      as (_ & Hid & Hsize).
    rewrite Hid, Hsize.
    destruct (check_id v' "vehicle"); [simpl|reflexivity].
    set (n := first_vehicle_amount_size v').
    destruct (unread_time_window_parse_vehicle n v v' Hvv') as (-> & _).
    destruct (parse_vehicle n _ v') as [input1|]; [simpl|reflexivity].
    rewrite (for_each_Forall2_eq (parse_vehicle n) vs vs'); [reflexivity|].
    eapply Forall2_impl; [exact Hvs|].
    intros x y Hxy.
    now destruct (unread_time_window_parse_vehicle n x y Hxy). }
  rewrite Htasks.
  destruct (parse_tasks input (kObject ms') geometry) as [input1|];
    [simpl|reflexivity].
  unfold parse_matrices, HasMember, member. simpl.
  now rewrite <- (Hsame "matrices"), <- (Hsame "matrix") by done.
Qed.

Lemma malformed_time_window_rejected_witness :
  reads_malformed_time_window sample_malformed_window /\
  (exists message,
     get_time_window (uints [30; 20]) = Throw (InputException message)) /\
  (exists e,
     parse Input_empty (Document sample_malformed_window) false = Throw e) /\
  start_exceeds_end sample_vehicle_both_windows.["time_window"] /\
  HasMember sample_vehicle_time_windows_only "time_window" = false /\
  parse Input_empty (Document sample_ignored_time_window) false
  = parse Input_empty
      (Document
         (kObject
            [("jobs",
              kArray [kObject [("id", num 1); ("location_index", num 0)]]);
             ("vehicles", kArray [sample_vehicle_time_windows_only])]))
      false.
Proof.
  assert (Hbad : reads_malformed_time_window sample_malformed_window).
  { apply (malformed_job_time_windows _ sample_job_malformed_window).
    - apply list_elem_of_here.
    - exists (uints [30; 20]). split.
      + apply list_elem_of_further, list_elem_of_here.
      + exists 30, 20, []. split; [reflexivity|lia]. }
  split; [exact Hbad|].
  destruct (malformed_time_window_rejected Input_empty
              sample_malformed_window false) as (Hwindow & Hparse & _).
  split; [|split; [exact (Hparse Hbad)|]].
  { apply Hwindow. exists 30, 20, []. split; [reflexivity|lia]. }
  split; [exists 5, 1, []; split; [reflexivity|lia]|].
  split; [reflexivity|].
  destruct (malformed_time_window_rejected Input_empty
              sample_ignored_time_window false) as (_ & _ & Hsame).
  eapply (Hsame (GetObject sample_ignored_time_window) _
            [sample_vehicle_both_windows]
            [sample_vehicle_time_windows_only]); try reflexivity.
  - intros k Hk. unfold sample_ignored_time_window.
    cbn [GetObject FindMember].
    destruct (String.eqb "jobs" k); [reflexivity|].
    destruct (String.eqb "vehicles" k) eqn:E; [|reflexivity].
    apply String.eqb_eq in E. congruence.
  - constructor; [|constructor]. right. split; [reflexivity|].
    intros k Hk. cbn [FindMember].
    destruct (String.eqb "id" k); [reflexivity|].
    destruct (String.eqb "time_window" k) eqn:E; [|reflexivity].
    apply String.eqb_eq in E. congruence.
Defined.

(** C4 as stated fails: the [time_window] of a vehicle that also has a
    [time_windows] key is not read; here its start exceeds its end and
    ingestion succeeds. *)
Lemma vehicle_time_window_ignored :
  sample_vehicle_both_windows
    ∈ GetArray sample_ignored_time_window.["vehicles"] /\
  start_exceeds_end sample_vehicle_both_windows.["time_window"] /\
  exists input',
    parse Input_empty (Document sample_ignored_time_window) false
      = Ok input' /\
    vehicle_tw <$> vehicles input'
      = [{| tw_start := 0; tw_end := 1000 |}].
Proof.
  split; [apply list_elem_of_here|]. split.
  - exists 5, 1, []. split; [reflexivity|lia].
  - eexists. split; [vm_compute; reflexivity|reflexivity].
Qed.

(* ===================================================================== *)
(** * Task locations *)

Lemma get_task_location_missing v type :
  HasMember v "location" = false -> HasMember v "location_index" = false ->
  get_task_location v type
  = Throw (InputException ("Invalid location for " +:+ type +:+ " " +:+
                           to_string (GetUint64 v.["id"]) +:+ ".")).
Proof.
  intros Hloc Hidx. unfold get_task_location, check_location.
  now rewrite Hloc, Hidx.
Qed.

(** C10, as the code has it: a task object (whose id has passed
    [check_id]) with neither a [location] nor a [location_index] key makes
    [get_task_location] raise an [InputException] whose message names the
    task type and the id, and ingestion does not succeed on a document
    that has such an object among its jobs or as the pickup or the
    delivery of a shipment.  With a [location_index] key holding an
    unsigned number, the location is built from the index (narrowed to
    [Index]): alone without a [location] key, and with the coordinates
    [parse_coordinates] reads when the [location] key is there too, whose
    exception is raised otherwise.  Whenever [get_task_location] returns,
    the location is one of these, or, without a [location_index] key,
    there is a [location] key and the location is built from its
    coordinates alone. *)
Theorem task_location_required (input : Input) (doc : Value)
    (geometry : bool) (v : Value) (type : string) :
  (HasMember v "location" = false -> HasMember v "location_index" = false ->
   (IsUint64 v.["id"] = true ->
    get_task_location v type
    = Throw (InputException ("Invalid location for " +:+ type +:+ " " +:+
                             to_string (GetUint64 v.["id"]) +:+ "."))) /\
   (v ∈ GetArray doc.["jobs"] \/
    (exists s, s ∈ GetArray doc.["shipments"] /\
               (v = s.["pickup"] \/ v = s.["delivery"])) ->
    exists e, parse input (Document doc) geometry = Throw e)) /\
  (HasMember v "location_index" = true ->
   IsUint v.["location_index"] = true ->
   let index := uint16_t (GetUint v.["location_index"]) in
   (HasMember v "location" = false ->
    get_task_location v type = Ok (Location_index index)) /\
   (HasMember v "location" = true ->
    (forall c,
       parse_coordinates v "location" = Ok c ->
       get_task_location v type = Ok (Location_index_coords index c)) /\
    (forall e,
       parse_coordinates v "location" = Throw e ->
       get_task_location v type = Throw e))) /\
  (forall loc,
     get_task_location v type = Ok loc ->
     if HasMember v "location_index" then
       let index := uint16_t (GetUint v.["location_index"]) in
       if HasMember v "location"
       then exists c, parse_coordinates v "location" = Ok c /\
                      loc = Location_index_coords index c
       else loc = Location_index index
     else
       HasMember v "location" = true /\
       exists c, parse_coordinates v "location" = Ok c /\
                 loc = Location_coords c).
Proof.
  split; [|split].
  - intros Hloc Hidx. split; [intros _; now apply get_task_location_missing|].
    intros Hv.
    destruct (parse input (Document doc) geometry) as [input'|e] eqn:H;
      [exfalso|eauto].
    destruct Hv as [Hj|(s & Hs & [-> | ->])].
    + destruct (parse_Ok_job _ _ _ _ _ H Hj) as (job & Hjob).
      apply get_job_Ok in Hjob as (_ & (loc & Hl) & _).
      now rewrite get_task_location_missing in Hl.
    + destruct (parse_Ok_shipment _ _ _ _ _ H Hs) as (pd & Hpd).
      destruct Hpd as (_ & _ & _ & _ & _ & _ & _ & Htp & _).
      destruct Htp as (_ & Hl & _).
      now rewrite get_task_location_missing in Hl.
    + destruct (parse_Ok_shipment _ _ _ _ _ H Hs) as (pd & Hpd).
      destruct Hpd as (_ & _ & _ & _ & _ & _ & _ & _ & Htd).
      destruct Htd as (_ & Hl & _).
      now rewrite get_task_location_missing in Hl.
  - intros Hidx Huint. unfold get_task_location. rewrite Hidx, Huint. simpl.
    split; [now intros ->|].
    intros ->. split; [now intros c ->|now intros e ->].
  - intros loc H. unfold get_task_location in H.
    destruct (HasMember v "location_index"); simpl in H.
    + destruct (negb (IsUint v.["location_index"])); [discriminate|].
      destruct (HasMember v "location").
      * apply bind_Ok in H as (c & Hc & [= <-]). eauto.
      * now injection H as <-.
    + apply bind_Ok in H as ([] & Hcheck & H).
      apply bind_Ok in H as (c & Hc & [= <-]).
      split; [|eauto]. unfold check_location in Hcheck.
      destruct (HasMember v "location"); [reflexivity|discriminate].
Qed.

Lemma task_location_required_witness :
  (get_task_location sample_job_without_location "job"
   = Throw (InputException "Invalid location for job 7.") /\
   exists e, parse Input_empty (Document sample_missing_location) false
             = Throw e) /\
  get_task_location sample_job_index_1 "job" = Ok (Location_index 1) /\
  get_task_location sample_job_index_and_location "job"
  = Ok (Location_index_coords 1 {| lon := NumInt 2; lat := NumInt 3 |}).
Proof.
  split; [|split].
  - destruct (task_location_required Input_empty sample_missing_location
                false sample_job_without_location "job") as [H _].
    destruct H as [H1 H2]; [reflexivity|reflexivity|].
    split; [exact (H1 eq_refl)|]. apply H2. left. apply list_elem_of_here.
  - destruct (task_location_required Input_empty sample_missing_location
                false sample_job_index_1 "job") as (_ & H & _).
    destruct H as [H _]; [reflexivity|reflexivity|].
    exact (H eq_refl).
  - destruct (task_location_required Input_empty sample_missing_location
                false sample_job_index_and_location "job") as (_ & H & _).
    destruct H as [_ H]; [reflexivity|reflexivity|].
    destruct (H eq_refl) as [Hc _]. apply Hc. reflexivity.
Defined.

(** C10 as stated fails: the exception [parse] raises on a document with
    a job that has neither key need not be the one naming that job.  Here
    an earlier job makes [get_duration_map] raise a [std::runtime_error]
    first; and of two such jobs only the first is named. *)
Lemma location_error_preceded :
  (sample_job_without_location
     ∈ GetArray sample_location_error_preceded.["jobs"] /\
   HasMember sample_job_without_location "location" = false /\
   HasMember sample_job_without_location "location_index" = false /\
   parse Input_empty (Document sample_location_error_preceded) false
   = Throw (runtime_error "Invalid service_per_vehicle_type duration.")) /\
  (kObject [("id", num 8)]
     ∈ GetArray sample_two_missing_locations.["jobs"] /\
   HasMember (kObject [("id", num 8)]) "location" = false /\
   HasMember (kObject [("id", num 8)]) "location_index" = false /\
   parse Input_empty (Document sample_two_missing_locations) false
   = Throw (InputException "Invalid location for job 7.")).
Proof.
  split.
  - split; [apply list_elem_of_further, list_elem_of_here|].
    split; [reflexivity|]. split; [reflexivity|].
    vm_compute; reflexivity.
  - split; [apply list_elem_of_further, list_elem_of_here|].
    split; [reflexivity|]. split; [reflexivity|].
    vm_compute; reflexivity.
Qed.

(* ===================================================================== *)
(** * Exceptions raised past the main checks *)

Create HintDb safe.

Ltac solve_safe :=
  let H := fresh "H" in
  first [ intros ? [H|H]; simpl in H; discriminate H
        | intros [H|H]; simpl in H; discriminate H ].

#[local] Hint Extern 1 (~ main_check_error (InputException _)) =>
  solve_safe : safe.
#[local] Hint Extern 1 (~ main_check_error (runtime_error _)) =>
  solve_safe : safe.
#[local] Hint Extern 1 (~ main_check_error assertion_failure) =>
  solve_safe : safe.
#[local] Hint Extern 1 (safe_prefix _) => solve_safe : safe.

Lemma Throw_inj {A} (e e' : exception) :
  @Throw A e = Throw e' -> e = e'.
Proof. congruence. Qed.

(** Case analysis of [H : ... = Throw e] along the ifs and binds of a
    definition that has been unfolded in it. *)
Ltac throw_inv H :=
  first
    [ discriminate H
    | progress cbv zeta in H; throw_inv H
    | progress unfold throw in H; throw_inv H
    | lazymatch type of H with
      | Throw _ = Throw _ => apply Throw_inj in H; try subst
      | (if ?c then _ else _) = Throw _ => destruct c; throw_inv H
      | mbind _ ?m = Throw _ =>
          let E := fresh "E" in
          destruct m eqn:E; simpl in H;
          [ throw_inv H | apply Throw_inj in H; subst; throw_inv E ]
      end
    | idtac ].

Ltac safe_throw H := throw_inv H; eauto with safe.

Lemma mapM_Throw {A B} (f : A -> result B) (l : list A) (e : exception) :
  mapM f l = Throw e -> exists x, f x = Throw e.
Proof.
  induction l as [|x l IH]; simpl; intros H; [discriminate|].
  destruct (f x) eqn:E; simpl in H.
  - destruct (mapM f l); simpl in H; [discriminate|].
    injection H as <-. auto.
  - injection H as <-. eauto.
Qed.

Lemma for_each_Throw {S A} (body : S -> A -> result S) (l : list A) (s : S)
    (e : exception) :
  for_each body s l = Throw e -> exists s' x, body s' x = Throw e.
Proof.
  revert s. induction l as [|x l IH]; simpl; intros s H; [discriminate|].
  destruct (body s x) eqn:E; simpl in H.
  - eauto.
  - injection H as <-. eauto.
Qed.

Lemma assert_safe b e : assert b = Throw e -> ~ main_check_error e.
Proof. unfold assert. intros H. safe_throw H. Qed.

Lemma parse_coordinates_safe o key e :
  parse_coordinates o key = Throw e ->
  safe_prefix ("Invalid " +:+ key) -> ~ main_check_error e.
Proof.
  unfold parse_coordinates. intros H Hkey. throw_inv H.
  apply (Hkey " array.").
Qed.

Lemma get_string_safe o key e :
  get_string o key = Throw e ->
  safe_prefix ("Invalid " +:+ key) -> ~ main_check_error e.
Proof.
  unfold get_string. intros H Hkey. throw_inv H. apply (Hkey " value.").
Qed.

Lemma get_optional_string_safe o key e :
  get_optional_string o key = Throw e ->
  safe_prefix ("Invalid " +:+ key) -> ~ main_check_error e.
Proof.
  unfold get_optional_string. intros H Hkey. throw_inv H.
  apply (Hkey " value.").
Qed.

Lemma get_double_safe o key e :
  get_double o key = Throw e ->
  safe_prefix ("Invalid " +:+ key) -> ~ main_check_error e.
Proof.
  unfold get_double. intros H Hkey. throw_inv H. apply (Hkey " value.").
Qed.

Lemma get_value_for_safe o key e :
  get_value_for o key = Throw e ->
  safe_prefix ("Invalid " +:+ key) -> ~ main_check_error e.
Proof.
  unfold get_value_for. intros H Hkey. throw_inv H. apply (Hkey " value.").
Qed.

Lemma get_duration_safe o key e :
  get_duration o key = Throw e ->
  safe_prefix ("Invalid " +:+ key) -> ~ main_check_error e.
Proof.
  unfold get_duration. intros H Hkey. throw_inv H.
  apply (Hkey " duration.").
Qed.

Lemma get_amount_loop_safe key elements e : forall i amount,
  get_amount_loop key elements i amount = Throw e ->
  safe_prefix ("Invalid " +:+ key) -> ~ main_check_error e.
Proof.
  induction elements as [|x l IH]; simpl; intros i amount H Hkey;
    [discriminate|].
  destruct (negb (IsUint x)); [|eauto].
  apply Throw_inj in H as <-. apply (Hkey " value.").
Qed.

Lemma get_amount_safe o key n e :
  get_amount o key n = Throw e ->
  safe_prefix ("Invalid " +:+ key) -> ~ main_check_error e.
Proof.
  unfold get_amount. intros H Hkey.
  destruct (HasMember o key); [|discriminate].
  destruct (negb (IsArray o.[key])).
  { apply Throw_inj in H as <-. apply (Hkey " array."). }
  destruct (negb (Size o.[key] =? n)%nat).
  { apply Throw_inj in H as <-. solve_safe. }
  eauto using get_amount_loop_safe.
Qed.

Lemma get_skills_safe o e : get_skills o = Throw e -> ~ main_check_error e.
Proof.
  unfold get_skills. intros H.
  destruct (HasMember o "skills"); [|discriminate].
  destruct (negb (IsArray o.["skills"])); [safe_throw H|].
  apply for_each_Throw in H as (s & x & H). safe_throw H.
Qed.

Lemma get_duration_map_safe o key e :
  get_duration_map o key = Throw e -> ~ main_check_error e.
Proof.
  unfold get_duration_map. intros H.
  destruct (negb (HasMember o key)); [discriminate|].
  destruct (negb (IsObject o.[key])); [safe_throw H|].
  apply for_each_Throw in H as (s & x & H). safe_throw H.
Qed.

Lemma get_priority_safe o e :
  get_priority o = Throw e -> ~ main_check_error e.
Proof. unfold get_priority. intros H. safe_throw H. Qed.

Lemma check_id_safe v type e :
  check_id v type = Throw e ->
  ~ main_check_error (InputException ("Invalid " +:+ type +:+ ".")) ->
  ~ main_check_error e.
Proof. unfold check_id. intros H Htype. safe_throw H. Qed.

Lemma check_shipment_safe v e :
  check_shipment v = Throw e -> ~ main_check_error e.
Proof. unfold check_shipment. intros H. safe_throw H. Qed.

Lemma check_location_safe v type e :
  check_location v type = Throw e -> ~ main_check_error e.
Proof. unfold check_location. intros H. safe_throw H. Qed.

Lemma check_tws_safe tws id type e :
  check_tws tws id type = Throw e -> ~ main_check_error e.
Proof. unfold check_tws. intros H. destruct tws; safe_throw H. Qed.

Lemma get_time_window_safe tw e :
  get_time_window tw = Throw e -> ~ main_check_error e.
Proof.
  unfold get_time_window, TimeWindow_make. intros H. safe_throw H.
Qed.

#[local] Hint Resolve assert_safe parse_coordinates_safe get_string_safe
  get_optional_string_safe get_double_safe get_value_for_safe
  get_duration_safe get_amount_safe get_skills_safe get_duration_map_safe
  get_priority_safe check_id_safe check_shipment_safe check_location_safe
  check_tws_safe get_time_window_safe : safe.

Lemma get_vehicle_time_window_safe v e :
  get_vehicle_time_window v = Throw e -> ~ main_check_error e.
Proof. unfold get_vehicle_time_window. intros H. safe_throw H. Qed.

Lemma get_time_windows_safe o e :
  get_time_windows o = Throw e -> ~ main_check_error e.
Proof.
  unfold get_time_windows. intros H. safe_throw H.
  apply mapM_Throw in E as (tw & E). eauto with safe.
Qed.

#[local] Hint Resolve get_vehicle_time_window_safe get_time_windows_safe
  : safe.

Lemma get_break_safe b n e :
  get_break b n = Throw e -> ~ main_check_error e.
Proof. unfold get_break. intros H. safe_throw H. Qed.

#[local] Hint Resolve get_break_safe : safe.

Lemma get_vehicle_breaks_safe v n e :
  get_vehicle_breaks v n = Throw e -> ~ main_check_error e.
Proof.
  unfold get_vehicle_breaks. intros H. safe_throw H.
  apply mapM_Throw in E as (b & E). eauto with safe.
Qed.

Lemma get_vehicle_costs_safe v e :
  get_vehicle_costs v = Throw e -> ~ main_check_error e.
Proof. unfold get_vehicle_costs. intros H. safe_throw H. Qed.

Lemma get_vehicle_step_safe v json_step e :
  get_vehicle_step v json_step = Throw e -> ~ main_check_error e.
Proof. unfold get_vehicle_step. intros H. safe_throw H. Qed.

#[local] Hint Resolve get_vehicle_breaks_safe get_vehicle_costs_safe
  get_vehicle_step_safe : safe.

Lemma get_vehicle_steps_safe v e :
  get_vehicle_steps v = Throw e -> ~ main_check_error e.
Proof.
  unfold get_vehicle_steps. intros H. safe_throw H.
  apply mapM_Throw in H as (json_step & H). eauto with safe.
Qed.

#[local] Hint Resolve get_vehicle_steps_safe : safe.

Lemma get_vehicle_safe json_vehicle n tw e :
  get_vehicle json_vehicle n tw = Throw e -> ~ main_check_error e.
Proof. unfold get_vehicle. intros H. safe_throw H. Qed.

Lemma get_task_location_safe v type e :
  get_task_location v type = Throw e -> ~ main_check_error e.
Proof. unfold get_task_location. intros H. safe_throw H. Qed.

#[local] Hint Resolve get_vehicle_safe get_task_location_safe : safe.

Lemma get_job_safe json_job n e :
  get_job json_job n = Throw e -> ~ main_check_error e.
Proof. unfold get_job. intros H. safe_throw H. Qed.

#[local] Hint Resolve get_job_safe : safe.

Lemma parse_vehicle_safe n input json_vehicle e :
  parse_vehicle n input json_vehicle = Throw e -> ~ main_check_error e.
Proof.
  unfold parse_vehicle. intros H. safe_throw H.
  apply for_each_Throw in H as (s & tw & H). safe_throw H.
Qed.

Lemma parse_job_safe n input json_job e :
  parse_job n input json_job = Throw e -> ~ main_check_error e.
Proof. unfold parse_job. intros H. safe_throw H. Qed.

Lemma parse_shipment_safe n input json_shipment e :
  parse_shipment n input json_shipment = Throw e -> ~ main_check_error e.
Proof. unfold parse_shipment. intros H. safe_throw H. Qed.

Lemma get_matrix_safe m e : get_matrix m = Throw e -> ~ main_check_error e.
Proof.
  unfold get_matrix. intros H. safe_throw H.
  apply mapM_Throw in H as (mi & H). safe_throw H.
  apply mapM_Throw in H as (x & H). safe_throw H.
Qed.

#[local] Hint Resolve parse_vehicle_safe parse_job_safe parse_shipment_safe
  get_matrix_safe : safe.

Lemma parse_matrices_entry_safe input entry e :
  parse_matrices_entry input entry = Throw e -> ~ main_check_error e.
Proof. unfold parse_matrices_entry. intros H. safe_throw H. Qed.

#[local] Hint Resolve parse_matrices_entry_safe : safe.

Lemma parse_matrices_safe input doc e :
  parse_matrices input doc = Throw e -> ~ main_check_error e.
Proof.
  unfold parse_matrices. intros H. safe_throw H.
  apply for_each_Throw in H as (s & entry & H). eauto with safe.
Qed.

(* ===================================================================== *)
(** * The main checks of [parse] *)

Lemma nonempty_array_member_spec ms key :
  HasMember (kObject ms) key && IsArray (kObject ms).[key]
    && negb (Empty (kObject ms).[key]) = true
  <-> nonempty_array_member ms key.
Proof.
  unfold nonempty_array_member, HasMember, member, Empty. simpl.
  destruct (FindMember ms key) as [v|]; simpl.
  - destruct v as [| | | |[|x l]|]; simpl; split;
      try discriminate; try (intros (? & ? & [=])); eauto.
  - split; [discriminate|intros (? & ? & [=])].
Qed.

Lemma has_jobs_spec ms :
  has_jobs (kObject ms) = true <-> nonempty_array_member ms "jobs".
Proof. apply nonempty_array_member_spec. Qed.

Lemma has_shipments_spec ms :
  has_shipments (kObject ms) = true <-> nonempty_array_member ms "shipments".
Proof. apply nonempty_array_member_spec. Qed.

Lemma vehicles_check_spec ms :
  negb (HasMember (kObject ms) "vehicles")
    || negb (IsArray (kObject ms).["vehicles"])
    || Empty (kObject ms).["vehicles"] = false
  <-> nonempty_array_member ms "vehicles".
Proof.
  rewrite <- nonempty_array_member_spec.
  destruct (HasMember _ _), (IsArray _), (Empty _); simpl; split; congruence.
Qed.

Lemma parse_tasks_safe input ms geometry e :
  has_jobs (kObject ms) || has_shipments (kObject ms) = true ->
  nonempty_array_member ms "vehicles" ->
  parse_tasks input (kObject ms) geometry = Throw e ->
  ~ main_check_error e.
Proof.
  intros Htasks Hvehicles H. unfold parse_tasks in H.
  apply vehicles_check_spec in Hvehicles. rewrite Hvehicles in H.
  replace (negb (has_jobs (kObject ms)) && negb (has_shipments (kObject ms)))
    with false in H
    by (destruct (has_jobs _), (has_shipments _); simpl in *; congruence).
  simpl in H. throw_inv H; eauto with safe;
    match goal with
    | E : for_each _ _ _ = Throw _ |- _ =>
        apply for_each_Throw in E as (? & ? & E); eauto with safe
    end.
Qed.

(** C6: on a document whose root is an object, [parse] raises
    [InputException] "Invalid jobs or shipments." when neither [jobs] nor
    [shipments] holds a nonempty array, and otherwise raises
    [InputException] "Invalid vehicles." when [vehicles] is missing, not
    an array or empty; when both checks pass, whatever [parse] raises
    afterwards is neither of these two exceptions. *)
Theorem parse_main_checks (input : Input) (ms : list (string * Value))
    (geometry : bool) :
  (~ nonempty_array_member ms "jobs" ->
   ~ nonempty_array_member ms "shipments" ->
   parse input (Document (kObject ms)) geometry
   = Throw (InputException "Invalid jobs or shipments.")) /\
  (~ nonempty_array_member ms "vehicles" ->
   exists message,
     parse input (Document (kObject ms)) geometry
     = Throw (InputException message)) /\
  (nonempty_array_member ms "jobs" \/ nonempty_array_member ms "shipments" ->
   ~ nonempty_array_member ms "vehicles" ->
   parse input (Document (kObject ms)) geometry
   = Throw (InputException "Invalid vehicles.")) /\
  (nonempty_array_member ms "jobs" \/ nonempty_array_member ms "shipments" ->
   nonempty_array_member ms "vehicles" ->
   forall e,
     parse input (Document (kObject ms)) geometry = Throw e ->
     ~ main_check_error e).
Proof.
  assert (Hnone :
            ~ nonempty_array_member ms "jobs" ->
            ~ nonempty_array_member ms "shipments" ->
            parse input (Document (kObject ms)) geometry
            = Throw (InputException "Invalid jobs or shipments.")).
  { intros Hj Hs. rewrite <- has_jobs_spec in Hj.
    rewrite <- has_shipments_spec in Hs.
    unfold parse, parse_tasks. simpl.
    destruct (has_jobs (kObject ms)); [done|].
    destruct (has_shipments (kObject ms)); [done|]. reflexivity. }
  assert (Hvehicles :
            nonempty_array_member ms "jobs"
            \/ nonempty_array_member ms "shipments" ->
            ~ nonempty_array_member ms "vehicles" ->
            parse input (Document (kObject ms)) geometry
            = Throw (InputException "Invalid vehicles.")).
  { intros Htasks Hv. rewrite <- vehicles_check_spec in Hv.
    rewrite <- has_jobs_spec, <- has_shipments_spec in Htasks.
    unfold parse, parse_tasks. simpl.
    replace (negb (has_jobs (kObject ms))
             && negb (has_shipments (kObject ms))) with false
      by (destruct Htasks as [-> | ->]; simpl;
          now rewrite ?andb_false_r).
    destruct (_ || _); [reflexivity|done]. }
  split; [exact Hnone|]. split; [|split; [exact Hvehicles|]].
  - intros Hv.
    destruct (has_jobs (kObject ms)) eqn:Hj.
    { exists "Invalid vehicles.". apply Hvehicles; [|assumption].
      left. now apply has_jobs_spec. }
    destruct (has_shipments (kObject ms)) eqn:Hs.
    { exists "Invalid vehicles.". apply Hvehicles; [|assumption].
      right. now apply has_shipments_spec. }
    exists "Invalid jobs or shipments.". apply Hnone.
    + rewrite <- has_jobs_spec. congruence.
    + rewrite <- has_shipments_spec. congruence.
  - intros Htasks Hv e H. unfold parse in H.
    rewrite <- has_jobs_spec, <- has_shipments_spec in Htasks.
    destruct (parse_tasks input (kObject ms) geometry) as [input1|e1] eqn:E;
      simpl in H.
    + now apply parse_matrices_safe in H.
    + apply Throw_inj in H as <-.
      apply (parse_tasks_safe _ _ _ _ (proj2 (orb_true_iff _ _) Htasks) Hv E).
Qed.

Lemma parse_main_checks_witness :
  parse Input_empty (Document (kObject sample_no_tasks)) false
  = Throw (InputException "Invalid jobs or shipments.") /\
  parse Input_empty (Document (kObject sample_vehicles_not_array)) false
  = Throw (InputException "Invalid vehicles.") /\
  forall e,
    parse Input_empty (Document sample_missing_location) false = Throw e ->
    ~ main_check_error e.
Proof.
  split; [|split].
  - apply (parse_main_checks Input_empty sample_no_tasks false);
      intros (x & l & [=]).
  - apply (parse_main_checks Input_empty sample_vehicles_not_array false).
    + left. now eexists _, _.
    + intros (x & l & [=]).
  - apply (parse_main_checks Input_empty
             (GetObject sample_missing_location) false).
    + left. now eexists _, _.
    + now eexists _, _.
Defined.

(* ===================================================================== *)
(** * Further properties of typedefs.h *)

Lemma scale_to_user_duration_value (d : Duration) :
  - 2 ^ 63 <= d <= 100 * UINT32_MAX ->
  scale_to_user_duration d = Ok (Z.quot d 100 mod 2 ^ 32).
Proof.
  intros Hd. unfold scale_to_user_duration.
  rewrite scale_from_user_duration_exact
    by (unfold in_uint32, UINT32_MAX; lia).
  replace (d <=? 100 * UINT32_MAX) with true by (symmetry; apply Z.leb_le; lia).
  simpl. f_equal. unfold div64, DURATION_FACTOR, UINT32_MAX in *.
  rewrite int64_t_id; [reflexivity|].
  Z.quot_rem_to_equations. lia.
Qed.

Lemma scale_to_user_cost_value (c : Cost) :
  - 2 ^ 63 <= c <= 360000 * UINT32_MAX ->
  scale_to_user_cost c = Ok (Z.quot c 360000 mod 2 ^ 32).
Proof.
  intros Hc. unfold scale_to_user_cost.
  rewrite scale_from_user_cost_exact
    by (unfold in_uint32, UINT32_MAX; lia).
  replace (c <=? 100 * 3600 * UINT32_MAX) with true
    by (symmetry; apply Z.leb_le; lia).
  simpl. f_equal. unfold div64, mul64, DURATION_FACTOR, COST_FACTOR.
  rewrite (int64_t_id (100 * 3600)) by lia.
  change (100 * 3600) with 360000. unfold UINT32_MAX in *.
  rewrite int64_t_id; [reflexivity|].
  Z.quot_rem_to_equations. lia.
Qed.

(** Scaling an internal duration or cost in the range of the user type
    back to the user unit rounds down: the result [u] is in range and the
    value lies in [[scale_from u, scale_from u + factor)]. *)
Theorem scale_to_user_rounds_down (d : Duration) (c : Cost) :
  0 <= d <= scale_from_user_duration UINT32_MAX ->
  0 <= c <= scale_from_user_cost UINT32_MAX ->
  (exists u,
     scale_to_user_duration d = Ok u /\ in_uint32 u /\
     scale_from_user_duration u <= d < scale_from_user_duration u + 100) /\
  (exists u,
     scale_to_user_cost c = Ok u /\ in_uint32 u /\
     scale_from_user_cost u <= c < scale_from_user_cost u + 360000).
Proof.
  rewrite scale_from_user_duration_exact, scale_from_user_cost_exact
    by (unfold in_uint32, UINT32_MAX; lia).
  unfold UINT32_MAX. intros Hd Hc. split.
  - exists (d / 100).
    assert (Hu : in_uint32 (d / 100)).
    { unfold in_uint32, UINT32_MAX. Z.div_mod_to_equations. lia. }
    rewrite scale_to_user_duration_value by (unfold UINT32_MAX; lia).
    rewrite Z.quot_div_nonneg by lia.
    rewrite scale_from_user_duration_exact by exact Hu.
    unfold in_uint32, UINT32_MAX in Hu.
    rewrite Z.mod_small by lia.
    split; [reflexivity|]. split; [exact Hu|].
    Z.div_mod_to_equations. lia.
  - exists (c / 360000).
    assert (Hu : in_uint32 (c / 360000)).
    { unfold in_uint32, UINT32_MAX. Z.div_mod_to_equations. lia. }
    rewrite scale_to_user_cost_value by (unfold UINT32_MAX; lia).
    rewrite Z.quot_div_nonneg by lia.
    rewrite scale_from_user_cost_exact by exact Hu.
    unfold in_uint32, UINT32_MAX in Hu.
    rewrite Z.mod_small by lia.
    split; [reflexivity|]. split; [exact Hu|].
    Z.div_mod_to_equations. lia.
Qed.

Lemma scale_to_user_rounds_down_witness :
  (exists u,
     scale_to_user_duration 12345 = Ok u /\ in_uint32 u /\
     scale_from_user_duration u <= 12345 < scale_from_user_duration u + 100) /\
  (exists u,
     scale_to_user_cost 719999 = Ok u /\ in_uint32 u /\
     scale_from_user_cost u <= 719999 < scale_from_user_cost u + 360000).
Proof.
  apply (scale_to_user_rounds_down 12345 719999); vm_compute;
    split; discriminate.
Defined.

(** The assertions of [scale_to_user_duration] and [scale_to_user_cost]
    bound the argument from above only: they fail exactly above the
    scaled maximum of the user type, and a negative argument passes and
    comes out wrapped into the unsigned user type, minus [k] units as
    [2^32 - k]. *)
Theorem scale_to_user_assertion (d : Duration) (c : Cost) (k : Z) :
  (scale_to_user_duration d = Throw assertion_failure
   <-> scale_from_user_duration UINT32_MAX < d) /\
  (scale_to_user_cost c = Throw assertion_failure
   <-> scale_from_user_cost UINT32_MAX < c) /\
  (0 < k <= UINT32_MAX ->
   scale_to_user_duration (- scale_from_user_duration k) = Ok (2 ^ 32 - k) /\
   scale_to_user_cost (- scale_from_user_cost k) = Ok (2 ^ 32 - k)).
Proof.
  split; [|split].
  - unfold scale_to_user_duration.
    destruct (d <=? scale_from_user_duration UINT32_MAX) eqn:E; simpl.
    + apply Z.leb_le in E. split; [discriminate|lia].
    + apply Z.leb_gt in E. split; [intros _; exact E|reflexivity].
  - unfold scale_to_user_cost.
    destruct (c <=? scale_from_user_cost UINT32_MAX) eqn:E; simpl.
    + apply Z.leb_le in E. split; [discriminate|lia].
    + apply Z.leb_gt in E. split; [intros _; exact E|reflexivity].
  - intros Hk.
    rewrite scale_from_user_duration_exact, scale_from_user_cost_exact
      by (unfold in_uint32; lia).
    unfold UINT32_MAX in Hk.
    rewrite scale_to_user_duration_value, scale_to_user_cost_value
      by (unfold UINT32_MAX; lia).
    split; f_equal.
    + replace (- (100 * k)) with ((- k) * 100) by lia.
      rewrite Z.quot_mul by lia.
      replace (- k) with ((2 ^ 32 - k) + (- 1) * 2 ^ 32) by lia.
      rewrite Z.mod_add by lia. apply Z.mod_small. lia.
    + replace (- (100 * 3600 * k)) with ((- k) * 360000) by lia.
      rewrite Z.quot_mul by lia.
      replace (- k) with ((2 ^ 32 - k) + (- 1) * 2 ^ 32) by lia.
      rewrite Z.mod_add by lia. apply Z.mod_small. lia.
Qed.

Lemma scale_to_user_assertion_witness :
  scale_to_user_duration (- scale_from_user_duration 1) = Ok (2 ^ 32 - 1) /\
  scale_to_user_cost (- scale_from_user_cost 1) = Ok (2 ^ 32 - 1).
Proof.
  apply (scale_to_user_assertion 0 0 1). unfold UINT32_MAX. lia.
Defined.

(** [scale_from_user_duration_map] keeps the keys of the map and scales
    the duration under each key like [scale_from_user_duration], to
    exactly 100 times a duration in the range of [UserDuration]. *)
Theorem scale_from_user_duration_map_lookup (d : gmap string Z)
    (key : string) :
  scale_from_user_duration_map d !! key
    = scale_from_user_duration <$> d !! key /\
  dom (scale_from_user_duration_map d) = dom d /\
  (forall duration,
     d !! key = Some duration -> in_uint32 duration ->
     scale_from_user_duration_map d !! key = Some (100 * duration)).
Proof.
  assert (H : scale_from_user_duration_map d = scale_from_user_duration <$> d).
  { unfold scale_from_user_duration_map.
    apply (map_fold_weak_ind
             (fun (r : gmap string Z) (m : gmap string Z) =>
                r = scale_from_user_duration <$> m)).
    - now rewrite fmap_empty.
    - intros k x m r _ ->. now rewrite fmap_insert. }
  rewrite H. split; [apply lookup_fmap|]. split; [apply dom_fmap_L|].
  intros duration Hd Hrange. rewrite lookup_fmap, Hd. simpl.
  now rewrite scale_from_user_duration_exact.
Qed.

Lemma scale_from_user_duration_map_lookup_witness :
  scale_from_user_duration_map {["van" := 300]} !! "van" = Some (100 * 300).
Proof.
  apply (scale_from_user_duration_map_lookup {["van" := 300]} "van").
  - reflexivity.
  - unfold in_uint32, UINT32_MAX. lia.
Defined.

(** With the default cost per hour, the cost of a travel time is the
    internal cost of the same number of user units: multiplying the
    internal duration of [d] seconds by [DEFAULT_COST_PER_HOUR] gives
    [scale_from_user_cost d], which scales back to [d]. *)
Theorem default_cost_per_hour_is_cost_per_second (d : UserDuration) :
  in_uint32 d ->
  mul64 DEFAULT_COST_PER_HOUR (scale_from_user_duration d)
    = scale_from_user_cost d /\
  scale_to_user_cost
    (mul64 DEFAULT_COST_PER_HOUR (scale_from_user_duration d)) = Ok d /\
  mul64 DEFAULT_COST_PER_KM (scale_from_user_duration d) = 0.
Proof.
  intros Hd.
  assert (H : mul64 DEFAULT_COST_PER_HOUR (scale_from_user_duration d)
              = scale_from_user_cost d).
  { rewrite scale_from_user_duration_exact, scale_from_user_cost_exact
      by assumption.
    unfold in_uint32, UINT32_MAX in Hd.
    unfold mul64, DEFAULT_COST_PER_HOUR. rewrite int64_t_id; lia. }
  split; [exact H|]. split.
  - rewrite H.
    rewrite scale_to_user_cost_value, scale_from_user_cost_exact
      by (rewrite ?scale_from_user_cost_exact by assumption;
          unfold in_uint32, UINT32_MAX in *; lia).
    unfold in_uint32, UINT32_MAX in Hd. f_equal.
    replace (100 * 3600 * d) with (d * 360000) by lia.
    rewrite Z.quot_mul by lia. apply Z.mod_small. lia.
  - unfold mul64, DEFAULT_COST_PER_KM. reflexivity.
Qed.

Lemma default_cost_per_hour_is_cost_per_second_witness :
  mul64 DEFAULT_COST_PER_HOUR (scale_from_user_duration 90)
    = scale_from_user_cost 90 /\
  scale_to_user_cost
    (mul64 DEFAULT_COST_PER_HOUR (scale_from_user_duration 90)) = Ok 90 /\
  mul64 DEFAULT_COST_PER_KM (scale_from_user_duration 90) = 0.
Proof.
  apply (default_cost_per_hour_is_cost_per_second 90).
  unfold in_uint32, UINT32_MAX. lia.
Defined.

(** Within [UserCost] itself, [INFINITE_USER_COST] can take an addend of
    up to 1073741826 without wrapping and wraps to 0 on the next one,
    whereas the maximum of the type wraps on every positive addend of
    the type, [c] giving [c - 1]. *)
Theorem INFINITE_USER_COST_addition (c : UserCost) :
  (0 <= c <= 1073741826 ->
   add32 INFINITE_USER_COST c = INFINITE_USER_COST + c) /\
  add32 INFINITE_USER_COST 1073741827 = 0 /\
  (0 < c <= UINT32_MAX -> add32 UINT32_MAX c = c - 1).
Proof.
  assert (Hinf : INFINITE_USER_COST = 3221225469) by (vm_compute; reflexivity).
  rewrite Hinf. unfold add32, uint32_t, static_cast_unsigned, UINT32_MAX.
  split; [intros Hc; apply Z.mod_small; lia|]. split; [reflexivity|].
  intros Hc.
  replace (2 ^ 32 - 1 + c) with ((c - 1) + 1 * 2 ^ 32) by lia.
  rewrite Z.mod_add by lia. apply Z.mod_small. lia.
Qed.

Lemma INFINITE_USER_COST_addition_witness :
  (add32 INFINITE_USER_COST 1000 = INFINITE_USER_COST + 1000 /\
   add32 UINT32_MAX 1000 = 1000 - 1) /\
  add32 UINT32_MAX UINT32_MAX = UINT32_MAX - 1.
Proof.
  split.
  - destruct (INFINITE_USER_COST_addition 1000) as (H1 & _ & H2).
    split; [apply H1; lia|apply H2; unfold UINT32_MAX; lia].
  - destruct (INFINITE_USER_COST_addition UINT32_MAX) as (_ & _ & H).
    apply H. unfold UINT32_MAX. lia.
Defined.

(* ===================================================================== *)
(** * Further properties of the helpers: what they accept and return *)

Lemma IsUint_num e :
  IsUint e = true -> e = num (GetUint e) /\ in_uint32 (GetUint e).
Proof.
  destruct e as [| |[z|]| | |]; simpl; try discriminate.
  intros H. apply andb_true_iff in H as [H1 H2].
  apply Z.leb_le in H1, H2. split; [reflexivity|]. split; assumption.
Qed.

Lemma IsUint_of_num z : in_uint32 z -> IsUint (num z) = true.
Proof.
  intros [H1 H2]. simpl. apply andb_true_iff. split; now apply Z.leb_le.
Qed.

Lemma Forall_IsUint_uints (els : list Value) :
  Forall (fun e => IsUint e = true) els ->
  els = num <$> (GetUint <$> els) /\ Forall in_uint32 (GetUint <$> els).
Proof.
  induction 1 as [|e els He _ [IH1 IH2]]; simpl; [split; constructor|].
  apply IsUint_num in He as [He1 He2]. split.
  - f_equal; assumption.
  - now constructor.
Qed.

Lemma GetUint_uints (l : list Z) : GetUint <$> (num <$> l) = l.
Proof. induction l as [|z l IH]; simpl; [reflexivity|now f_equal]. Qed.

Lemma Forall_IsUint_of_uints (l : list Z) :
  Forall in_uint32 l -> Forall (fun e => IsUint e = true) (num <$> l).
Proof.
  induction 1; simpl; constructor; auto using IsUint_of_num.
Qed.

Lemma mapM_Forall2_Ok {A B} (f : A -> result B) (l : list A) (l' : list B) :
  Forall2 (fun x y => f x = Ok y) l l' -> mapM f l = Ok l'.
Proof.
  induction 1 as [|x y l l' Hxy _ IH]; simpl; [reflexivity|].
  rewrite Hxy. simpl. rewrite IH. reflexivity.
Qed.

Lemma get_amount_loop_Ok key elements : forall i (amount : list Z) r,
  get_amount_loop key elements i amount = Ok r ->
  (i + length elements = length amount)%nat ->
  r = take i amount ++ (GetUint <$> elements) /\
  Forall (fun e => IsUint e = true) elements.
Proof.
  induction elements as [|e rest IH]; simpl; intros i amount r H Hlen.
  - injection H as <-. rewrite app_nil_r, firstn_all2 by lia.
    split; [reflexivity|constructor].
  - destruct (IsUint e) eqn:He; simpl in H; [|discriminate].
    apply IH in H as [-> Hrest]; [|rewrite length_insert; lia].
    split; [|now constructor].
    rewrite (take_S_r _ _ (GetUint e))
      by (apply list_lookup_insert_eq; lia).
    rewrite take_insert_ge by lia. now rewrite <- app_assoc.
Qed.

Lemma get_amount_loop_uints key elements : forall i (amount : list Z),
  Forall (fun e => IsUint e = true) elements ->
  (i + length elements = length amount)%nat ->
  get_amount_loop key elements i amount
  = Ok (take i amount ++ (GetUint <$> elements)).
Proof.
  induction elements as [|e rest IH]; simpl; intros i amount Hall Hlen.
  - rewrite app_nil_r, firstn_all2 by lia. reflexivity.
  - inversion Hall as [|? ? He Hrest]; subst. rewrite He. simpl.
    rewrite IH by (try rewrite length_insert; auto; lia).
    rewrite (take_S_r _ _ (GetUint e))
      by (apply list_lookup_insert_eq; lia).
    rewrite take_insert_ge by lia. now rewrite <- app_assoc.
Qed.

(** [get_amount] returns [r] exactly when the key is absent and [r] is the
    zero vector of the given size, or the key holds an array of that size
    whose elements are the integers of [r], all in the range of
    [uint32_t]: each component of the vector is the array element at its
    position. *)
Theorem get_amount_spec (object : Value) (key : string) (amount_size : nat)
    (r : list Z) :
  get_amount object key amount_size = Ok r
  <-> (HasMember object key = false /\ r = replicate amount_size 0) \/
      (HasMember object key = true /\ object.[key] = uints r /\
       length r = amount_size /\ Forall in_uint32 r).
Proof.
  unfold get_amount, Amount_zero, uints. split.
  - intros H. destruct (HasMember object key); [right|left].
    + destruct (object.[key]) as [| | | |els|]; simpl in H; try discriminate.
      unfold Size in H. simpl in H.
      destruct (length els =? amount_size)%nat eqn:E; [|discriminate].
      apply Nat.eqb_eq in E. simpl in H.
      apply get_amount_loop_Ok in H as [-> Hall];
        [|rewrite length_replicate; lia].
      simpl. apply Forall_IsUint_uints in Hall as [Hels Hrange].
      rewrite length_fmap. rewrite <- Hels. auto.
    + injection H as <-. auto.
  - intros [[-> ->]|(-> & -> & <- & Hrange)]; [reflexivity|].
    simpl. unfold Size. simpl. rewrite length_fmap, Nat.eqb_refl. simpl.
    rewrite get_amount_loop_uints
      by (rewrite ?length_replicate, ?length_fmap;
          auto using Forall_IsUint_of_uints).
    simpl. now rewrite GetUint_uints.
Qed.

Lemma get_matrix_Ok (m : Value) (M : list (list Z)) :
  get_matrix m = Ok M ->
  m = kArray (uints <$> M) /\ square M /\ Forall (Forall in_uint32) M.
Proof.
  unfold get_matrix, square, uints.
  - intros H. destruct m as [| | | |rows|]; simpl in H; try discriminate.
    unfold Size in H. simpl in H.
    apply mapM_Ok_Forall2 in H.
    pose proof (Forall2_length _ _ _ H) as Hlen. rewrite Hlen in H.
    clear Hlen. generalize dependent (length M). intros n H.
    induction H as [|mi row rows M Hrow _ (IH1 & IH2 & IH3)];
      [repeat split; constructor|].
    destruct mi as [| | | |els|]; simpl in Hrow; try discriminate.
    unfold Size in Hrow. simpl in Hrow.
    destruct (length els =? n)%nat eqn:E; simpl in Hrow; [|discriminate].
    apply Nat.eqb_eq in E. apply mapM_Ok_Forall2 in Hrow.
    assert (Hels : Forall (fun e => IsUint e = true) els /\
                   row = GetUint <$> els).
    { clear -Hrow. induction Hrow as [|e x els row He _ [IH1 IH2]];
        [split; constructor|].
      destruct (IsUint e) eqn:Hu; simpl in He; [|discriminate].
      injection He as <-. split; [now constructor|simpl; now f_equal]. }
    destruct Hels as [Hall ->].
    apply Forall_IsUint_uints in Hall as [Hels Hrange].
    injection IH1 as IH1. simpl. repeat split.
    + subst rows. rewrite <- Hels. reflexivity.
    + constructor; [now rewrite length_fmap|assumption].
    + now constructor.
Qed.

(** [get_matrix] returns [M] exactly when the value is an array of arrays
    holding the rows of [M], [M] is square and all its entries are in the
    range of [uint32_t]. *)
Theorem get_matrix_spec (m : Value) (M : list (list Z)) :
  get_matrix m = Ok M
  <-> m = kArray (uints <$> M) /\ square M /\ Forall (Forall in_uint32) M.
Proof.
  split; [apply get_matrix_Ok|].
  unfold get_matrix, square, uints.
  - intros (-> & Hsquare & Hrange). simpl.
    apply mapM_Forall2_Ok. unfold Size. simpl. rewrite length_fmap.
    generalize dependent (length M). intros n Hsquare.
    induction M as [|row M IH]; simpl; [constructor|].
    inversion Hsquare as [|? ? Hrow Hrows]; subst.
    inversion Hrange as [|? ? Hr Hrs]; subst.
    constructor; [|auto].
    simpl. unfold Size. simpl. rewrite length_fmap, Nat.eqb_refl. simpl.
    apply mapM_Forall2_Ok. clear -Hr.
    induction Hr as [|z row Hz _ IH]; simpl; constructor; [|assumption].
    now rewrite (IsUint_of_num _ Hz).
Qed.

Lemma get_skills_loop els : forall (acc S : gset Z),
  for_each (fun (skills : gset Z) e =>
              if negb (IsUint e)
              then throw (InputException "Invalid skill value.")
              else Ok ({[GetUint e]} ∪ skills)) acc els = Ok S
  <-> Forall (fun e => IsUint e = true) els /\
      S = list_to_set (GetUint <$> els) ∪ acc.
Proof.
  induction els as [|e els IH]; simpl; intros acc S.
  - rewrite (left_id_L ∅ (∪)). split.
    + intros [= <-]. split; [constructor|reflexivity].
    + now intros [_ ->].
  - assert (Hunion : list_to_set (GetUint <$> els) ∪ ({[GetUint e]} ∪ acc)
                     = {[GetUint e]} ∪ list_to_set (GetUint <$> els) ∪ acc).
    { rewrite (assoc_L (∪)).
      now rewrite (comm_L (∪) (list_to_set (GetUint <$> els))). }
    destruct (IsUint e) eqn:He; simpl.
    + rewrite IH, Hunion. split.
      * intros [Hall ->]. split; [now constructor|reflexivity].
      * intros [Hall ->]. inversion Hall; subst. split; [assumption|].
        reflexivity.
    + split; [discriminate|]. intros [Hall _]. inversion Hall; congruence.
Qed.

(** [get_skills] returns [S] exactly when the key is absent and [S] is
    empty, or the key holds an array of integers in the range of
    [uint32_t] and [S] is the set of these integers: order and repetition
    in the array do not matter. *)
Theorem get_skills_spec (object : Value) (S : gset Z) :
  get_skills object = Ok S
  <-> (HasMember object "skills" = false /\ S = ∅) \/
      (HasMember object "skills" = true /\
       exists l, object.["skills"] = uints l /\ Forall in_uint32 l /\
                 S = list_to_set l).
Proof.
  unfold get_skills, uints.
  destruct (HasMember object "skills").
  - destruct (object.["skills"]) as [| | | |els|] eqn:E; simpl;
      try (split; [discriminate|intros [[[=] _]|(_ & l & [=] & _)]]).
    rewrite get_skills_loop. split.
    + intros [Hall ->]. right. split; [reflexivity|].
      apply Forall_IsUint_uints in Hall as [Hels Hrange].
      exists (GetUint <$> els). rewrite <- Hels.
      split; [reflexivity|]. split; [assumption|].
      apply (right_id_L ∅ (∪)).
    + intros [[[=] _]|(_ & l & [= ->] & Hrange & ->)].
      split; [now apply Forall_IsUint_of_uints|].
      rewrite GetUint_uints. symmetry. apply (right_id_L ∅ (∪)).
  - split.
    + intros [= <-]. now left.
    + intros [[_ ->]|[[=] _]]. reflexivity.
Qed.

Lemma FindMember_app ms ms' name :
  FindMember (ms ++ ms') name
  = match FindMember ms name with
    | Some v => Some v
    | None => FindMember ms' name
    end.
Proof.
  induction ms as [|[k v] ms IH]; simpl; [reflexivity|].
  destruct (String.eqb k name); [reflexivity|assumption].
Qed.

Lemma FindMember_elem_of ms name v :
  FindMember ms name = Some v -> (name, v) ∈ ms.
Proof.
  induction ms as [|[k w] ms IH]; simpl; [discriminate|].
  destruct (String.eqb k name) eqn:E.
  - apply String.eqb_eq in E as ->. intros [= ->]. apply list_elem_of_here.
  - intros H. now apply list_elem_of_further, IH.
Qed.

Lemma get_duration_map_loop (key : string) (ms : list (string * Value)) :
  forall (acc m : gmap string Z),
    for_each (fun (durations : gmap string Z) (e : string * Value) =>
                if negb (IsUint e.2)
                then throw (runtime_error ("Invalid " +:+ key +:+
                                           " duration."))
                else Ok (<[std_string e.1 := GetUint e.2]> durations))
             acc ms = Ok m ->
    Forall (fun e => IsUint e.2 = true) ms /\
    forall name,
      m !! name = match FindMember (reverse (stored_members ms)) name with
                  | Some v => Some (GetUint v)
                  | None => acc !! name
                  end.
Proof.
  unfold stored_members.
  induction ms as [|[k v] ms IH]; simpl; intros acc m H.
  - injection H as <-. split; [constructor|reflexivity].
  - destruct (IsUint v) eqn:Hv; simpl in H; [|discriminate].
    apply IH in H as [Hall H]. split; [now constructor|].
    intros name. rewrite H, reverse_cons, FindMember_app. simpl.
    destruct (FindMember (reverse _) name); [reflexivity|].
    destruct (String.eqb (std_string k) name) eqn:E.
    + apply String.eqb_eq in E as <-. apply lookup_insert_eq.
    + apply String.eqb_neq in E. now apply lookup_insert_ne.
Qed.

(** In the map [get_duration_map] returns, the names are those of the
    members cut at the first U+0000, and a name is bound to the value of
    the last member carrying it (member lookup by [operator[]] takes the
    first); names that do not occur are unbound, and every value is in
    the range of [uint32_t]. *)
Theorem get_duration_map_last_wins (object : Value) (key : string)
    (durations : gmap string Z) :
  get_duration_map object key = Ok durations ->
  (forall name,
     durations !! name
     = GetUint <$> FindMember
                     (reverse (stored_members (GetObject object.[key])))
                     name) /\
  (forall name d, durations !! name = Some d -> in_uint32 d).
Proof.
  intros H.
  assert (Hloop : Forall (fun e : string * Value => IsUint e.2 = true)
                         (GetObject object.[key]) /\
                  forall name,
                    durations !! name
                    = GetUint <$> FindMember
                                    (reverse (stored_members
                                                (GetObject object.[key])))
                                    name).
  { unfold get_duration_map in H.
    destruct (HasMember object key) eqn:Hhas; simpl in H.
    - destruct (negb (IsObject object.[key])); [discriminate|].
      apply get_duration_map_loop in H as [Hall H]. split; [assumption|].
      intros name. rewrite H. now destruct (FindMember _ _).
    - injection H as <-. apply HasMember_false in Hhas.
      unfold member. rewrite Hhas. simpl. split; [constructor|reflexivity]. }
  destruct Hloop as [Hall Hlookup]. split; [assumption|].
  intros name d Hd. rewrite Hlookup in Hd.
  destruct (FindMember _ _) as [v|] eqn:E; [|discriminate].
  injection Hd as <-.
  apply FindMember_elem_of in E. rewrite elem_of_reverse in E.
  unfold stored_members in E.
  apply list_elem_of_fmap in E as (m & [= _ ->] & Hm).
  rewrite Forall_forall in Hall. specialize (Hall _ Hm).
  now apply IsUint_num in Hall as [_ Hall].
Qed.

Lemma get_duration_map_last_wins_witness :
  exists durations,
    get_duration_map sample_duplicate_durations "service_per_vehicle_type"
      = Ok durations /\
    durations !! "van" = Some 90 /\
    durations !! "bike" = Some 30 /\
    durations !! "bus" = Some 45 /\
    GetUint sample_duplicate_durations.["service_per_vehicle_type"].["van"]
      = 60.
Proof.
  destruct (get_duration_map sample_duplicate_durations
              "service_per_vehicle_type") as [durations|e] eqn:H;
    [|vm_compute in H; discriminate H].
  exists durations. split; [reflexivity|].
  destruct (get_duration_map_last_wins _ _ _ H) as [Hlookup _].
  rewrite !Hlookup. repeat split; reflexivity.
Defined.

(* ===================================================================== *)
(** * Further properties of the helpers: time windows and breaks *)

(** The list [get_time_windows] returns is never empty and is in
    ascending order; with a [time_windows] key it is a rearrangement of
    the windows of the array, one per element, and without the key it is
    the default window alone. *)
Theorem get_time_windows_nonempty_sorted (o : Value)
    (tws : list TimeWindow) :
  get_time_windows o = Ok tws ->
  tws <> [] /\
  Sorted (fun a b => ~ TimeWindow_lt b a) tws /\
  if HasMember o "time_windows" then
    length tws = Size o.["time_windows"] /\
    exists parsed,
      Forall2 (fun tw w => get_time_window tw = Ok w)
              (GetArray o.["time_windows"]) parsed /\
      tws ≡ₚ parsed
  else tws = [TimeWindow_default].
Proof.
  intros H. pose proof (get_time_windows_Ok _ _ H) as Hshape.
  pose proof (get_time_windows_Sorted _ _ H) as Hsorted.
  destruct (HasMember o "time_windows") eqn:Hhas.
  - destruct (get_time_windows_Ok_length _ _ H Hhas) as [Hlen Hne].
    destruct Hshape as (parsed & Hparsed & -> & _).
    repeat split; try assumption.
    exists parsed. split; [now apply mapM_Ok_Forall2|].
    apply std_sort_Permutation.
  - subst tws. repeat split; [discriminate|assumption].
Qed.

Lemma get_time_windows_nonempty_sorted_witness :
  exists tws,
    get_time_windows
      (kObject [("time_windows", kArray [uints [50; 60]; uints [0; 10]])])
      = Ok tws /\
    tws <> [] /\
    Sorted (fun a b => ~ TimeWindow_lt b a) tws /\
    length tws = 2%nat.
Proof.
  eexists. split; [vm_compute; reflexivity|].
  destruct (get_time_windows_nonempty_sorted
              (kObject [("time_windows",
                         kArray [uints [50; 60]; uints [0; 10]])])
              [{| tw_start := 0; tw_end := 1000 |};
               {| tw_start := 5000; tw_end := 6000 |}])
    as (Hne & Hsorted & Hlen & _); [vm_compute; reflexivity|].
  split; [exact Hne|]. split; [exact Hsorted|exact Hlen].
Defined.

Lemma break_before_asym a b : break_before a b -> ~ break_before b a.
Proof. unfold break_before. lia. Qed.

(** The breaks [get_vehicle_breaks] returns are a rearrangement of the
    breaks of the array (none without a [breaks] key), in ascending order
    of the comparator, and each of them has a first time window, so that
    the comparator never reads [tws[0]] of an empty vector. *)
Theorem get_vehicle_breaks_sorted (v : Value) (amount_size : nat)
    (breaks : list Break) :
  get_vehicle_breaks v amount_size = Ok breaks ->
  Sorted (fun a b => ~ break_before b a) breaks /\
  Forall (fun b => break_tws b <> []) breaks /\
  length breaks = Size v.["breaks"] /\
  exists parsed,
    Forall2 (fun b br => get_break b amount_size = Ok br)
            (GetArray v.["breaks"]) parsed /\
    breaks ≡ₚ parsed.
Proof.
  unfold get_vehicle_breaks. intros H.
  apply bind_Ok in H as (parsed & Hparsed & [= <-]).
  assert (Hall : Forall2 (fun b br => get_break b amount_size = Ok br)
                         (GetArray v.["breaks"]) parsed).
  { destruct (HasMember v "breaks") eqn:Hhas.
    - destruct (negb (IsArray v.["breaks"])); [discriminate|].
      now apply mapM_Ok_Forall2.
    - injection Hparsed as <-. apply HasMember_false in Hhas.
      unfold member. rewrite Hhas. constructor. }
  pose proof (std_sort_Permutation break_before parsed) as Hperm.
  split; [apply std_sort_Sorted, break_before_asym|].
  split; [|split].
  - rewrite Hperm. clear -Hall.
    induction Hall as [|b br bs parsed Hbr _ IH]; constructor; [|assumption].
    apply get_break_Ok in Hbr as (_ & Htws & _).
    destruct (HasMember b "time_windows") eqn:Hhas.
    + now apply get_time_windows_Ok_length in Htws as [_ Hne].
    + apply get_time_windows_Ok in Htws. rewrite Hhas in Htws.
      rewrite Htws. discriminate.
  - rewrite Hperm. symmetry. apply (Forall2_length _ _ _ Hall).
  - exists parsed. split; assumption.
Qed.

Lemma get_vehicle_breaks_sorted_witness :
  exists breaks,
    get_vehicle_breaks sample_vehicle_full 0 = Ok breaks /\
    break_id <$> breaks = [2; 1] /\
    Sorted (fun a b => ~ break_before b a) breaks /\
    Forall (fun b => break_tws b <> []) breaks.
Proof.
  destruct (get_vehicle_breaks sample_vehicle_full 0) as [breaks|e] eqn:H;
    [|vm_compute in H; discriminate H].
  exists breaks. split; [reflexivity|].
  destruct (get_vehicle_breaks_sorted _ _ _ H) as (Hsorted & Hne & _).
  split; [|split; assumption].
  vm_compute in H. injection H as <-. reflexivity.
Defined.

(* ===================================================================== *)
(** * Further properties of get_vehicle and get_task_location *)

Lemma uint16_t_range z : 0 <= uint16_t z < 65536.
Proof.
  unfold uint16_t, static_cast_unsigned. change (2 ^ 16) with 65536.
  apply Z.mod_pos_bound. lia.
Qed.

Lemma uint16_t_congruent z z' :
  (z - z') mod 65536 = 0 -> uint16_t z = uint16_t z'.
Proof.
  unfold uint16_t, static_cast_unsigned. change (2 ^ 16) with 65536.
  intros H. Z.div_mod_to_equations. lia.
Qed.

(** What [get_vehicle] has read of the keys [start], [start_index], [end],
    [end_index] and [profile] when it returns. *)
Lemma get_vehicle_Ok_places json_vehicle amount_size tw v :
  get_vehicle json_vehicle amount_size tw = Ok v ->
  (if HasMember json_vehicle "start_index" then
     let index := uint16_t (GetUint json_vehicle.["start_index"]) in
     if HasMember json_vehicle "start"
     then exists c, vehicle_start v = Some (Location_index_coords index c)
     else vehicle_start v = Some (Location_index index)
   else if HasMember json_vehicle "start"
   then exists c, vehicle_start v = Some (Location_coords c)
   else vehicle_start v = None) /\
  (if HasMember json_vehicle "end_index" then
     let index := uint16_t (GetUint json_vehicle.["end_index"]) in
     if HasMember json_vehicle "end"
     then exists c, vehicle_end v = Some (Location_index_coords index c)
     else vehicle_end v = Some (Location_index index)
   else if HasMember json_vehicle "end"
   then exists c, vehicle_end v = Some (Location_coords c)
   else vehicle_end v = None) /\
  exists profile,
    get_string json_vehicle "profile" = Ok profile /\
    vehicle_profile v = if String.eqb profile "" then "car" else profile.
Proof.
  unfold get_vehicle. intros H.
  apply bind_Ok in H as ([] & _ & H).
  destruct (_ && _); [discriminate|].
  apply bind_Ok in H as (start & Hstart & H).
  destruct (_ && _); [discriminate|].
  apply bind_Ok in H as (end_ & Hend & H).
  apply bind_Ok in H as (profile & Hprofile & H).
  binds_inv H. injection H as <-. simpl.
  split; [|split; [|eauto]].
  - destruct (HasMember json_vehicle "start_index"),
      (HasMember json_vehicle "start"); simpl;
      try (apply bind_Ok in Hstart as (c & _ & [= <-]); eauto);
      now injection Hstart as <-.
  - destruct (HasMember json_vehicle "end_index"),
      (HasMember json_vehicle "end"); simpl;
      try (apply bind_Ok in Hend as (c & _ & [= <-]); eauto);
      now injection Hend as <-.
Qed.

(** The profile of a vehicle [get_vehicle] builds is never empty.  The
    string under the [profile] key counts up to its first U+0000: the
    profile is "car" when the key is absent or that string is empty, and
    that string otherwise. *)
Theorem get_vehicle_profile_default (json_vehicle : Value)
    (amount_size : nat) (tw : TimeWindow) (v : Vehicle) :
  get_vehicle json_vehicle amount_size tw = Ok v ->
  vehicle_profile v <> "" /\
  (HasMember json_vehicle "profile" = false -> vehicle_profile v = "car") /\
  (HasMember json_vehicle "profile" = true ->
   exists p, json_vehicle.["profile"] = kString p /\
             vehicle_profile v
             = if String.eqb (std_string p) "" then "car" else std_string p).
Proof.
  intros H.
  apply get_vehicle_Ok_places in H as (_ & _ & profile & Hget & Hprofile).
  unfold get_string in Hget. split; [|split].
  - rewrite Hprofile. destruct (String.eqb profile "") eqn:E; [discriminate|].
    now apply String.eqb_neq in E.
  - intros Hhas. rewrite Hhas in Hget. injection Hget as <-. exact Hprofile.
  - intros Hhas. rewrite Hhas in Hget.
    destruct (json_vehicle.["profile"]) as [| | |p| |]; simpl in Hget;
      try discriminate.
    injection Hget as <-. eauto.
Qed.

Lemma get_vehicle_profile_default_witness :
  (get_vehicle sample_vehicle_full 0 TimeWindow_default
     = Ok sample_vehicle_full_parsed /\
   sample_vehicle_full.["profile"] = kString "" /\
   vehicle_profile sample_vehicle_full_parsed <> "") /\
  exists v,
    get_vehicle sample_vehicle_nul_strings 0 TimeWindow_default = Ok v /\
    vehicle_profile v = "car" /\
    exists p,
      sample_vehicle_nul_strings.["profile"] = kString p /\
      vehicle_profile v
      = if String.eqb (std_string p) "" then "car" else std_string p.
Proof.
  split.
  - split; [vm_compute; reflexivity|]. split; [reflexivity|].
    apply (get_vehicle_profile_default sample_vehicle_full 0
             TimeWindow_default sample_vehicle_full_parsed).
    vm_compute; reflexivity.
  - eexists. split; [vm_compute; reflexivity|]. split; [reflexivity|].
    eapply (get_vehicle_profile_default sample_vehicle_nul_strings 0
              TimeWindow_default); [vm_compute|]; reflexivity.
Defined.

(** One case of the keys of a place, the place being known. *)
Ltac solve_place_case :=
  split;
  [ split;
    [ first [discriminate | intros _; split; reflexivity]
    | first [intros [? ?]; discriminate | reflexivity] ]
  | let loc := fresh "loc" in
    let Hloc := fresh "Hloc" in
    intros loc Hloc;
    first
      [ discriminate Hloc
      | injection Hloc as <-; simpl;
        split;
        [ reflexivity
        | split; first [discriminate | reflexivity | intros _; reflexivity] ]
      ] ].

(** A vehicle [get_vehicle] builds has no start exactly when the object
    has neither a [start] nor a [start_index] key, and likewise for its
    end; a start or end built from an index key carries that index
    reduced modulo 65536, and carries coordinates exactly when the
    coordinates key is present. *)
Theorem get_vehicle_start_end (json_vehicle : Value) (amount_size : nat)
    (tw : TimeWindow) (v : Vehicle) :
  get_vehicle json_vehicle amount_size tw = Ok v ->
  (vehicle_start v = None
   <-> HasMember json_vehicle "start" = false /\
       HasMember json_vehicle "start_index" = false) /\
  (vehicle_end v = None
   <-> HasMember json_vehicle "end" = false /\
       HasMember json_vehicle "end_index" = false) /\
  (forall loc,
     vehicle_start v = Some loc ->
     Location_index_of loc
     = (if HasMember json_vehicle "start_index"
        then Some (GetUint json_vehicle.["start_index"] mod 65536)
        else None) /\
     (Location_coords_of loc = None
      <-> HasMember json_vehicle "start" = false)) /\
  (forall loc,
     vehicle_end v = Some loc ->
     Location_index_of loc
     = (if HasMember json_vehicle "end_index"
        then Some (GetUint json_vehicle.["end_index"] mod 65536)
        else None) /\
     (Location_coords_of loc = None
      <-> HasMember json_vehicle "end" = false)).
Proof.
  intros H. apply get_vehicle_Ok_places in H as (Hstart & Hend & _).
  assert (Hs : (vehicle_start v = None
                <-> HasMember json_vehicle "start" = false /\
                    HasMember json_vehicle "start_index" = false) /\
               forall loc,
                 vehicle_start v = Some loc ->
                 Location_index_of loc
                 = (if HasMember json_vehicle "start_index"
                    then Some (GetUint json_vehicle.["start_index"] mod 65536)
                    else None) /\
                 (Location_coords_of loc = None
                  <-> HasMember json_vehicle "start" = false)).
  { destruct (HasMember json_vehicle "start_index"),
      (HasMember json_vehicle "start"); simpl in Hstart;
      [destruct Hstart as [c Hstart]| |destruct Hstart as [c Hstart]|];
      rewrite Hstart; solve_place_case. }
  assert (He : (vehicle_end v = None
                <-> HasMember json_vehicle "end" = false /\
                    HasMember json_vehicle "end_index" = false) /\
               forall loc,
                 vehicle_end v = Some loc ->
                 Location_index_of loc
                 = (if HasMember json_vehicle "end_index"
                    then Some (GetUint json_vehicle.["end_index"] mod 65536)
                    else None) /\
                 (Location_coords_of loc = None
                  <-> HasMember json_vehicle "end" = false)).
  { destruct (HasMember json_vehicle "end_index"),
      (HasMember json_vehicle "end"); simpl in Hend;
      [destruct Hend as [c Hend]| |destruct Hend as [c Hend]|];
      rewrite Hend; solve_place_case. }
  destruct Hs as [Hs1 Hs2], He as [He1 He2]. auto.
Qed.

Lemma get_vehicle_start_end_witness :
  get_vehicle sample_vehicle_full 0 TimeWindow_default
    = Ok sample_vehicle_full_parsed /\
  vehicle_start sample_vehicle_full_parsed = Some (Location_index 2) /\
  (forall loc,
     vehicle_end sample_vehicle_full_parsed = Some loc ->
     Location_index_of loc = None).
Proof.
  split; [vm_compute; reflexivity|]. split; [reflexivity|].
  destruct (get_vehicle_start_end sample_vehicle_full 0 TimeWindow_default
              sample_vehicle_full_parsed) as (_ & _ & _ & Hend);
    [vm_compute; reflexivity|].
  intros loc Hloc. now destruct (Hend loc Hloc) as [Hindex _].
Defined.

Lemma same_but_parse_coordinates key a b k :
  same_but key a b -> k <> key ->
  parse_coordinates a k = parse_coordinates b k.
Proof.
  intros H Hk. unfold parse_coordinates.
  now rewrite (same_but_member _ _ _ _ H Hk).
Qed.



(** [get_vehicle] reads neither the [time_window] nor the [time_windows]
    key: its outcome is the same on two objects that differ only in the
    members of one of these names, and the window of the vehicle it
    builds is the one it was given. *)
Theorem get_vehicle_ignores_time_window_keys (a b : Value)
    (amount_size : nat) (tw : TimeWindow) :
  same_but "time_window" a b \/ same_but "time_windows" a b ->
  get_vehicle a amount_size tw = get_vehicle b amount_size tw /\
  forall v, get_vehicle a amount_size tw = Ok v -> vehicle_tw v = tw.
Proof.
  intros H. split.
  - destruct H as [H|H];
      unfold get_vehicle, check_id, parse_coordinates, get_string,
        get_amount, get_skills, get_vehicle_breaks, get_vehicle_costs,
        get_double, get_optional_string, get_value_for, get_vehicle_steps,
        get_vehicle_step;
      rewrite (same_but_IsObject _ _ _ H);
      rewrite !(same_but_HasMember _ _ _ _ H) by done;
      rewrite !(same_but_member _ _ _ _ H) by done;
      reflexivity.
  - intros v Hv. now apply get_vehicle_Ok in Hv as (_ & _ & Htw & _).
Qed.

Lemma get_vehicle_ignores_time_window_keys_witness :
  get_vehicle sample_vehicle_both_windows 0 TimeWindow_default
  = get_vehicle sample_vehicle_time_windows_only 0 TimeWindow_default /\
  forall v,
    get_vehicle sample_vehicle_both_windows 0 TimeWindow_default = Ok v ->
    vehicle_tw v = TimeWindow_default.
Proof.
  apply (get_vehicle_ignores_time_window_keys sample_vehicle_both_windows
           sample_vehicle_time_windows_only 0 TimeWindow_default).
  left. intros k Hk. cbn [FindMember].
  destruct (String.eqb "id" k); [reflexivity|].
  destruct (String.eqb "time_window" k) eqn:E; [|reflexivity].
  apply String.eqb_eq in E. congruence.
Defined.

(* ===================================================================== *)
(** * Further properties of parse *)

(** [parse] reads five members of the root object, [jobs], [shipments],
    [vehicles], [matrices] and [matrix], each at its first occurrence:
    two root objects that agree on these have the same outcome, whatever
    other members they hold. *)
Theorem parse_reads_five_members (input : Input)
    (ms ms' : list (string * Value)) (geometry : bool) :
  (forall key,
     key ∈ ["jobs"; "shipments"; "vehicles"; "matrices"; "matrix"] ->
     FindMember ms key = FindMember ms' key) ->
  parse input (Document (kObject ms)) geometry
  = parse input (Document (kObject ms')) geometry.
Proof.
  intros H. unfold parse.
  rewrite (parse_tasks_members input ms ms')
    by (apply H; repeat constructor).
  destruct (parse_tasks input (kObject ms') geometry); [simpl|reflexivity].
  unfold parse_matrices, HasMember, member. simpl.
  rewrite (H "matrices"), (H "matrix")
    by (rewrite !elem_of_cons; auto 10).
  reflexivity.
Qed.

Lemma parse_reads_five_members_witness :
  parse Input_empty (Document (kObject sample_vehicles_more_keys)) false
  = parse Input_empty (Document sample_vehicles) false.
Proof.
  apply (parse_reads_five_members Input_empty sample_vehicles_more_keys
           (GetObject sample_vehicles) false).
  intros key Hkey.
  rewrite !elem_of_cons in Hkey.
  destruct Hkey as [-> | [-> | [-> | [-> | [-> | Hkey]]]]];
    [reflexivity..|now apply elem_of_nil in Hkey].
Defined.

(* ===================================================================== *)
(** * Further properties of get_vehicle_steps and get_vehicle_costs *)

Lemma optional_uint_Ok (o : Value) (key : string) (e : exception)
    (r : option Z) :
  (if HasMember o key then
     if negb (IsUint o.[key]) then throw e else Ok (Some (GetUint o.[key]))
   else Ok None) = Ok r ->
  r = GetUint <$> FindMember (GetObject o) key /\
  (HasMember o key = true -> IsUint o.[key] = true).
Proof.
  unfold HasMember, member.
  destruct (FindMember (GetObject o) key) as [x|]; simpl.
  - destruct (IsUint x); simpl; [|discriminate].
    intros [= <-]. auto.
  - intros [= <-]. split; [reflexivity|discriminate].
Qed.

Lemma get_string_Ok o key s :
  get_string o key = Ok s -> s = default "" (string_member o key).
Proof.
  unfold get_string, string_member, HasMember, member.
  destruct (FindMember (GetObject o) key) as [x|]; simpl.
  - destruct (IsString x); simpl; [|discriminate]. now intros [= <-].
  - now intros [= <-].
Qed.

Lemma get_vehicle_step_Ok v json_step step :
  get_vehicle_step v json_step = Ok step -> step_of json_step step.
Proof.
  unfold get_vehicle_step. intros H.
  apply bind_Ok in H as ([] & _ & H).
  apply bind_Ok in H as (at_ & Hat & H).
  apply bind_Ok in H as (after & Hafter & H).
  apply bind_Ok in H as (before & Hbefore & H).
  apply bind_Ok in H as (type_str & Htype & H).
  apply optional_uint_Ok in Hat as [-> _].
  apply optional_uint_Ok in Hafter as [-> _].
  apply optional_uint_Ok in Hbefore as [-> _].
  exists type_str. split; [exact (get_string_Ok _ _ _ Htype)|].
  destruct (String.eqb_spec type_str "start") as [->|Hstart].
  { injection H as <-. simpl. repeat split; auto; congruence. }
  destruct (String.eqb_spec type_str "end") as [->|Hend].
  { injection H as <-. simpl. repeat split; auto; congruence. }
  destruct (HasMember json_step "id"); [|discriminate].
  destruct (IsUint64 json_step.["id"]); [|discriminate]. simpl in H.
  destruct (String.eqb_spec type_str "job") as [->|Hjob].
  { injection H as <-. simpl. repeat split; auto. }
  destruct (String.eqb_spec type_str "pickup") as [->|Hpickup].
  { injection H as <-. simpl. repeat split; auto. }
  destruct (String.eqb_spec type_str "delivery") as [->|Hdelivery].
  { injection H as <-. simpl. repeat split; auto. }
  destruct (String.eqb_spec type_str "break") as [->|Hbreak].
  { injection H as <-. simpl. repeat split; auto. }
  discriminate.
Qed.

(** On success [get_vehicle_steps] returns one step per element of the
    [steps] array, in order (none without that key): the kind of each
    step follows its [type] string, cut at its first U+0000, which is one
    of [start], [end], [job], [pickup], [delivery] and [break]; all but
    [start] and [end] require an id and keep it; the forced service times
    are the [service_at], [service_after] and [service_before] members. *)
Theorem get_vehicle_steps_kinds (v : Value) (steps : list VehicleStep) :
  get_vehicle_steps v = Ok steps ->
  length steps = Size v.["steps"] /\
  Forall2 step_of (GetArray v.["steps"]) steps.
Proof.
  unfold get_vehicle_steps, Size. intros H.
  destruct (HasMember v "steps") eqn:Hhas.
  - destruct (negb _); [discriminate|].
    apply mapM_Ok_Forall2 in H.
    split; [symmetry; exact (Forall2_length _ _ _ H)|].
    eapply Forall2_impl; [exact H|].
    intros json_step step. apply get_vehicle_step_Ok.
  - injection H as <-.
    apply HasMember_false in Hhas. unfold member. rewrite Hhas. simpl.
    split; [reflexivity|constructor].
Qed.

Lemma get_vehicle_steps_kinds_witness :
  get_vehicle_steps sample_vehicle_full
    = Ok (vehicle_steps sample_vehicle_full_parsed) /\
  vehicle_steps sample_vehicle_full_parsed !! 3%nat
    = Some (VehicleStep_type END {| service_at := None;
                                    service_after := None;
                                    service_before := None |}) /\
  length (vehicle_steps sample_vehicle_full_parsed)
    = Size sample_vehicle_full.["steps"] /\
  Forall2 step_of (GetArray sample_vehicle_full.["steps"])
          (vehicle_steps sample_vehicle_full_parsed).
Proof.
  split; [vm_compute; reflexivity|]. split; [reflexivity|].
  apply (get_vehicle_steps_kinds sample_vehicle_full
           (vehicle_steps sample_vehicle_full_parsed)).
  vm_compute; reflexivity.
Defined.

(** [get_vehicle_costs] succeeds exactly when [costs], if present, is an
    object whose [fixed], [per_hour] and [per_km] members, if present,
    are unsigned 32-bit numbers; the costs are then these members, with
    0, [DEFAULT_COST_PER_HOUR] and [DEFAULT_COST_PER_KM] for the missing
    ones. *)
Theorem get_vehicle_costs_spec (v : Value) (c : VehicleCosts) :
  get_vehicle_costs v = Ok c <->
  (HasMember v "costs" = true -> IsObject v.["costs"] = true) /\
  uint_if_present v.["costs"] "fixed" /\
  uint_if_present v.["costs"] "per_hour" /\
  uint_if_present v.["costs"] "per_km" /\
  c = {| costs_fixed := uint_member_or 0 v.["costs"] "fixed";
         costs_per_hour :=
           uint_member_or DEFAULT_COST_PER_HOUR v.["costs"] "per_hour";
         costs_per_km :=
           uint_member_or DEFAULT_COST_PER_KM v.["costs"] "per_km" |}.
Proof.
  unfold get_vehicle_costs, uint_if_present, uint_member_or, HasMember,
    member.
  destruct (FindMember (GetObject v) "costs") as [o|]; simpl.
  - destruct (IsObject o); simpl.
    + destruct (FindMember (GetObject o) "fixed") as [x1|] eqn:E1; simpl;
        [destruct (IsUint x1) eqn:U1; simpl|];
        (destruct (FindMember (GetObject o) "per_hour") as [x2|] eqn:E2;
           simpl; [destruct (IsUint x2) eqn:U2; simpl|]);
        (destruct (FindMember (GetObject o) "per_km") as [x3|] eqn:E3;
           simpl; [destruct (IsUint x3) eqn:U3; simpl|]);
        (split;
         [ first [ discriminate
                 | intros [= <-]; repeat split; congruence ]
         | intros (_ & H1 & H2 & H3 & ->);
           first [ reflexivity
                 | specialize (H1 _ eq_refl); congruence
                 | specialize (H2 _ eq_refl); congruence
                 | specialize (H3 _ eq_refl); congruence ] ]).
    + split; [discriminate|]. intros (H & _). now specialize (H eq_refl).
  - split.
    + intros [= <-]. repeat split; discriminate.
    + now intros (_ & _ & _ & _ & ->).
Qed.

(* ===================================================================== *)
(** * Further properties of get_job and get_vehicle: optional members *)

Lemma get_optional_string_Ok o key s :
  get_optional_string o key = Ok s -> s = string_member o key.
Proof.
  unfold get_optional_string, string_member, HasMember, member.
  destruct (FindMember (GetObject o) key) as [x|]; simpl.
  - destruct (IsString x); simpl; [|discriminate]. now intros [= <-].
  - now intros [= <-].
Qed.

Lemma get_double_Ok o key d :
  get_double o key = Ok d ->
  d = default (NumInt 1) (GetDouble <$> FindMember (GetObject o) key).
Proof.
  unfold get_double, HasMember, member.
  destruct (FindMember (GetObject o) key) as [x|]; simpl.
  - destruct (IsNumber x); simpl; [|discriminate]. now intros [= <-].
  - now intros [= <-].
Qed.

Lemma get_value_for_Ok o key r :
  get_value_for o key = Ok r -> r = uint_member o key.
Proof.
  unfold get_value_for, uint_member, HasMember, member.
  destruct (FindMember (GetObject o) key) as [x|]; simpl.
  - destruct (IsUint x); simpl; [|discriminate]. now intros [= <-].
  - now intros [= <-].
Qed.

Lemma get_duration_Ok o key d :
  get_duration o key = Ok d -> d = uint_member_or 0 o key /\ in_uint32 d.
Proof.
  unfold get_duration, uint_member_or, HasMember, member.
  destruct (FindMember (GetObject o) key) as [x|]; simpl.
  - destruct (IsUint x) eqn:E; simpl; [|discriminate]. intros [= <-].
    split; [reflexivity|].
    destruct x as [| |[z|]| | |]; try discriminate E. simpl in *.
    unfold in_uint32. lia.
  - intros [= <-]. split; [reflexivity|]. unfold in_uint32, UINT32_MAX. lia.
Qed.

Lemma get_priority_Ok o p :
  get_priority o = Ok p -> p = uint_member_or 0 o "priority" /\ in_uint32 p.
Proof.
  intros H. apply (get_duration_Ok o "priority").
  unfold get_priority, get_duration in *.
  destruct (HasMember o "priority"); [|assumption].
  destruct (negb _); [discriminate|assumption].
Qed.

Lemma get_skills_absent o :
  HasMember o "skills" = false -> get_skills o = Ok ∅.
Proof. unfold get_skills. now intros ->. Qed.

Lemma get_duration_map_absent o key :
  HasMember o key = false -> get_duration_map o key = Ok ∅.
Proof. unfold get_duration_map. now intros ->. Qed.

Lemma get_time_windows_absent o :
  HasMember o "time_windows" = false ->
  get_time_windows o = Ok [TimeWindow_default].
Proof. unfold get_time_windows. now intros ->. Qed.

(** On success [get_job] builds a job of type [SINGLE] with the id of
    the object; [setup], [service] and [priority] are the members of
    these names, 0 without them, and 32-bit unsigned; the description is
    the member of that name cut at its first U+0000, empty without it;
    without the keys
    [skills], [service_per_vehicle_type] and [time_windows] the job has
    no skill, no duration per vehicle type and the default time window
    alone. *)
Theorem get_job_optional_members (json_job : Value) (amount_size : nat)
    (job : Job) :
  get_job json_job amount_size = Ok job ->
  job_id job = GetUint64 json_job.["id"] /\
  job_type job = SINGLE /\
  (job_setup job = uint_member_or 0 json_job "setup" /\
   in_uint32 (job_setup job)) /\
  (job_service job = uint_member_or 0 json_job "service" /\
   in_uint32 (job_service job)) /\
  (job_priority job = uint_member_or 0 json_job "priority" /\
   in_uint32 (job_priority job)) /\
  job_description job = default "" (string_member json_job "description") /\
  (HasMember json_job "skills" = false -> job_skills job = ∅) /\
  (HasMember json_job "service_per_vehicle_type" = false ->
   job_service_per_vehicle_type job = ∅) /\
  (HasMember json_job "time_windows" = false ->
   job_tws job = [TimeWindow_default]).
Proof.
  unfold get_job. intros H.
  apply bind_Ok in H as ([] & _ & H).
  apply bind_Ok in H as (loc & _ & H).
  apply bind_Ok in H as (setup & Hsetup & H).
  apply bind_Ok in H as (service & Hservice & H).
  apply bind_Ok in H as (spvt & Hspvt & H).
  apply bind_Ok in H as (delivery & _ & H).
  apply bind_Ok in H as (pickup & _ & H).
  apply bind_Ok in H as (skills & Hskills & H).
  apply bind_Ok in H as (priority & Hpriority & H).
  apply bind_Ok in H as (tws & Htws & H).
  apply bind_Ok in H as (description & Hdescription & H).
  injection H as <-. simpl.
  apply get_duration_Ok in Hsetup, Hservice.
  apply get_priority_Ok in Hpriority.
  apply get_string_Ok in Hdescription.
  split; [reflexivity|]. split; [reflexivity|].
  split; [assumption|]. split; [assumption|]. split; [assumption|].
  split; [assumption|].
  split; [|split].
  - intros E. rewrite (get_skills_absent _ E) in Hskills. congruence.
  - intros E. rewrite (get_duration_map_absent _ _ E) in Hspvt. congruence.
  - intros E. rewrite (get_time_windows_absent _ E) in Htws. congruence.
Qed.

Lemma get_job_optional_members_witness :
  (exists job,
     get_job sample_job_nul_description 0 = Ok job /\
     job_description job = "a" /\
     job_description job
     = default "" (string_member sample_job_nul_description "description")) /\
  exists job,
    get_job sample_job_index_65537 0 = Ok job /\
    job_service job = 10 /\ job_setup job = 0 /\
    job_tws job = [TimeWindow_default] /\
    job_id job = GetUint64 sample_job_index_65537.["id"] /\
    job_type job = SINGLE /\
    (job_setup job = uint_member_or 0 sample_job_index_65537 "setup" /\
     in_uint32 (job_setup job)) /\
    (job_service job = uint_member_or 0 sample_job_index_65537 "service" /\
     in_uint32 (job_service job)) /\
    (job_priority job = uint_member_or 0 sample_job_index_65537 "priority" /\
     in_uint32 (job_priority job)) /\
    job_description job
    = default "" (string_member sample_job_index_65537 "description") /\
    (HasMember sample_job_index_65537 "skills" = false ->
     job_skills job = ∅) /\
    (HasMember sample_job_index_65537 "service_per_vehicle_type" = false ->
     job_service_per_vehicle_type job = ∅) /\
    (HasMember sample_job_index_65537 "time_windows" = false ->
     job_tws job = [TimeWindow_default]).
Proof.
  split.
  - eexists. split; [vm_compute; reflexivity|]. split; [reflexivity|].
    eapply (get_job_optional_members sample_job_nul_description 0).
    vm_compute; reflexivity.
  - eexists. split; [vm_compute; reflexivity|].
    split; [reflexivity|]. split; [reflexivity|]. split; [reflexivity|].
    apply (get_job_optional_members sample_job_index_65537 0).
    vm_compute; reflexivity.
Defined.

Lemma get_vehicle_Ok_members json_vehicle amount_size tw v :
  get_vehicle json_vehicle amount_size tw = Ok v ->
  get_skills json_vehicle = Ok (vehicle_skills v) /\
  get_string json_vehicle "description" = Ok (vehicle_description v) /\
  get_vehicle_costs json_vehicle = Ok (vehicle_costs v) /\
  get_double json_vehicle "speed_factor" = Ok (vehicle_speed_factor v) /\
  get_optional_string json_vehicle "service_type"
    = Ok (vehicle_service_type v) /\
  get_value_for json_vehicle "max_tasks" = Ok (vehicle_max_tasks v) /\
  get_value_for json_vehicle "max_travel_time"
    = Ok (vehicle_max_travel_time v) /\
  get_value_for json_vehicle "max_distance" = Ok (vehicle_max_distance v) /\
  get_vehicle_steps json_vehicle = Ok (vehicle_steps v).
Proof.
  unfold get_vehicle. intros H.
  apply bind_Ok in H as ([] & _ & H).
  destruct (_ && _); [discriminate|].
  apply bind_Ok in H as (start & _ & H).
  destruct (_ && _); [discriminate|].
  apply bind_Ok in H as (end_ & _ & H).
  apply bind_Ok in H as (profile & _ & H).
  apply bind_Ok in H as (capacity & _ & H).
  apply bind_Ok in H as (skills & Hskills & H).
  apply bind_Ok in H as (breaks & _ & H).
  apply bind_Ok in H as (description & Hdescription & H).
  apply bind_Ok in H as (costs & Hcosts & H).
  apply bind_Ok in H as (speed_factor & Hspeed & H).
  apply bind_Ok in H as (service_type & Hservice & H).
  apply bind_Ok in H as (max_tasks & Htasks & H).
  apply bind_Ok in H as (max_travel_time & Htime & H).
  apply bind_Ok in H as (max_distance & Hdistance & H).
  apply bind_Ok in H as (steps & Hsteps & H).
  injection H as <-. simpl. auto 10.
Qed.

(** On success [get_vehicle] builds a vehicle with the id of the object
    whose description, speed factor, service type and limits
    [max_tasks], [max_travel_time] and [max_distance] are the members of
    these names, the two strings cut at their first U+0000; without them
    the description is empty, the speed factor is 1 and there is no
    service type and no limit.  Without the keys
    [skills], [breaks] and [steps] the vehicle has no skill, no break and
    no step. *)
Theorem get_vehicle_optional_members (json_vehicle : Value)
    (amount_size : nat) (tw : TimeWindow) (v : Vehicle) :
  get_vehicle json_vehicle amount_size tw = Ok v ->
  vehicle_id v = GetUint64 json_vehicle.["id"] /\
  vehicle_description v
  = default "" (string_member json_vehicle "description") /\
  vehicle_speed_factor v
  = default (NumInt 1)
      (GetDouble <$> FindMember (GetObject json_vehicle) "speed_factor") /\
  vehicle_service_type v = string_member json_vehicle "service_type" /\
  vehicle_max_tasks v = uint_member json_vehicle "max_tasks" /\
  vehicle_max_travel_time v = uint_member json_vehicle "max_travel_time" /\
  vehicle_max_distance v = uint_member json_vehicle "max_distance" /\
  (HasMember json_vehicle "skills" = false -> vehicle_skills v = ∅) /\
  (HasMember json_vehicle "breaks" = false -> vehicle_breaks v = []) /\
  (HasMember json_vehicle "steps" = false -> vehicle_steps v = []).
Proof.
  intros H.
  pose proof (get_vehicle_Ok _ _ _ _ H) as (_ & Hid & _ & _ & Hbreaks).
  apply get_vehicle_Ok_members in H
    as (Hskills & Hdescription & _ & Hspeed & Hservice & Htasks & Htime &
        Hdistance & Hsteps).
  apply get_string_Ok in Hdescription.
  apply get_double_Ok in Hspeed.
  apply get_optional_string_Ok in Hservice.
  apply get_value_for_Ok in Htasks, Htime, Hdistance.
  split; [assumption|]. split; [assumption|]. split; [assumption|].
  split; [assumption|]. split; [assumption|]. split; [assumption|].
  split; [assumption|].
  split; [|split].
  - intros E. rewrite (get_skills_absent _ E) in Hskills. congruence.
  - intros E. unfold get_vehicle_breaks in Hbreaks. rewrite E in Hbreaks.
    simpl in Hbreaks. injection Hbreaks as <-. reflexivity.
  - intros E. unfold get_vehicle_steps in Hsteps. rewrite E in Hsteps.
    congruence.
Qed.

Lemma get_vehicle_optional_members_witness :
  (exists v,
     get_vehicle sample_vehicle_nul_strings 0 TimeWindow_default = Ok v /\
     vehicle_description v = "a" /\
     vehicle_service_type v = Some "x" /\
     vehicle_description v
     = default "" (string_member sample_vehicle_nul_strings "description") /\
     vehicle_service_type v
     = string_member sample_vehicle_nul_strings "service_type") /\
  get_vehicle sample_vehicle_full 0 TimeWindow_default
    = Ok sample_vehicle_full_parsed /\
  vehicle_id sample_vehicle_full_parsed
  = GetUint64 sample_vehicle_full.["id"] /\
  vehicle_description sample_vehicle_full_parsed
  = default "" (string_member sample_vehicle_full "description") /\
  vehicle_speed_factor sample_vehicle_full_parsed
  = default (NumInt 1)
      (GetDouble <$> FindMember (GetObject sample_vehicle_full)
                       "speed_factor") /\
  vehicle_service_type sample_vehicle_full_parsed
  = string_member sample_vehicle_full "service_type" /\
  vehicle_max_tasks sample_vehicle_full_parsed
  = uint_member sample_vehicle_full "max_tasks" /\
  vehicle_max_travel_time sample_vehicle_full_parsed
  = uint_member sample_vehicle_full "max_travel_time" /\
  vehicle_max_distance sample_vehicle_full_parsed
  = uint_member sample_vehicle_full "max_distance" /\
  (HasMember sample_vehicle_full "skills" = false ->
   vehicle_skills sample_vehicle_full_parsed = ∅) /\
  (HasMember sample_vehicle_full "breaks" = false ->
   vehicle_breaks sample_vehicle_full_parsed = []) /\
  (HasMember sample_vehicle_full "steps" = false ->
   vehicle_steps sample_vehicle_full_parsed = []).
Proof.
  split.
  - eexists. split; [vm_compute; reflexivity|].
    split; [reflexivity|]. split; [reflexivity|].
    destruct (get_vehicle_optional_members sample_vehicle_nul_strings 0
                TimeWindow_default _ eq_refl)
      as (_ & Hdescription & _ & Hservice & _).
    exact (conj Hdescription Hservice).
  - split; [vm_compute; reflexivity|].
    apply (get_vehicle_optional_members sample_vehicle_full 0
             TimeWindow_default sample_vehicle_full_parsed).
    vm_compute; reflexivity.
Defined.

(* ===================================================================== *)
(** * Further properties of parse: what a successful run has stored *)

Lemma parse_Ok_geometry input doc g input' :
  parse input (Document doc) g = Ok input' -> geometry input' = g.
Proof.
  unfold parse. intros H.
  apply bind_Ok in H as (input1 & Htasks & H).
  apply parse_tasks_Ok in Htasks as (vss & js & pds & _ & _ & _ & ->).
  now apply parse_matrices_fields in H as (_ & -> & _).
Qed.

Lemma vehicle_added_ids n json_vehicle vs :
  vehicle_added n json_vehicle vs ->
  vehicle_id <$> vs
  = replicate (vehicle_count json_vehicle) (GetUint64 json_vehicle.["id"]).
Proof.
  unfold vehicle_added, vehicle_count.
  destruct (HasMember json_vehicle "time_windows") eqn:Hhas.
  - intros (tws & Htws & Hvs).
    apply get_time_windows_Ok_length in Htws as [<- _]; [|assumption].
    induction Hvs as [|tw v tws vs Hv _ IH]; simpl; [reflexivity|].
    apply get_vehicle_Ok in Hv as (_ & -> & _). now f_equal.
  - intros (tw & v & _ & Hv & ->). simpl.
    now apply get_vehicle_Ok in Hv as (_ & -> & _).
Qed.

Lemma get_job_Ok_amounts json_job n job :
  get_job json_job n = Ok job ->
  job_id job = GetUint64 json_job.["id"] /\
  job_type job = SINGLE /\
  job_amounts_of_size n job.
Proof.
  unfold get_job, job_amounts_of_size. intros H.
  apply bind_Ok in H as ([] & _ & H).
  apply bind_Ok in H as (loc & _ & H).
  bind_inv H. bind_inv H. bind_inv H.
  apply bind_Ok in H as (delivery & Hdelivery & H).
  apply bind_Ok in H as (pickup & Hpickup & H).
  binds_inv H. injection H as <-. simpl.
  split; [reflexivity|]. split; [reflexivity|].
  split; [|exact (get_amount_length _ _ _ _ Hpickup)].
  destruct (need_amount_compat json_job);
    exact (get_amount_length _ _ _ _ Hdelivery).
Qed.

Lemma shipment_added_amounts n json_shipment pd :
  shipment_added n json_shipment pd ->
  job_id pd.1 = GetUint64 json_shipment.["pickup"].["id"] /\
  job_id pd.2 = GetUint64 json_shipment.["delivery"].["id"] /\
  job_type pd.1 = PICKUP /\ job_type pd.2 = DELIVERY /\
  job_amounts_of_size n pd.1 /\ job_amounts_of_size n pd.2.
Proof.
  unfold shipment_added, shipment_fields, task_fields, job_amounts_of_size.
  intros (_ & _ & _ & Hp & Hd & ((a & Ha & ->) & _) & ((a' & Ha' & ->) & _)
          & (Hpid & _) & (Hdid & _)).
  repeat split; try assumption; eauto using get_amount_length.
Qed.

Lemma get_vehicle_breaks_max_load v n breaks :
  get_vehicle_breaks v n = Ok breaks ->
  Forall (fun b => forall a, break_max_load b = Some a -> length a = n)
         breaks.
Proof.
  unfold get_vehicle_breaks. intros H.
  apply bind_Ok in H as (breaks0 & H0 & [= <-]).
  rewrite std_sort_Permutation.
  destruct (HasMember v "breaks"); [|injection H0 as <-; constructor].
  destruct (negb _); [discriminate|].
  apply mapM_Ok_Forall2 in H0.
  induction H0 as [|b br bs brs Hbr _ IH]; constructor; [|assumption].
  apply get_break_Ok in Hbr as (_ & _ & _ & Hmax).
  intros a Ha. destruct (HasMember b "max_load"); [|congruence].
  destruct Hmax as (a' & Ha' & Heq).
  assert (a' = a) as -> by congruence.
  exact (get_amount_length _ _ _ _ Ha').
Qed.

Lemma vehicle_added_amounts n json_vehicle vs :
  vehicle_added n json_vehicle vs -> Forall (vehicle_amounts_of_size n) vs.
Proof.
  assert (Hone : forall tw v,
             get_vehicle json_vehicle n tw = Ok v ->
             vehicle_amounts_of_size n v).
  { intros tw v Hv.
    apply get_vehicle_Ok in Hv as (_ & _ & _ & Hcapacity & Hbreaks).
    split; [exact (get_amount_length _ _ _ _ Hcapacity)|].
    exact (get_vehicle_breaks_max_load _ _ _ Hbreaks). }
  unfold vehicle_added. destruct (HasMember json_vehicle "time_windows").
  - intros (tws & _ & Hvs).
    induction Hvs; constructor; eauto.
  - intros (tw & v & _ & Hv & ->). constructor; [eauto|constructor].
Qed.

(** On a successful run [parse] keeps what the [Input] held and appends
    to it in the order of the document: the vehicles, whose ids are the
    id of each vehicle object repeated once per time window of its
    [time_windows] (once without that key); one job per element of
    [jobs], the one [get_job] builds for it, of type [SINGLE] and with
    its id; one pickup and delivery pair per element of [shipments], with
    the ids of the two sub-objects.  The geometry flag is stored as
    given. *)
Theorem parse_keeps_ids_in_order (input : Input) (doc : Value) (g : bool)
    (input' : Input) :
  parse input (Document doc) g = Ok input' ->
  geometry input' = g /\
  exists vs js pds,
    vehicles input' = vehicles input ++ vs /\
    jobs input' = jobs input ++ js /\
    shipments input' = shipments input ++ pds /\
    vehicle_id <$> vs
    = concat ((fun json_vehicle =>
                 replicate (vehicle_count json_vehicle)
                           (GetUint64 json_vehicle.["id"]))
              <$> GetArray doc.["vehicles"]) /\
    Forall2 (fun json_job job =>
               get_job json_job (amount_size input') = Ok job)
            (GetArray doc.["jobs"]) js /\
    job_id <$> js
    = (fun json_job => GetUint64 json_job.["id"]) <$> GetArray doc.["jobs"] /\
    Forall (fun job => job_type job = SINGLE) js /\
    (fun pd => (job_id pd.1, job_id pd.2)) <$> pds
    = (fun json_shipment =>
         (GetUint64 json_shipment.["pickup"].["id"],
          GetUint64 json_shipment.["delivery"].["id"]))
      <$> GetArray doc.["shipments"] /\
    Forall (fun pd => job_type pd.1 = PICKUP /\ job_type pd.2 = DELIVERY)
           pds.
Proof.
  intros H. split; [exact (parse_Ok_geometry _ _ _ _ H)|].
  apply parse_Ok in H
    as (vss & js & pds & Hvss & Hjs & Hpds & Hn & Hv & Hj & Hs).
  exists (concat vss), js, pds.
  split; [assumption|]. split; [assumption|]. split; [assumption|].
  split; [|split; [|split; [|split; [|split]]]].
  - clear -Hvss. induction Hvss as [|jv vs jvs vss Hvs _ IH];
      simpl; [reflexivity|].
    rewrite fmap_app, IH. f_equal. exact (vehicle_added_ids _ _ _ Hvs).
  - rewrite Hn. exact Hjs.
  - clear -Hjs. induction Hjs as [|j job ? ? Hjob _ IH];
      simpl; [reflexivity|].
    apply get_job_Ok_amounts in Hjob as (-> & _). now f_equal.
  - clear -Hjs. induction Hjs as [|j job ? ? Hjob _ IH]; constructor;
      [|assumption].
    now apply get_job_Ok_amounts in Hjob as (_ & ? & _).
  - clear -Hpds. induction Hpds as [|s pd ? ? Hpd _ IH];
      simpl; [reflexivity|].
    apply shipment_added_amounts in Hpd as (-> & -> & _). now f_equal.
  - clear -Hpds. induction Hpds as [|s pd ? ? Hpd _ IH]; constructor;
      [|assumption].
    apply shipment_added_amounts in Hpd as (_ & _ & ? & ? & _). auto.
Qed.

Lemma parse_keeps_ids_in_order_witness :
  parse Input_empty (Document sample_vehicles) true
    = Ok (set_geometry true sample_vehicles_parsed) /\
  vehicle_id <$> vehicles sample_vehicles_parsed = [4; 4; 5; 6] /\
  geometry (set_geometry true sample_vehicles_parsed) = true /\
  exists vs js pds,
    vehicles (set_geometry true sample_vehicles_parsed)
    = vehicles Input_empty ++ vs /\
    jobs (set_geometry true sample_vehicles_parsed)
    = jobs Input_empty ++ js /\
    shipments (set_geometry true sample_vehicles_parsed)
    = shipments Input_empty ++ pds /\
    vehicle_id <$> vs
    = concat ((fun json_vehicle =>
                 replicate (vehicle_count json_vehicle)
                           (GetUint64 json_vehicle.["id"]))
              <$> GetArray sample_vehicles.["vehicles"]) /\
    Forall2 (fun json_job job =>
               get_job json_job
                       (amount_size (set_geometry true sample_vehicles_parsed))
               = Ok job)
            (GetArray sample_vehicles.["jobs"]) js /\
    job_id <$> js
    = (fun json_job => GetUint64 json_job.["id"])
      <$> GetArray sample_vehicles.["jobs"] /\
    Forall (fun job => job_type job = SINGLE) js /\
    (fun pd => (job_id pd.1, job_id pd.2)) <$> pds
    = (fun json_shipment =>
         (GetUint64 json_shipment.["pickup"].["id"],
          GetUint64 json_shipment.["delivery"].["id"]))
      <$> GetArray sample_vehicles.["shipments"] /\
    Forall (fun pd => job_type pd.1 = PICKUP /\ job_type pd.2 = DELIVERY)
           pds.
Proof.
  split; [vm_compute; reflexivity|]. split; [reflexivity|].
  apply (parse_keeps_ids_in_order Input_empty sample_vehicles true
           (set_geometry true sample_vehicles_parsed)).
  vm_compute; reflexivity.
Defined.

(** On a successful run every amount [parse] has stored has as many
    components as the [amount_size] of the [Input]: the capacity of
    each vehicle added and the [max_load] of each of its breaks, the
    delivery and the pickup of each job, the amount of the two jobs of
    each shipment. *)
Theorem parse_amounts_of_size (input : Input) (doc : Value) (g : bool)
    (input' : Input) :
  parse input (Document doc) g = Ok input' ->
  exists vs js pds,
    vehicles input' = vehicles input ++ vs /\
    jobs input' = jobs input ++ js /\
    shipments input' = shipments input ++ pds /\
    Forall (vehicle_amounts_of_size (amount_size input')) vs /\
    Forall (job_amounts_of_size (amount_size input')) js /\
    Forall (fun pd => job_amounts_of_size (amount_size input') pd.1 /\
                      job_amounts_of_size (amount_size input') pd.2) pds.
Proof.
  intros H.
  apply parse_Ok in H
    as (vss & js & pds & Hvss & Hjs & Hpds & -> & Hv & Hj & Hs).
  exists (concat vss), js, pds.
  split; [assumption|]. split; [assumption|]. split; [assumption|].
  split; [|split].
  - clear -Hvss. induction Hvss as [|jv vs jvs vss Hvs _ IH];
      simpl; [constructor|].
    apply Forall_app. split; [|assumption].
    exact (vehicle_added_amounts _ _ _ Hvs).
  - clear -Hjs. induction Hjs as [|j job ? ? Hjob _ IH]; constructor;
      [|assumption].
    now apply get_job_Ok_amounts in Hjob as (_ & _ & ?).
  - clear -Hpds. induction Hpds as [|s pd ? ? Hpd _ IH]; constructor;
      [|assumption].
    apply shipment_added_amounts in Hpd as (_ & _ & _ & _ & ? & ?). auto.
Qed.

Lemma parse_amounts_of_size_witness :
  parse Input_empty (Document sample_amounts) false
    = Ok sample_amounts_parsed /\
  amount_size sample_amounts_parsed = 1%nat /\
  exists vs js pds,
    vehicles sample_amounts_parsed = vehicles Input_empty ++ vs /\
    jobs sample_amounts_parsed = jobs Input_empty ++ js /\
    shipments sample_amounts_parsed = shipments Input_empty ++ pds /\
    Forall (vehicle_amounts_of_size (amount_size sample_amounts_parsed)) vs /\
    Forall (job_amounts_of_size (amount_size sample_amounts_parsed)) js /\
    Forall (fun pd =>
              job_amounts_of_size (amount_size sample_amounts_parsed) pd.1 /\
              job_amounts_of_size (amount_size sample_amounts_parsed) pd.2)
           pds.
Proof.
  split; [vm_compute; reflexivity|]. split; [reflexivity|].
  apply (parse_amounts_of_size Input_empty sample_amounts false
           sample_amounts_parsed).
  vm_compute; reflexivity.
Defined.

Lemma for_each_invariant {S A} (body : S -> A -> result S) (P : S -> Prop) :
  (forall s x s', P s -> body s x = Ok s' -> P s') ->
  forall l s s', P s -> for_each body s l = Ok s' -> P s'.
Proof.
  intros Hbody. induction l as [|x l IH]; simpl; intros s s' Hs H.
  - now injection H as <-.
  - apply bind_Ok in H as (s1 & H1 & H). eauto.
Qed.

Lemma square_matrices_insert ms name (M : list (list Z)) :
  square_matrices ms -> square M /\ Forall (Forall in_uint32) M ->
  square_matrices (<[name := M]> ms).
Proof. intros Hms HM. now apply map_Forall_insert_2. Qed.

Lemma get_matrix_Ok_square m (M : list (list Z)) :
  get_matrix m = Ok M -> square M /\ Forall (Forall in_uint32) M.
Proof. intros H. now apply get_matrix_Ok in H as (_ & ? & ?). Qed.

Lemma matrices_square_set input (pm : string * list (list Z)) m :
  matrices_square input ->
  get_matrix m = Ok pm.2 ->
  matrices_square (set_durations_matrix pm.1 pm.2 input) /\
  matrices_square (set_distances_matrix pm.1 pm.2 input) /\
  matrices_square (set_costs_matrix pm.1 pm.2 input).
Proof.
  intros (H1 & H2 & H3) Hm. apply get_matrix_Ok_square in Hm.
  pose proof (fun ms => square_matrices_insert ms pm.1 pm.2) as Hins.
  unfold matrices_square. simpl. auto 10.
Qed.

Lemma matrices_square_set_durations input profile m (M : list (list Z)) :
  matrices_square input -> get_matrix m = Ok M ->
  matrices_square (set_durations_matrix profile M input).
Proof.
  intros Hsq Hm. now apply (matrices_square_set input (profile, M) m).
Qed.

Lemma matrices_square_set_distances input profile m (M : list (list Z)) :
  matrices_square input -> get_matrix m = Ok M ->
  matrices_square (set_distances_matrix profile M input).
Proof.
  intros Hsq Hm. now apply (matrices_square_set input (profile, M) m).
Qed.

Lemma matrices_square_set_costs input profile m (M : list (list Z)) :
  matrices_square input -> get_matrix m = Ok M ->
  matrices_square (set_costs_matrix profile M input).
Proof.
  intros Hsq Hm. now apply (matrices_square_set input (profile, M) m).
Qed.

Lemma parse_matrices_entry_square input entry input' :
  matrices_square input ->
  parse_matrices_entry input entry = Ok input' ->
  matrices_square input'.
Proof.
  unfold parse_matrices_entry. intros Hsq H.
  destruct (IsObject entry.2); [|now injection H as <-].
  apply bind_Ok in H as (input1 & H1 & H).
  apply bind_Ok in H as (input2 & H2 & H).
  assert (Hsq1 : matrices_square input1).
  { destruct (HasMember entry.2 "durations"); [|now injection H1 as <-].
    apply bind_Ok in H1 as (m & Hm & [= <-]).
    eauto using matrices_square_set_durations. }
  assert (Hsq2 : matrices_square input2).
  { destruct (HasMember entry.2 "distances"); [|now injection H2 as <-].
    apply bind_Ok in H2 as (m & Hm & [= <-]).
    eauto using matrices_square_set_distances. }
  destruct (HasMember entry.2 "costs"); [|now injection H as <-].
  apply bind_Ok in H as (m & Hm & [= <-]).
  eauto using matrices_square_set_costs.
Qed.

(** [parse] only stores square matrices with entries in the range of
    [uint32_t]: when the matrices of the [Input] are such before a
    successful run, whether from [matrices] or from the deprecated
    [matrix] key, they are such after it. *)
Theorem parse_stores_square_matrices (input : Input) (doc : Value)
    (g : bool) (input' : Input) :
  matrices_square input ->
  parse input (Document doc) g = Ok input' ->
  matrices_square input'.
Proof.
  intros Hsq H. unfold parse in H.
  apply bind_Ok in H as (input1 & Htasks & H).
  apply parse_tasks_Ok in Htasks as (vss & js & pds & _ & _ & _ & ->).
  unfold parse_matrices in H.
  destruct (HasMember doc "matrices").
  - destruct (negb _); [discriminate|].
    revert H. apply for_each_invariant; [|exact Hsq].
    intros s x s'. apply parse_matrices_entry_square.
  - destruct (HasMember doc "matrix"); [|now injection H as <-].
    apply bind_Ok in H as (m & Hm & [= <-]).
    eauto using matrices_square_set_durations.
Qed.

Lemma parse_stores_square_matrices_witness :
  matrices_square Input_empty /\
  exists input',
    parse Input_empty (Document sample_matrices) false = Ok input' /\
    durations_matrices input' !! "car" = Some [[0; 3]; [2; 0]] /\
    distances_matrices input' !! "bike" = Some [[0]] /\
    matrices_square input'.
Proof.
  assert (Hempty : matrices_square Input_empty)
    by (split; [|split]; apply map_Forall_empty).
  split; [exact Hempty|].
  eexists. split; [vm_compute; reflexivity|].
  split; [vm_compute; reflexivity|]. split; [vm_compute; reflexivity|].
  apply (parse_stores_square_matrices Input_empty sample_matrices false);
    [exact Hempty|vm_compute; reflexivity].
Defined.

(* ===================================================================== *)
(** * Further properties of parse: the exceptions it raises *)

Create HintDb rte.

#[local] Hint Extern 1 (runtime_error_of_duration_map _) =>
  (let H := fresh "H" in
   intros ? H; first [discriminate H | injection H as <-; reflexivity])
  : rte.

Ltac rte_throw H := throw_inv H; eauto with rte.

Lemma assert_rte b e : assert b = Throw e -> runtime_error_of_duration_map e.
Proof. unfold assert. intros H. rte_throw H. Qed.

Lemma parse_coordinates_rte o key e :
  parse_coordinates o key = Throw e -> runtime_error_of_duration_map e.
Proof. unfold parse_coordinates. intros H. rte_throw H. Qed.

Lemma get_string_rte o key e :
  get_string o key = Throw e -> runtime_error_of_duration_map e.
Proof. unfold get_string. intros H. rte_throw H. Qed.

Lemma get_optional_string_rte o key e :
  get_optional_string o key = Throw e -> runtime_error_of_duration_map e.
Proof. unfold get_optional_string. intros H. rte_throw H. Qed.

Lemma get_double_rte o key e :
  get_double o key = Throw e -> runtime_error_of_duration_map e.
Proof. unfold get_double. intros H. rte_throw H. Qed.

Lemma get_value_for_rte o key e :
  get_value_for o key = Throw e -> runtime_error_of_duration_map e.
Proof. unfold get_value_for. intros H. rte_throw H. Qed.

Lemma get_duration_rte o key e :
  get_duration o key = Throw e -> runtime_error_of_duration_map e.
Proof. unfold get_duration. intros H. rte_throw H. Qed.

Lemma get_amount_loop_rte key elements e : forall i amount,
  get_amount_loop key elements i amount = Throw e ->
  runtime_error_of_duration_map e.
Proof.
  induction elements as [|x l IH]; simpl; intros i amount H;
    [discriminate|].
  destruct (negb (IsUint x)); [|eauto]. rte_throw H.
Qed.

Lemma get_amount_rte o key n e :
  get_amount o key n = Throw e -> runtime_error_of_duration_map e.
Proof.
  unfold get_amount. intros H.
  destruct (HasMember o key); [|discriminate].
  destruct (negb (IsArray o.[key])); [rte_throw H|].
  destruct (negb (Size o.[key] =? n)%nat); [rte_throw H|].
  eauto using get_amount_loop_rte.
Qed.

Lemma get_skills_rte o e :
  get_skills o = Throw e -> runtime_error_of_duration_map e.
Proof.
  unfold get_skills. intros H.
  destruct (HasMember o "skills"); [|discriminate].
  destruct (negb (IsArray o.["skills"])); [rte_throw H|].
  apply for_each_Throw in H as (s & x & H). rte_throw H.
Qed.

Lemma get_duration_map_Throw o key e :
  get_duration_map o key = Throw e ->
  e = runtime_error ("Invalid " +:+ key +:+ " duration.").
Proof.
  unfold get_duration_map. intros H.
  destruct (negb (HasMember o key)); [discriminate|].
  destruct (negb (IsObject o.[key])); [now apply Throw_inj in H|].
  apply for_each_Throw in H as (s & x & H).
  destruct (negb (IsUint x.2)); [now apply Throw_inj in H|discriminate].
Qed.

Lemma get_duration_map_rte o e :
  get_duration_map o "service_per_vehicle_type" = Throw e ->
  runtime_error_of_duration_map e.
Proof.
  intros H. apply get_duration_map_Throw in H as ->.
  intros message [= <-]. reflexivity.
Qed.

Lemma get_priority_rte o e :
  get_priority o = Throw e -> runtime_error_of_duration_map e.
Proof. unfold get_priority. intros H. rte_throw H. Qed.

Lemma check_id_rte v type e :
  check_id v type = Throw e -> runtime_error_of_duration_map e.
Proof. unfold check_id. intros H. rte_throw H. Qed.

Lemma check_shipment_rte v e :
  check_shipment v = Throw e -> runtime_error_of_duration_map e.
Proof. unfold check_shipment. intros H. rte_throw H. Qed.

Lemma check_location_rte v type e :
  check_location v type = Throw e -> runtime_error_of_duration_map e.
Proof. unfold check_location. intros H. rte_throw H. Qed.

Lemma check_tws_rte tws id type e :
  check_tws tws id type = Throw e -> runtime_error_of_duration_map e.
Proof. unfold check_tws. intros H. destruct tws; rte_throw H. Qed.

Lemma get_time_window_rte tw e :
  get_time_window tw = Throw e -> runtime_error_of_duration_map e.
Proof.
  unfold get_time_window, TimeWindow_make. intros H. rte_throw H.
Qed.

#[local] Hint Resolve assert_rte parse_coordinates_rte get_string_rte
  get_optional_string_rte get_double_rte get_value_for_rte
  get_duration_rte get_amount_rte get_skills_rte get_duration_map_rte
  get_priority_rte check_id_rte check_shipment_rte check_location_rte
  check_tws_rte get_time_window_rte : rte.

Lemma get_vehicle_time_window_rte v e :
  get_vehicle_time_window v = Throw e -> runtime_error_of_duration_map e.
Proof. unfold get_vehicle_time_window. intros H. rte_throw H. Qed.

Lemma get_time_windows_rte o e :
  get_time_windows o = Throw e -> runtime_error_of_duration_map e.
Proof.
  unfold get_time_windows. intros H. rte_throw H.
  apply mapM_Throw in E as (tw & E). eauto with rte.
Qed.

#[local] Hint Resolve get_vehicle_time_window_rte get_time_windows_rte
  : rte.

Lemma get_break_rte b n e :
  get_break b n = Throw e -> runtime_error_of_duration_map e.
Proof. unfold get_break. intros H. rte_throw H. Qed.

#[local] Hint Resolve get_break_rte : rte.

Lemma get_vehicle_breaks_rte v n e :
  get_vehicle_breaks v n = Throw e -> runtime_error_of_duration_map e.
Proof.
  unfold get_vehicle_breaks. intros H. rte_throw H.
  apply mapM_Throw in E as (b & E). eauto with rte.
Qed.

Lemma get_vehicle_costs_rte v e :
  get_vehicle_costs v = Throw e -> runtime_error_of_duration_map e.
Proof. unfold get_vehicle_costs. intros H. rte_throw H. Qed.

Lemma get_vehicle_step_rte v json_step e :
  get_vehicle_step v json_step = Throw e -> runtime_error_of_duration_map e.
Proof. unfold get_vehicle_step. intros H. rte_throw H. Qed.

#[local] Hint Resolve get_vehicle_breaks_rte get_vehicle_costs_rte
  get_vehicle_step_rte : rte.

Lemma get_vehicle_steps_rte v e :
  get_vehicle_steps v = Throw e -> runtime_error_of_duration_map e.
Proof.
  unfold get_vehicle_steps. intros H. rte_throw H.
  apply mapM_Throw in H as (json_step & H). eauto with rte.
Qed.

#[local] Hint Resolve get_vehicle_steps_rte : rte.

Lemma get_vehicle_rte json_vehicle n tw e :
  get_vehicle json_vehicle n tw = Throw e -> runtime_error_of_duration_map e.
Proof. unfold get_vehicle. intros H. rte_throw H. Qed.

Lemma get_task_location_rte v type e :
  get_task_location v type = Throw e -> runtime_error_of_duration_map e.
Proof. unfold get_task_location. intros H. rte_throw H. Qed.

#[local] Hint Resolve get_vehicle_rte get_task_location_rte : rte.

Lemma get_job_rte json_job n e :
  get_job json_job n = Throw e -> runtime_error_of_duration_map e.
Proof. unfold get_job. intros H. rte_throw H. Qed.

#[local] Hint Resolve get_job_rte : rte.

Lemma parse_vehicle_rte n input json_vehicle e :
  parse_vehicle n input json_vehicle = Throw e ->
  runtime_error_of_duration_map e.
Proof.
  unfold parse_vehicle. intros H. rte_throw H.
  apply for_each_Throw in H as (s & tw & H). rte_throw H.
Qed.

Lemma parse_job_rte n input json_job e :
  parse_job n input json_job = Throw e -> runtime_error_of_duration_map e.
Proof. unfold parse_job. intros H. rte_throw H. Qed.

Lemma parse_shipment_rte n input json_shipment e :
  parse_shipment n input json_shipment = Throw e ->
  runtime_error_of_duration_map e.
Proof. unfold parse_shipment. intros H. rte_throw H. Qed.

Lemma get_matrix_rte m e :
  get_matrix m = Throw e -> runtime_error_of_duration_map e.
Proof.
  unfold get_matrix. intros H. rte_throw H.
  apply mapM_Throw in H as (mi & H). rte_throw H.
  apply mapM_Throw in H as (x & H). rte_throw H.
Qed.

#[local] Hint Resolve parse_vehicle_rte parse_job_rte parse_shipment_rte
  get_matrix_rte : rte.

Lemma parse_matrices_entry_rte input entry e :
  parse_matrices_entry input entry = Throw e ->
  runtime_error_of_duration_map e.
Proof. unfold parse_matrices_entry. intros H. rte_throw H. Qed.

#[local] Hint Resolve parse_matrices_entry_rte : rte.

Lemma parse_matrices_rte input doc e :
  parse_matrices input doc = Throw e -> runtime_error_of_duration_map e.
Proof.
  unfold parse_matrices. intros H. rte_throw H.
  apply for_each_Throw in H as (s & entry & H). eauto with rte.
Qed.

Lemma parse_tasks_rte input doc g e :
  parse_tasks input doc g = Throw e -> runtime_error_of_duration_map e.
Proof.
  unfold parse_tasks. intros H.
  throw_inv H; eauto with rte;
    match goal with
    | E : for_each _ _ _ = Throw _ |- _ =>
        apply for_each_Throw in E as (? & ? & E); eauto with rte
    end.
Qed.

(** Whatever [get_duration_map] raises is a [std::runtime_error], not an
    [InputException], with the message "Invalid <key> duration."; and it
    is the only one [parse] can raise: a [std::runtime_error] that comes
    out of [parse] carries the message
    "Invalid service_per_vehicle_type duration.". *)
Theorem runtime_error_only_from_duration_map (input : Input)
    (parsed : ParseResult) (g : bool) (o : Value) (key : string)
    (e e' : exception) :
  (get_duration_map o key = Throw e' ->
   e' = runtime_error ("Invalid " +:+ key +:+ " duration.")) /\
  (parse input parsed g = Throw e -> runtime_error_of_duration_map e).
Proof.
  split; [apply get_duration_map_Throw|].
  unfold parse. intros H. destruct parsed as [msg offset|doc].
  - rte_throw H.
  - destruct (parse_tasks input doc g) eqn:E; simpl in H.
    + eauto using parse_matrices_rte.
    + apply Throw_inj in H as <-. eauto using parse_tasks_rte.
Qed.

Lemma runtime_error_only_from_duration_map_witness :
  get_duration_map (element sample_invalid_duration_map.["jobs"] 0)
                   "service_per_vehicle_type"
  = Throw (runtime_error "Invalid service_per_vehicle_type duration.") /\
  parse Input_empty (Document sample_invalid_duration_map) false
  = Throw (runtime_error "Invalid service_per_vehicle_type duration.") /\
  runtime_error "Invalid service_per_vehicle_type duration."
  = runtime_error ("Invalid " +:+ "service_per_vehicle_type" +:+
                   " duration.") /\
  runtime_error_of_duration_map
    (runtime_error "Invalid service_per_vehicle_type duration.").
Proof.
  split; [vm_compute; reflexivity|]. split; [vm_compute; reflexivity|].
  destruct (runtime_error_only_from_duration_map Input_empty
              (Document sample_invalid_duration_map) false
              (element sample_invalid_duration_map.["jobs"] 0)
              "service_per_vehicle_type"
              (runtime_error "Invalid service_per_vehicle_type duration.")
              (runtime_error "Invalid service_per_vehicle_type duration."))
    as [H1 H2].
  split; [apply H1|apply H2]; vm_compute; reflexivity.
Defined.

(* ===================================================================== *)
(** * Further properties of parse_coordinates *)

(** [parse_coordinates] returns [c] exactly when the key holds an array
    whose first two elements are numbers, the longitude and the latitude
    of [c]; further elements of the array are not looked at. *)
Theorem parse_coordinates_spec (object : Value) (key : string)
    (c : Coordinates) :
  parse_coordinates object key = Ok c
  <-> exists x y rest,
        FindMember (GetObject object) key
        = Some (kArray (kNumber x :: kNumber y :: rest)) /\
        c = {| lon := x; lat := y |}.
Proof.
  unfold parse_coordinates, member, Size, element.
  destruct (FindMember (GetObject object) key) as [v|]; simpl.
  - destruct v as [| | | |l|]; simpl;
      try (split; [discriminate|intros (? & ? & ? & [=] & _)]).
    destruct l as [|a [|b rest]]; simpl;
      try (split; [discriminate|intros (? & ? & ? & [=] & _)]).
    destruct a as [| |x| | |]; simpl;
      try (split; [discriminate|intros (? & ? & ? & [=] & _)]).
    destruct b as [| |y| | |]; simpl;
      try (split; [discriminate|intros (? & ? & ? & [=] & _)]).
    split.
    + intros [= <-]. eauto.
    + intros (? & ? & ? & [= <- <- <-] & ->). reflexivity.
  - split; [discriminate|intros (? & ? & ? & [=] & _)].
Qed.
